(** * Golden-question pipeline: extraction, categorisation, deduplication

    A shallow embedding of [evals/golden_questions/src] (models.py,
    deduplicator.py, extractor.py, reformulator_llm.py, categorizer_llm.py,
    subject_categorizer_llm.py, filter.py, loader.py, llm_provider.py,
    main.py) together with the properties of the pipeline that its
    description states and further properties of the code.

    Conventions of the embedding.
    - A Python [str] is a list of Unicode code points ([str := list N]).
    - Python's Unicode case mapping and the alphanumeric table behind the
      regex class [\w] belong to the interpreter, not to this repository;
      they are section variables.  The white-space table is small and is
      written out.
    - A Python [float] is an exact rational ([Q]); the square root behind
      [np.linalg.norm] is a section variable.  Rounding is not modelled:
      what is stated about similarities is how they compare with the
      threshold and with each other, not their values.
    - A [dict] keyed by strings is a [gmap], a [set] of indices a [gset];
      the filters dictionary, whose keys are whatever the input holds, is
      an insertion-ordered association list under Python equality.
    - The chat and embedding back ends are oracles; every call to them is
      counted in an explicit world state, as is every [time.sleep].
    - Writing a file is modelled for the case that the write goes through
      (the directory can be made, the path opened and every record
      encoded); what is stated about a function that writes a log holds
      for the calls that return. *)

From Stdlib Require Import ZArith QArith Qround Lqa String Ascii Decimal DecimalNat.
From stdpp Require Import base option list gmap sets.

Set Warnings "-register-all,-clear-no-such-hyp".

Local Open Scope Z_scope.
Local Open Scope list_scope.

(** ** Python strings *)

Module PyStr.

Definition char := N.
Definition str := list char.

(** Code points of an ASCII literal. *)
Definition u (s : string) : str := N_of_ascii <$> list_ascii_of_string s.

(** [str.isspace] for one code point: the characters that [str.split()],
    [str.strip()] and the regex class [\s] treat as white space. *)
Definition isspace (c : char) : bool :=
  ((9 <=? c) && (c <=? 13) || (28 <=? c) && (c <=? 32)
   || (c =? 133) || (c =? 160) || (c =? 5760)
   || (8192 <=? c) && (c <=? 8202)
   || (c =? 8232) || (c =? 8233) || (c =? 8239) || (c =? 8287)
   || (c =? 12288))%N.

Fixpoint lstrip (s : str) : str :=
  match s with
  | c :: s' => if isspace c then lstrip s' else s
  | [] => []
  end.

Definition rstrip (s : str) : str := reverse (lstrip (reverse s)).

(** [s.strip()] *)
Definition strip (s : str) : str := rstrip (lstrip s).

(** [s.split()]: maximal runs of non-space characters, in order.  [cur] is
    the run being read, reversed. *)
Fixpoint split_go (cur : str) (s : str) : list str :=
  match s with
  | [] => if cur is [] then [] else [reverse cur]
  | c :: s' =>
      if isspace c
      then (if cur is [] then split_go [] s' else reverse cur :: split_go [] s')
      else split_go (c :: cur) s'
  end.

Definition split (s : str) : list str := split_go [] s.

(** [sep.join(parts)] *)
Fixpoint join (sep : str) (parts : list str) : str :=
  match parts with
  | [] => []
  | [p] => p
  | p :: ps => p ++ sep ++ join sep ps
  end.

(** [str(n)] for a non-negative [int]. *)
Fixpoint of_uint (d : Decimal.uint) : str :=
  match d with
  | Nil => []
  | D0 d => 48%N :: of_uint d
  | D1 d => 49%N :: of_uint d
  | D2 d => 50%N :: of_uint d
  | D3 d => 51%N :: of_uint d
  | D4 d => 52%N :: of_uint d
  | D5 d => 53%N :: of_uint d
  | D6 d => 54%N :: of_uint d
  | D7 d => 55%N :: of_uint d
  | D8 d => 56%N :: of_uint d
  | D9 d => 57%N :: of_uint d
  end.

Definition of_nat (n : nat) : str := of_uint (Nat.to_uint n).

(** [str(z)] for an [int]. *)
Definition of_Z (z : Z) : str :=
  match z with
  | Z0 => u "0"
  | Zpos p => of_uint (Pos.to_uint p)
  | Zneg p => u "-" ++ of_uint (Pos.to_uint p)
  end.

End PyStr.

Import PyStr.

(** ** JSON values

    What [json.loads] produces, with integers for numbers (numbers with a
    fraction, [NaN] and the infinities are left out).  An object keeps its
    members in document order; a key is looked up from the left. *)

Inductive json : Type :=
  | JNull
  | JBool (b : bool)
  | JInt (z : Z)
  | JStr (s : str)
  | JArr (l : list json)
  | JObj (kvs : list (str * json)).

Definition jobject := list (str * json).

(** [d.get(k)] on a [dict] with string keys; [None] is [JNull]. *)
Fixpoint dict_get (k : str) (d : jobject) : option json :=
  match d with
  | [] => None
  | (k', v) :: d' => if decide (k' = k) then Some v else dict_get k d'
  end.

(** Python truthiness of a JSON value. *)
Definition truthy (v : json) : bool :=
  match v with
  | JNull => false
  | JBool b => b
  | JInt z => negb (z =? 0)
  | JStr s => if s is [] then false else true
  | JArr l => if l is [] then false else true
  | JObj d => if d is [] then false else true
  end.

(** ** Data model (models.py) *)

Record Message := {
  msg_id : str;
  text : str;
  role : option str;
  msg_created : Z;
  chunks : list jobject;
  filterValue : option json }.

Record Conversation := {
  conv_id : str;
  topic : str;
  entityId : str;
  userId : str;
  conv_created : Z;
  messages : list Message }.

Record UsageMode := {
  document_scope : json;
  operation_type : json;
  output_complexity : json }.

(** The [metadata] bag built by the extractor. *)
Record Metadata := {
  meta_topic : str;
  meta_user_id : str;
  meta_created : Z }.

(** A filters dictionary: insertion-ordered, keyed by the field name. *)
Definition Filters := list (json * list json).

Record GoldenQuestion := {
  id : str;
  question : str;
  original_question : str;
  conversation_id : str;
  context_messages : list (option str * str);
  has_retrieval : bool;
  usage_mode : UsageMode;
  subject_topics : list json;
  metadata : Metadata;
  question_changed : bool;
  filters : option Filters }.

#[global] Instance UsageMode_inhabited : Inhabited UsageMode :=
  populate {| document_scope := JNull; operation_type := JNull;
              output_complexity := JNull |}.

#[global] Instance GoldenQuestion_inhabited : Inhabited GoldenQuestion :=
  populate {| id := []; question := []; original_question := [];
              conversation_id := []; context_messages := [];
              has_retrieval := false; usage_mode := inhabitant;
              subject_topics := [];
              metadata := {| meta_topic := []; meta_user_id := [];
                             meta_created := 0 |};
              question_changed := false; filters := None |}.

(** ** Records of the side-channel files *)

(** One side of a dropped-duplicates record. *)
Record QuestionSummary := {
  qs_text : str;
  qs_original_text : str;
  qs_conversation_id : str;
  qs_has_retrieval : bool }.

(** A line of the dropped-duplicates log ([save_dropped_duplicates]). *)
Record DuplicateRecord := {
  dr_dropped_question : QuestionSummary;
  dr_kept_original : QuestionSummary;
  dr_similarity_score : Q;
  dr_match_type : str;
  dr_normalized_form : str;
  dr_drop_reason : str }.

(** An entry of the failed-reformulations file (extractor.py). *)
Record FailedReformulation := {
  fr_id : str;
  fr_conversation_id : str;
  fr_original_question : str;
  fr_failure_reason : str;
  fr_conversation_topic : str;
  fr_user_id : str;
  fr_created : Z }.

(** A message inside a dropped-conversations record. *)
Record MessageSummary := {
  ms_id : str;
  ms_role : option str;
  ms_text : str;
  ms_created : Z }.

(** A line of the dropped-conversations log ([save_dropped_conversations]). *)
Record DroppedConversation := {
  dc_conversation_id : str;
  dc_topic : str;
  dc_user_id : str;
  dc_created : Z;
  dc_message_count : nat;
  dc_drop_reason : str;
  dc_messages : list MessageSummary }.

(** ** The file system

    A file is the sequence of records written to it; [open(path, "w")]
    followed by the writes replaces whatever the path held.  A write that
    fails part of the way (a text that cannot be encoded as UTF-8, a full
    disk) is outside this model. *)

Inductive file : Type :=
  | DroppedConversationsFile (records : list DroppedConversation)
  | DroppedDuplicatesFile (records : list DuplicateRecord)
  | FailedReformulationsFile (records : list FailedReformulation)
  | QuestionsFile (records : list GoldenQuestion).

Abbreviation filesystem := (gmap str file).

(** [with open(path, "w") as f: ...] *)
Definition write_file (path : str) (content : file) (fs : filesystem)
  : filesystem := <[path := content]> fs.

(** ** Exceptions *)

Inductive exn : Type :=
  | ValueError (msg : str)
  | RuntimeError (msg : str)
  | TypeError (msg : str)
  | JSONDecodeError (msg : str)
  | RateLimitError (msg : str)
  | APIError (msg : str)
  | OtherError (msg : str).

(** [str(e)] *)
Definition exn_str (e : exn) : str :=
  match e with
  | ValueError m | RuntimeError m | TypeError m | JSONDecodeError m
  | RateLimitError m | APIError m | OtherError m => m
  end.

Inductive result (A : Type) : Type :=
  | Return (a : A)
  | Raise (e : exn).
Arguments Return {A} a.
Arguments Raise {A} e.

(** ** Deduplicator (deduplicator.py) *)

Module Dedup.

(** One entry of the transparency log: (duplicate, original, score). *)
Definition dup_entry : Type := GoldenQuestion * GoldenQuestion * Q.

(** An embedding vector, and the embedding back end: the outcome of the
    [n]-th call [client.embeddings.create(input=text, model=model)] of one
    deduplication run. *)
Definition vec := list Q.
Definition embedding_client := nat -> str -> str -> result vec.

Section Deduplicator.

(** Python's Unicode tables. *)
Variable py_lower : str -> str.
Variable py_isalnum : char -> bool.

(** The square root of [np.linalg.norm]. *)
Variable np_sqrt : Q -> Q.

(** The regex class [\w]. *)
Definition is_word (c : char) : bool := py_isalnum c || (c =? 95)%N.

(** [_normalize_text] *)
Definition _normalize_text (text : str) : str :=
  let text := py_lower text in
  let text := filter (fun c => is_word c || isspace c) text in
  join (u " ") (split text).

(** State of the exact-match loop. *)
Record exact_state := {
  seen_normalized : gmap str GoldenQuestion;
  deduplicated : list GoldenQuestion;
  duplicates : list dup_entry }.

Definition exact_init : exact_state :=
  {| seen_normalized := ∅; deduplicated := []; duplicates := [] |}.

(** Body of [for question in questions] (stage 1). *)
Definition exact_step (st : exact_state) (q : GoldenQuestion) : exact_state :=
  let normalized := _normalize_text (question q) in
  match seen_normalized st !! normalized with
  | None =>
      {| seen_normalized := <[normalized := q]> (seen_normalized st);
         deduplicated := deduplicated st ++ [q];
         duplicates := duplicates st |}
  | Some original =>
      {| seen_normalized := seen_normalized st;
         deduplicated := deduplicated st;
         duplicates := duplicates st ++ [(q, original, 1%Q)] |}
  end.

(** Stage 1 of [deduplicate_questions]. *)
Definition exact_stage (questions : list GoldenQuestion) : exact_state :=
  foldl exact_step exact_init questions.

(** *** Stage 2: embedding similarity *)

(** [np.dot] on two rows of the embedding matrix. *)
Definition dot (vec1 vec2 : vec) : Q :=
  foldr Qplus 0%Q (zip_with Qmult vec1 vec2).

(** [np.linalg.norm] *)
Definition norm (v : vec) : Q := np_sqrt (dot v v).

(** [_compute_cosine_similarity] *)
Definition _compute_cosine_similarity (vec1 vec2 : vec) : Q :=
  let dot_product := dot vec1 vec2 in
  let magnitude1 := norm vec1 in
  let magnitude2 := norm vec2 in
  if Qeq_bool magnitude1 0 || Qeq_bool magnitude2 0 then 0%Q
  else (dot_product / (magnitude1 * magnitude2))%Q.

(** [np.array(rows)]: a matrix needs rows of one length; numpy refuses a
    ragged nesting with a [ValueError]. *)
Definition np_array (rows : list vec) : result (list vec) :=
  match rows with
  | [] => Return []
  | r :: _ =>
      if forallb (fun r' => Nat.eqb (length r') (length r)) rows
      then Return rows
      else Raise (ValueError (u "inhomogeneous shape"))
  end.

(** The loop of [_generate_embeddings]: call [n] embeds the [n]-th text. *)
Fixpoint embed_all (client : embedding_client) (model : str) (n : nat)
    (texts : list str) : result (list vec) :=
  match texts with
  | [] => Return []
  | text :: texts' =>
      match client n text model with
      | Raise e => Raise e
      | Return embedding =>
          match embed_all client model (S n) texts' with
          | Raise e => Raise e
          | Return embeddings => Return (embedding :: embeddings)
          end
      end
  end.

(** [_generate_embeddings]: every exception leaves as a [RuntimeError]. *)
Definition _generate_embeddings (texts : list str) (client : embedding_client)
    (model : str) : result (list vec) :=
  if texts is [] then Return []
  else
    let attempt :=
      match embed_all client model 0 texts with
      | Raise e => Raise e
      | Return embeddings => np_array embeddings
      end in
    match attempt with
    | Return a => Return a
    | Raise e =>
        Raise (RuntimeError (u "Embedding generation failed: " ++ exn_str e))
    end.

(** State of the pairwise sweep. *)
Record sweep_state := {
  semantic_duplicates : list dup_entry;
  indices_to_remove : gset nat }.

Definition sweep_init : sweep_state :=
  {| semantic_duplicates := []; indices_to_remove := ∅ |}.

(** Body of [for j in range(i + 1, len(deduplicated))]. *)
Definition inner_step (similarity_threshold : Q) (embeddings : list vec)
    (deduplicated : list GoldenQuestion) (i : nat)
    (st : sweep_state) (j : nat) : sweep_state :=
  if decide (j ∈ indices_to_remove st) then st
  else
    let similarity :=
      _compute_cosine_similarity (embeddings !!! i) (embeddings !!! j) in
    if Qle_bool similarity_threshold similarity
    then {| semantic_duplicates :=
              semantic_duplicates st
              ++ [(deduplicated !!! j, deduplicated !!! i, similarity)];
            indices_to_remove := {[j]} ∪ indices_to_remove st |}
    else st.

(** Body of [for i in range(len(deduplicated))]. *)
Definition outer_step (similarity_threshold : Q) (embeddings : list vec)
    (deduplicated : list GoldenQuestion)
    (st : sweep_state) (i : nat) : sweep_state :=
  if decide (i ∈ indices_to_remove st) then st
  else
    foldl (inner_step similarity_threshold embeddings deduplicated i) st
      (seq (S i) (length deduplicated - S i)).

(** The two nested loops of stage 2. *)
Definition sweep (similarity_threshold : Q) (embeddings : list vec)
    (deduplicated : list GoldenQuestion) : sweep_state :=
  foldl (outer_step similarity_threshold embeddings deduplicated) sweep_init
    (seq 0 (length deduplicated)).

(** [[q for idx, q in enumerate(deduplicated) if idx not in indices]] *)
Definition remove_indices (indices : gset nat)
    (deduplicated : list GoldenQuestion) : list GoldenQuestion :=
  snd <$> filter (fun p => p.1 ∉ indices) (imap pair deduplicated).

(** The body of the [try] block of stage 2. *)
Definition semantic_stage (similarity_threshold : Q)
    (client : embedding_client) (model : str)
    (deduplicated : list GoldenQuestion)
  : result (list GoldenQuestion * list dup_entry) :=
  let texts := question <$> deduplicated in
  match _generate_embeddings texts client model with
  | Raise e => Raise e
  | Return embeddings =>
      let st := sweep similarity_threshold embeddings deduplicated in
      Return (remove_indices (indices_to_remove st) deduplicated,
              semantic_duplicates st)
  end.

(** *** The transparency log *)

(** [round(x, 4)], half to even. *)
Definition round4 (x : Q) : Q :=
  let y := (x * 10000)%Q in
  let f := Qfloor y in
  let r := (y - inject_Z f)%Q in
  let n :=
    match (r ?= 1 # 2)%Q with
    | Lt => f
    | Gt => f + 1
    | Eq => if Z.even f then f else f + 1
    end in
  (inject_Z n / 10000)%Q.

Definition summary (q : GoldenQuestion) : QuestionSummary :=
  {| qs_text := question q;
     qs_original_text := original_question q;
     qs_conversation_id := conversation_id q;
     qs_has_retrieval := has_retrieval q |}.

(** The record written for one entry. *)
Definition duplicate_record (d : dup_entry) : DuplicateRecord :=
  let '(duplicate, original, similarity_score) := d in
  {| dr_dropped_question := summary duplicate;
     dr_kept_original := summary original;
     dr_similarity_score := round4 similarity_score;
     dr_match_type :=
       if Qeq_bool similarity_score 1 then u "exact_match"
       else u "semantic_similarity";
     dr_normalized_form := _normalize_text (question duplicate);
     dr_drop_reason := u "Duplicate of earlier question" |}.

(** [save_dropped_duplicates] *)
Definition save_dropped_duplicates (duplicates : list dup_entry)
    (output_file : str) (fs : filesystem) : filesystem :=
  write_file output_file
    (DroppedDuplicatesFile (duplicate_record <$> duplicates)) fs.

(** *** [deduplicate_questions] *)

Definition deduplicate_questions
    (questions : list GoldenQuestion)
    (output_dropped_file : option str)
    (use_semantic : bool)
    (similarity_threshold : Q)
    (embedding_client_ : option embedding_client)
    (embedding_model : option str)
    (fs : filesystem) : result (list GoldenQuestion) * filesystem :=
  if negb (Qle_bool 0 similarity_threshold && Qle_bool similarity_threshold 1)
  then (Raise (ValueError
                 (u "similarity_threshold must be between 0.0 and 1.0")), fs)
  else
  match use_semantic, embedding_client_, embedding_model with
  | true, None, _ | true, _, None =>
      (Raise (ValueError (u "embedding_client and embedding_model are required when use_semantic=True")), fs)
  | _, _, _ =>
  if questions is [] then (Return [], fs)
  else
    let st := exact_stage questions in
    let stage2 : result (list GoldenQuestion * list dup_entry) :=
      match use_semantic, embedding_client_, embedding_model with
      | true, Some client, Some model =>
          if decide (1 < length (deduplicated st))%nat
          then
            match semantic_stage similarity_threshold client model
                    (deduplicated st) with
            | Return (kept, semantic_dups) =>
                Return (kept, duplicates st ++ semantic_dups)
            | Raise (RuntimeError _) =>
                Return (deduplicated st, duplicates st)
            | Raise e => Raise e
            end
          else Return (deduplicated st, duplicates st)
      | _, _, _ => Return (deduplicated st, duplicates st)
      end in
    match stage2 with
    | Raise e => (Raise e, fs)
    | Return (deduplicated, duplicates) =>
        let fs :=
          match output_dropped_file with
          | Some path =>
              if (if path is [] then false else true)
                 && (if duplicates is [] then false else true)
              then save_dropped_duplicates duplicates path fs
              else fs
          | None => fs
          end in
        (Return deduplicated, fs)
    end
  end.

End Deduplicator.

End Dedup.

(** ** Python equality and membership on JSON values *)

(** [a == b]. [True == 1] and [False == 0] hold in Python; two dicts are
    equal when they have the same keys with equal values. *)
Fixpoint py_eq (a b : json) {struct a} : bool :=
  match a, b with
  | JNull, JNull => true
  | JBool x, JBool y => Bool.eqb x y
  | JBool x, JInt z | JInt z, JBool x => z =? (if x then 1 else 0)
  | JInt x, JInt y => x =? y
  | JStr s, JStr t => bool_decide (s = t)
  | JArr l, JArr m =>
      (fix go (l m : list json) : bool :=
         match l, m with
         | [], [] => true
         | x :: l', y :: m' => py_eq x y && go l' m'
         | _, _ => false
         end) l m
  | JObj d, JObj e =>
      Nat.eqb (length d) (length e)
      && (fix go (d : list (str * json)) : bool :=
            match d with
            | [] => true
            | (k, v) :: d' =>
                match dict_get k e with
                | Some w => py_eq v w
                | None => false
                end && go d'
            end) d
  | _, _ => false
  end.

(** [x in l] for a list [l]. *)
Definition py_in (x : json) (l : list json) : bool :=
  existsb (fun e => py_eq x e) l.

(** Only scalars can be dictionary keys. *)
Definition hashable (v : json) : bool :=
  match v with
  | JArr _ | JObj _ => false
  | _ => true
  end.

(** [s1 in s2] for strings. *)
Fixpoint str_prefix (p s : str) : bool :=
  match p, s with
  | [], _ => true
  | c :: p', d :: s' => (c =? d)%N && str_prefix p' s'
  | _ :: _, [] => false
  end.

Fixpoint str_contains (p s : str) : bool :=
  str_prefix p s
  || match s with
     | [] => false
     | _ :: s' => str_contains p s'
     end.

(** [s.endswith(p)] *)
Definition endswith (s p : str) : bool := str_prefix (reverse p) (reverse s).

(** [key in v] for the value [v] that [json.loads] returned: a key test on
    an object, membership on an array, a substring test on a string, and a
    [TypeError] otherwise. *)
Definition json_contains (key : str) (v : json) : result bool :=
  match v with
  | JObj d => Return (bool_decide (is_Some (dict_get key d)))
  | JArr l => Return (py_in (JStr key) l)
  | JStr s => Return (str_contains key s)
  | _ => Raise (TypeError (u "argument is not iterable"))
  end.

(** [v[key]] with a string key. *)
Definition json_index (key : str) (v : json) : result json :=
  match v with
  | JObj d =>
      match dict_get key d with
      | Some w => Return w
      | None => Raise (OtherError (u "KeyError"))
      end
  | _ => Raise (TypeError (u "indices must be integers"))
  end.

(** ** Extractor: filters (extractor.py) *)

Module Extractor.

Definition Arsrapport : str := 197%N :: u "rsrapport".
Definition Arsrapprt : str := 197%N :: u "rsrapprt".

Definition KNOWN_DOCUMENT_TYPES : list str :=
  [ u "Evaluering"; u "Instruks"; u "Melding til Stortinget";
    u "Proposisjon til Stortinget"; u "Statusrapport"; u "Strategi/plan";
    u "Tildelingsbrev"; Arsrapport ].

Definition DOCUMENT_TYPE_CORRECTIONS : gmap str str :=
  {[ Arsrapprt := Arsrapport ]}.

(** [filters[k]] and [filters[k] = v] on the insertion-ordered dictionary. *)
Fixpoint filters_get (k : json) (f : Filters) : option (list json) :=
  match f with
  | [] => None
  | (k', v) :: f' => if py_eq k k' then Some v else filters_get k f'
  end.

Fixpoint filters_set (k : json) (v : list json) (f : Filters) : Filters :=
  match f with
  | [] => [(k, v)]
  | (k', v') :: f' =>
      if py_eq k k' then (k', v) :: f' else (k', v') :: filters_set k v f'
  end.

(** The warning logged for a document type outside the known ones. *)
Definition unknown_type_warning (corrected : str) : str :=
  u "Unknown document type: '" ++ corrected
  ++ u "' (preserving for analysis)".

(** State of the loops of [extract_filters]: the dictionary and the
    warnings logged so far. *)
Record filter_state := {
  fs_filters : Filters;
  fs_warnings : list str }.

(** Body of [for option in selected_options] for the field ["type"]. *)
Definition type_option_step (field_name : json) (st : filter_state)
    (option : json) : filter_state :=
  match option with
  | JStr o =>
      let corrected := default o (DOCUMENT_TYPE_CORRECTIONS !! o) in
      let current := default [] (filters_get field_name (fs_filters st)) in
      let filters :=
        if py_in (JStr corrected) current then fs_filters st
        else filters_set field_name (current ++ [JStr corrected])
               (fs_filters st) in
      let warnings :=
        if bool_decide (corrected ∈ KNOWN_DOCUMENT_TYPES) then fs_warnings st
        else fs_warnings st ++ [unknown_type_warning corrected] in
      {| fs_filters := filters; fs_warnings := warnings |}
  | _ => st
  end.

(** Body of [for option in selected_options] for any other field. *)
Definition other_option_step (field_name : json) (st : filter_state)
    (option : json) : filter_state :=
  let current := default [] (filters_get field_name (fs_filters st)) in
  if py_in option current then st
  else {| fs_filters :=
            filters_set field_name (current ++ [option]) (fs_filters st);
          fs_warnings := fs_warnings st |}.

(** Body of [for field in fields]. *)
Definition field_step (st : result filter_state) (field : json)
  : result filter_state :=
  match st with
  | Raise e => Raise e
  | Return st =>
      match field with
      | JObj field =>
          let field_name := default JNull (dict_get (u "field") field) in
          let selected_options :=
            default (JArr []) (dict_get (u "selected-options") field) in
          match selected_options with
          | JArr (o :: os) =>
              if truthy field_name then
                if hashable field_name then
                  let st :=
                    if filters_get field_name (fs_filters st) is None
                    then {| fs_filters :=
                              filters_set field_name [] (fs_filters st);
                            fs_warnings := fs_warnings st |}
                    else st in
                  if py_eq field_name (JStr (u "type"))
                  then Return (foldl (type_option_step field_name) st (o :: os))
                  else Return (foldl (other_option_step field_name) st (o :: os))
                else Raise (TypeError (u "unhashable type"))
              else Return st
          | _ => Return st
          end
      | _ => Return st
      end
  end.

(** Body of [for msg in messages]. *)
Definition message_step (st : result filter_state) (msg : Message)
  : result filter_state :=
  match filterValue msg with
  | Some (JObj (kv :: kvs)) =>
      match default (JArr []) (dict_get (u "fields") (kv :: kvs)) with
      | JArr fields => foldl field_step st fields
      | _ => st
      end
  | _ => st
  end.

(** [extract_filters]: the dictionary, and the warnings it logged. *)
Definition extract_filters (messages : list Message)
  : result (Filters * list str) :=
  match foldl message_step
          (Return {| fs_filters := []; fs_warnings := [] |}) messages with
  | Raise e => Raise e
  | Return st => Return (fs_filters st, fs_warnings st)
  end.

End Extractor.

(** ** The chat back end and the world it acts on *)

(** What a chat call is asked.  The prompt texts are fixed functions of
    these arguments (and of the constant system prompts), so a back end
    that may answer in any way to a prompt may answer in any way to them. *)
Inductive chat_request : Type :=
  | ReformulationRequest (model : str) (question : str)
      (previous_messages : list Message)
  | UsageModeRequest (model : str) (question : str).

(** [response.choices[k]] *)
Record Choice := {
  finish_reason : option str;
  content : option str }.

Record ChatResponse := { choices : list Choice }.

(** The back end: the outcome of the [n]-th call of the run. *)
Definition chat_client := nat -> chat_request -> result ChatResponse.

(** The world: how many chat calls were made, the durations passed to
    [time.sleep] (in seconds, oldest first), and the files. *)
Record world := {
  chat_calls : nat;
  sleeps : list Z;
  files : filesystem }.

Definition world_init (fs : filesystem) : world :=
  {| chat_calls := 0; sleeps := []; files := fs |}.

(** Computations that may raise and that act on the world. *)
Definition M (A : Type) : Type := world -> result A * world.

Definition ret {A} (a : A) : M A := fun w => (Return a, w).
Definition raise {A} (e : exn) : M A := fun w => (Raise e, w).
Definition bind {A B} (m : M A) (k : A -> M B) : M B :=
  fun w =>
    match m w with
    | (Return a, w') => k a w'
    | (Raise e, w') => (Raise e, w')
    end.

(** [try: m except Exception as e: h e] *)
Definition try_except {A} (m : M A) (h : exn -> M A) : M A :=
  fun w =>
    match m w with
    | (Return a, w') => (Return a, w')
    | (Raise e, w') => h e w'
    end.

(** [try: m except Exception as e: ...], with the outcome as a value. *)
Definition catch {A} (m : M A) : M (result A) :=
  fun w => let '(r, w') := m w in (Return r, w').

Definition lift {A} (r : result A) : M A := fun w => (r, w).

Notation "x <- m ;; k" := (bind m (fun x => k))
  (at level 100, m at next level, right associativity).
Notation "m ;;; k" := (bind m (fun _ => k))
  (at level 100, right associativity).

(** [client.chat.completions.create(...)] *)
Definition chat (client : chat_client) (req : chat_request) : M ChatResponse :=
  fun w =>
    (client (chat_calls w) req,
     {| chat_calls := S (chat_calls w); sleeps := sleeps w;
        files := files w |}).

(** [time.sleep(seconds)] *)
Definition sleep (seconds : Z) : M unit :=
  fun w =>
    (Return tt,
     {| chat_calls := chat_calls w; sleeps := sleeps w ++ [seconds];
        files := files w |}).

(** [open(path, "w")] and the writes that follow. *)
Definition write (path : str) (content : file) : M unit :=
  fun w =>
    (Return tt,
     {| chat_calls := chat_calls w; sleeps := sleeps w;
        files := write_file path content (files w) |}).

(** [response.choices[0]] *)
Definition first_choice (response : ChatResponse) : result Choice :=
  match choices response with
  | c :: _ => Return c
  | [] => Raise (OtherError (u "list index out of range"))
  end.

(** ** Reformulator (reformulator_llm.py) *)

Module Reformulator.

Section Reformulator.

(** [json.loads]; [None] stands for [json.JSONDecodeError]. *)
Variable json_loads : str -> option json.
(** [str(v)] for a parsed value, as an f-string prints it. *)
Variable py_repr : json -> str.

(** The statements of the [try] block after the chat call. *)
Definition parse_reformulation (response : ChatResponse) : result str :=
  match first_choice response with
  | Raise e => Raise e
  | Return choice =>
      if bool_decide (finish_reason choice = Some (u "length"))
      then Raise (ValueError (u "Response truncated due to token limit. The question or context may be too long."))
      else
        match content choice with
        | None => Raise (ValueError (u "Empty or invalid response from LLM"))
        | Some content =>
            if strip content is [] then
              Raise (ValueError (u "Empty or invalid response from LLM"))
            else
              match json_loads (strip content) with
              | None =>
                  if decide (250 <= length content)%nat
                  then Raise (ValueError
                         (u "Incomplete JSON response (possibly truncated): "
                          ++ content))
                  else Raise (ValueError
                         (u "Invalid JSON response: " ++ content))
              | Some result =>
                  match json_contains (u "reformulated") result with
                  | Raise e => Raise e
                  | Return false =>
                      Raise (ValueError
                        (u "Missing 'reformulated' field in response: "
                         ++ py_repr result))
                  | Return true =>
                      match json_index (u "reformulated") result with
                      | Raise e => Raise e
                      | Return (JStr r) =>
                          if strip r is [] then
                            Raise (ValueError
                              (u "Empty reformulated question in response"))
                          else Return (strip r)
                      | Return _ =>
                          Raise (OtherError (u "object has no attribute 'strip'"))
                      end
                  end
              end
        end
  end.

(** One pass through the [try] block. *)
Definition attempt_once (client : chat_client) (model : str) (question : str)
    (previous_messages : list Message) : M str :=
  response <- chat client
                (ReformulationRequest model question previous_messages) ;;
  lift (parse_reformulation response).

Definition failed_after (max_retries : Z) : str :=
  u "Failed to reformulate after " ++ of_Z (max_retries + 1) ++ u " attempts".

(** The handlers of the [try] block: [except APIError] (which also takes
    [RateLimitError], its subclass) and [except Exception]. *)
Definition handle_failure (max_retries attempt : Z) (e : exn)
    (retry : M str) : M str :=
  match e with
  | APIError _ | RateLimitError _ =>
      if attempt =? max_retries
      then raise (ValueError (failed_after max_retries))
      else sleep (2 ^ (attempt + 1)) ;;; retry
  | _ =>
      if attempt =? max_retries
      then raise (ValueError (failed_after max_retries ++ u ": " ++ exn_str e))
      else sleep (2 ^ (attempt + 1)) ;;; retry
  end.

(** [for attempt in range(max_retries + 1)], with [remaining] iterations
    left, the next one being number [attempt]. *)
Fixpoint attempts (client : chat_client) (model : str) (question : str)
    (previous_messages : list Message) (max_retries : Z)
    (remaining : nat) (attempt : Z) : M str :=
  match remaining with
  | O => raise (ValueError (failed_after max_retries))
  | S remaining' =>
      try_except (attempt_once client model question previous_messages)
        (fun e =>
           handle_failure max_retries attempt e
             (attempts client model question previous_messages max_retries
                remaining' (attempt + 1)))
  end.

(** [reformulate_question_llm] *)
Definition reformulate_question_llm (question : str)
    (previous_messages : list Message) (client : chat_client) (model : str)
    (max_retries : Z) : M str :=
  attempts client model question previous_messages max_retries
    (Z.to_nat (max_retries + 1)) 0.

End Reformulator.

End Reformulator.

(** [for x in l: st = f st x], in the world monad. *)
Fixpoint foldM {A B : Type} (f : A -> B -> M A) (a : A) (l : list B) : M A :=
  match l with
  | [] => ret a
  | x :: l' => a' <- f a x ;; foldM f a' l'
  end.

(** ** Extractor: questions (extractor.py) *)

Module Extraction.

Import Extractor.

(** [generate_message_id] *)
Definition generate_message_id (conversation_id : str)
    (user_message_index : nat) : str :=
  conversation_id ++ u "_" ++ of_nat user_message_index.

(** [_check_has_retrieval]: the first assistant message after position
    [user_msg_index] decides. *)
Definition _check_has_retrieval (messages : list Message)
    (user_msg_index : nat) : bool :=
  match filter (fun m => role m = Some (u "assistant"))
          (drop (S user_msg_index) messages) with
  | m :: _ => bool_decide (0 < length (chunks m))%nat
  | [] => false
  end.

(** [l[-n:]] for [n > 0]. *)
Definition last_n {A} (n : nat) (l : list A) : list A :=
  drop (length l - n) l.

(** State of the extraction loop. *)
Record extract_state := {
  questions : list GoldenQuestion;
  failed_reformulations : list FailedReformulation;
  user_message_index : nat }.

Section Extraction.

Variable json_loads : str -> option json.
Variable py_repr : json -> str.

(** The placeholder usage mode given to every extracted question. *)
Definition placeholder_usage_mode : UsageMode :=
  {| document_scope := JStr (u "single_document");
     operation_type := JStr (u "simple_qa");
     output_complexity := JStr (u "prose") |}.

(** The [GoldenQuestion] built at the end of the loop body. *)
Definition make_question (conv : Conversation) (msg : Message)
    (i : nat) (user_message_index : nat) (standalone_q : str)
    (context_msgs : list (option str * str))
    (conversation_filters : Filters) : GoldenQuestion :=
  let original_q := strip (text msg) in
  {| id := generate_message_id (conv_id conv) user_message_index;
     question := standalone_q;
     original_question := strip (text msg);
     conversation_id := conv_id conv;
     context_messages := context_msgs;
     has_retrieval := _check_has_retrieval (messages conv) i;
     usage_mode := placeholder_usage_mode;
     subject_topics := [];
     metadata := {| meta_topic := topic conv; meta_user_id := userId conv;
                    meta_created := msg_created msg |};
     question_changed := bool_decide (standalone_q ≠ original_q);
     filters := if conversation_filters is [] then None
                else Some conversation_filters |}.

(** The record appended when reformulation raised [e]. *)
Definition make_failure (conv : Conversation) (msg : Message)
    (user_message_index : nat) (e : exn) : FailedReformulation :=
  {| fr_id := generate_message_id (conv_id conv) user_message_index;
     fr_conversation_id := conv_id conv;
     fr_original_question := strip (text msg);
     fr_failure_reason := exn_str e;
     fr_conversation_topic := topic conv;
     fr_user_id := userId conv;
     fr_created := msg_created msg |}.

(** Body of [for i, msg in enumerate(conv.messages)]. *)
Definition extract_step (conv : Conversation)
    (llm_client : option chat_client) (model : str)
    (conversation_filters : Filters)
    (st : extract_state) (im : nat * Message) : M extract_state :=
  let '(i, msg) := im in
  if negb (bool_decide (role msg = Some (u "user"))) then ret st
  else if (if text msg is [] then true else false)
          || (if strip (text msg) is [] then true else false) then ret st
  else
    let original_q := strip (text msg) in
    let emit (standalone_q : str) (context_msgs : list (option str * str)) :=
      ret {| questions :=
               questions st
               ++ [make_question conv msg i (user_message_index st)
                     standalone_q context_msgs conversation_filters];
             failed_reformulations := failed_reformulations st;
             user_message_index := S (user_message_index st) |} in
    match llm_client with
    | Some client =>
        if decide (0 < i)%nat then
          let previous_messages := take i (messages conv) in
          outcome <-
            catch (Reformulator.reformulate_question_llm json_loads py_repr
                     (text msg) previous_messages client model 0) ;;
          match outcome with
          | Raise e =>
              ret {| questions := questions st;
                     failed_reformulations :=
                       failed_reformulations st
                       ++ [make_failure conv msg (user_message_index st) e];
                     user_message_index := S (user_message_index st) |}
          | Return standalone_q =>
              let context_msgs :=
                (fun m => (role m, text m))
                <$> filter
                      (fun m => strip (text m) ≠ []
                                ∧ role m ≠ Some (u "system"))
                      (last_n 3 previous_messages) in
              emit standalone_q context_msgs
          end
        else emit original_q []
    | None => emit original_q []
    end.

(** [extract_golden_questions] *)
Definition extract_golden_questions (conv : Conversation)
    (llm_client : option chat_client) (model : str)
  : M (list GoldenQuestion * list FailedReformulation) :=
  cf <- lift (extract_filters (messages conv)) ;;
  st <- foldM (extract_step conv llm_client model cf.1)
          {| questions := []; failed_reformulations := [];
             user_message_index := 0 |}
          (imap pair (messages conv)) ;;
  ret (questions st, failed_reformulations st).

(** [_save_failed_reformulations] *)
Definition _save_failed_reformulations
    (failed_reformulations : list FailedReformulation) (output_file : str)
  : M unit :=
  write output_file (FailedReformulationsFile failed_reformulations).

End Extraction.

End Extraction.

(** ** Usage-mode categorizer (categorizer_llm.py) *)

Module Categorizer.

(** [s.rstrip(",")] *)
Fixpoint lstrip_comma (s : str) : str :=
  match s with
  | c :: s' => if (c =? 44)%N then lstrip_comma s' else s
  | [] => []
  end.

Definition rstrip_comma (s : str) : str := reverse (lstrip_comma (reverse s)).

(** [s[s.find("{"):]] when [s.find("{") != -1]. *)
Fixpoint from_first_brace (s : str) : option str :=
  match s with
  | [] => None
  | c :: s' => if (c =? 123)%N then Some s else from_first_brace s'
  end.

(** The attempt to close a truncated completion. *)
Definition repair (content : str) : str :=
  if negb (endswith content (u "}")) then
    match from_first_brace content with
    | Some content_part =>
        if str_contains (34%N :: u "output_complexity" ++ [34%N]) content_part
        then
          if negb (endswith (rstrip content_part) (u "}"))
          then rstrip_comma (rstrip content) ++ u "}"
          else content
        else content
    | None => content
    end
  else content.

Definition required_fields : list str :=
  [u "document_scope"; u "operation_type"; u "output_complexity"].

(** [all(field in result for field in required_fields)]; the generator
    stops at the first field that is absent. *)
Fixpoint all_fields_in (fields : list str) (parsed : json) : result bool :=
  match fields with
  | [] => Return true
  | f :: fields' =>
      match json_contains f parsed with
      | Raise e => Raise e
      | Return false => Return false
      | Return true => all_fields_in fields' parsed
      end
  end.

(** The local variable [content] of [categorize_question_llm]: [None]
    while nothing has been assigned to it, and its value otherwise
    (Python's [None] is [Some None]). *)
Definition content_var : Type := option (option str).

(** The error of reading a local variable that is not bound. *)
Definition UnboundLocalError (name : str) : exn :=
  OtherError (u "cannot access local variable '" ++ name
              ++ u "' where it is not associated with a value").

Section Categorizer.

Variable json_loads : str -> option json.
Variable py_repr : json -> str.
(** The text of a [json.JSONDecodeError] for an input. *)
Variable json_error : str -> str.

(** The statements of the [try] block after the chat call. *)
Definition parse_usage_mode (response : ChatResponse) : result UsageMode :=
  match first_choice response with
  | Raise e => Raise e
  | Return choice =>
      match content choice with
      | None | Some [] => Raise (ValueError (u "Empty response from LLM"))
      | Some content =>
          let content := repair (strip content) in
          match json_loads content with
          | None => Raise (JSONDecodeError (json_error content))
          | Some result =>
              match all_fields_in required_fields result with
              | Raise e => Raise e
              | Return false =>
                  Raise (ValueError
                    (u "Missing required fields in response: "
                     ++ py_repr result))
              | Return true =>
                  match json_index (u "document_scope") result,
                        json_index (u "operation_type") result,
                        json_index (u "output_complexity") result with
                  | Return ds, Return ot, Return oc =>
                      Return {| document_scope := ds; operation_type := ot;
                                output_complexity := oc |}
                  | Raise e, _, _ | _, Raise e, _ | _, _, Raise e => Raise e
                  end
              end
          end
      end
  end.

(** [content] when the [try] block is left.  The chat call and
    [response.choices[0]] come before its first assignment; afterwards it
    holds the completion, stripped and repaired once it is known to be
    non-empty. *)
Definition content_after (response : ChatResponse) (before : content_var)
  : content_var :=
  match first_choice response with
  | Raise _ => before
  | Return choice =>
      match content choice with
      | None => Some None
      | Some [] => Some (Some [])
      | Some content => Some (Some (repair (strip content)))
      end
  end.

(** One pass through the [try] block: its outcome, and [content] after
    it. *)
Definition attempt_once (client : chat_client) (model : str)
    (q : GoldenQuestion) (content_before : content_var)
  : M (result UsageMode * content_var) :=
  outcome <- catch (chat client (UsageModeRequest model (question q))) ;;
  match outcome with
  | Raise e => ret (Raise e, content_before)
  | Return response =>
      ret (parse_usage_mode response, content_after response content_before)
  end.

(** The three handlers.  [retry] is the rest of the loop.  The warning of
    the first handler reads [content], which is still unbound when the
    chat call itself raised the error and no earlier pass got as far as
    the assignment. *)
Definition handle_failure (max_retries attempt : Z) (content : content_var)
    (e : exn) (retry : M UsageMode) : M UsageMode :=
  match e with
  | JSONDecodeError _ =>
      match content with
      | None => raise (UnboundLocalError (u "content"))
      | Some _ =>
          if attempt =? max_retries
          then raise (ValueError
                        (u "Failed to get valid JSON after "
                         ++ of_Z (max_retries + 1) ++ u " attempts"))
          else retry
      end
  | RateLimitError _ =>
      let wait_time := 2 ^ (attempt + 1) in
      if attempt <? max_retries
      then sleep wait_time ;;; retry
      else raise e
  | _ =>
      if attempt =? max_retries - 1
      then raise e
      else retry
  end.

(** [for attempt in range(max_retries + 1)] and the statement after it;
    [content] is what the earlier passes left in the local variable. *)
Fixpoint attempts (client : chat_client) (model : str) (q : GoldenQuestion)
    (max_retries : Z) (remaining : nat) (attempt : Z) (content : content_var)
  : M UsageMode :=
  match remaining with
  | O => raise (ValueError
                  (u "Failed to categorize after " ++ of_Z max_retries
                   ++ u " attempts"))
  | S remaining' =>
      pass <- attempt_once client model q content ;;
      match pass.1 with
      | Return mode => ret mode
      | Raise e =>
          handle_failure max_retries attempt pass.2 e
            (attempts client model q max_retries remaining' (attempt + 1)
               pass.2)
      end
  end.

(** [categorize_question_llm] *)
Definition categorize_question_llm (q : GoldenQuestion)
    (client : chat_client) (model : str) (max_retries : Z) : M UsageMode :=
  attempts client model q max_retries (Z.to_nat (max_retries + 1)) 0 None.

(** [question.usage_mode = mode] *)
Definition set_usage_mode (q : GoldenQuestion) (mode : UsageMode)
  : GoldenQuestion :=
  {| id := id q; question := question q;
     original_question := original_question q;
     conversation_id := conversation_id q;
     context_messages := context_messages q;
     has_retrieval := has_retrieval q; usage_mode := mode;
     subject_topics := subject_topics q; metadata := metadata q;
     question_changed := question_changed q; filters := filters q |}.

(** Body of the loop of [categorize_questions_llm]. *)
Definition categorize_step (client : chat_client) (model : str)
    (st : list GoldenQuestion * list GoldenQuestion) (q : GoldenQuestion)
  : M (list GoldenQuestion * list GoldenQuestion) :=
  outcome <- catch (categorize_question_llm q client model 0) ;;
  match outcome with
  | Return mode => ret (st.1 ++ [set_usage_mode q mode], st.2)
  | Raise _ => ret (st.1, st.2 ++ [q])
  end.

(** [categorize_questions_llm]: (categorized, failed). *)
Definition categorize_questions_llm (questions : list GoldenQuestion)
    (client : chat_client) (model : str)
  : M (list GoldenQuestion * list GoldenQuestion) :=
  foldM (categorize_step client model) ([], []) questions.

End Categorizer.

End Categorizer.

(** ** Conversation filter (filter.py) *)

Module Filter.

(** [msg.text and msg.text.strip()] *)
Definition has_text (msg : Message) : bool :=
  (if text msg is [] then false else true)
  && (if strip (text msg) is [] then false else true).

(** The loop of [should_process_conversation]. *)
Fixpoint has_user_message (msgs : list Message) : bool :=
  match msgs with
  | [] => false
  | msg :: rest =>
      if bool_decide (role msg = Some (u "system")) then has_user_message rest
      else if bool_decide (role msg = None) then has_user_message rest
      else if bool_decide (role msg = Some (u "user")) && has_text msg then true
      else has_user_message rest
  end.

(** [should_process_conversation] *)
Definition should_process_conversation (conv : Conversation) : bool :=
  has_user_message (messages conv).

Definition Ny_trad : str := u "Ny tr" ++ [229%N] ++ u "d".

(** [get_drop_reason] *)
Definition get_drop_reason (conv : Conversation) : str :=
  let user_messages :=
    filter (fun m => role m = Some (u "user") ∧ has_text m = true)
      (messages conv) in
  if user_messages is [] then
    if bool_decide (topic conv = Ny_trad)
    then Ny_trad ++ u " with no user messages"
    else u "No user messages"
  else
    let non_system :=
      filter (fun m => role m ≠ Some (u "system")) (messages conv) in
    if non_system is [] then u "Only system messages"
    else
      let non_empty := filter (fun m => has_text m = true) (messages conv) in
      if non_empty is [] then u "All messages empty"
      else u "Other (see conversation details)".

(** The record written for one dropped conversation. *)
Definition dropped_record (conv : Conversation) (reason : str)
  : DroppedConversation :=
  {| dc_conversation_id := conv_id conv;
     dc_topic := topic conv;
     dc_user_id := userId conv;
     dc_created := conv_created conv;
     dc_message_count := length (messages conv);
     dc_drop_reason := reason;
     dc_messages :=
       (fun m =>
          {| ms_id := msg_id m; ms_role := role m;
             ms_text := if decide (200 < length (text m))%nat
                        then take 200 (text m) ++ u "..."
                        else text m;
             ms_created := msg_created m |})
       <$> take 5 (messages conv) |}.

(** [save_dropped_conversations] *)
Definition save_dropped_conversations (dropped : list Conversation)
    (reasons : list str) (output_file : str) : M unit :=
  write output_file
    (DroppedConversationsFile (zip_with dropped_record dropped reasons)).

(** [filter_conversations] *)
Definition filter_conversations (conversations : list Conversation)
    (output_dropped_file : option str) : M (list Conversation) :=
  let filtered := filter (fun c => should_process_conversation c = true)
                    conversations in
  let dropped := filter (fun c => should_process_conversation c ≠ true)
                   conversations in
  let dropped_reasons := get_drop_reason <$> dropped in
  match output_dropped_file with
  | Some (c :: path) =>
      save_dropped_conversations dropped dropped_reasons (c :: path) ;;;
      ret filtered
  | _ => ret filtered
  end.

End Filter.

(** ** Orchestrator (main.py) *)

Module Main.

(** [_save_failed_categorizations] *)
Definition _save_failed_categorizations
    (failed_questions : list GoldenQuestion) (output_file : str) : M unit :=
  write output_file (QuestionsFile failed_questions).

(** [save_golden_questions] *)
Definition save_golden_questions (questions : list GoldenQuestion)
    (output_file : str) : M unit :=
  write output_file (QuestionsFile questions).

Section Pipeline.

Variable py_lower : str -> str.
Variable py_isalnum : char -> bool.
Variable np_sqrt : Q -> Q.
Variable json_loads : str -> option json.
Variable py_repr : json -> str.
Variable json_error : str -> str.

(** [output_path.parent / f"{output_path.stem}{suffix}"] (pathlib). *)
Variable side_file : str -> str -> str.

(** The outcome of the subject-topic stage, (categorized, failed).  Its
    chat calls are made from the threads of a worker pool and are not
    sequenced in the world of the main thread. *)
Variable categorize_subject_topics :
  list GoldenQuestion -> list GoldenQuestion * list GoldenQuestion.

Definition dropped_conversations_file (output_file : str) : str :=
  side_file output_file (u "_dropped_conversations.jsonl").
Definition dropped_duplicates_file (output_file : str) : str :=
  side_file output_file (u "_dropped_duplicates.jsonl").
Definition failed_reformulations_file (output_file : str) : str :=
  side_file output_file (u "_failed_reformulations.json").
Definition failed_usage_mode_file (output_file : str) : str :=
  side_file output_file (u "_failed_usage_mode.jsonl").
Definition failed_subject_topics_file (output_file : str) : str :=
  side_file output_file (u "_failed_subject_topics.jsonl").

(** Step 3, body of [for conv in filtered_conversations]. *)
Definition extract_conv (chat_client_ : chat_client) (chat_model : str)
    (acc : list GoldenQuestion * list FailedReformulation)
    (conv : Conversation)
  : M (list GoldenQuestion * list FailedReformulation) :=
  r <- Extraction.extract_golden_questions json_loads py_repr conv
         (Some chat_client_) chat_model ;;
  ret (acc.1 ++ r.1, acc.2 ++ r.2).

(** Step 6: [deduplicate_questions] with its default [use_semantic=True]
    and [similarity_threshold=0.92], acting on the files of the world. *)
Definition deduplicate (questions : list GoldenQuestion)
    (output_dropped_file : str) (client : Dedup.embedding_client)
    (embedding_model : str) : M (list GoldenQuestion) :=
  fun w =>
    let '(r, fs) :=
      Dedup.deduplicate_questions py_lower py_isalnum np_sqrt questions
        (Some output_dropped_file) true (92 # 100) (Some client)
        (Some embedding_model) (files w) in
    (r, {| chat_calls := chat_calls w; sleeps := sleeps w; files := fs |}).

(** [process_conversations], from the conversations that
    [load_conversations] returned to the moment the output is saved
    (steps 2 to 7); the statistics that are logged afterwards are not
    part of the model. *)
Definition process_conversations (conversations : list Conversation)
    (output_file : str) (chat_client_ : chat_client)
    (embedding_client_ : Dedup.embedding_client)
    (chat_model embedding_model : str) : M unit :=
  filtered_conversations <-
    Filter.filter_conversations conversations
      (Some (dropped_conversations_file output_file)) ;;
  extracted <-
    foldM (extract_conv chat_client_ chat_model) ([], [])
      filtered_conversations ;;
  let '(all_questions, all_failed_reformulations) := extracted in
  Extraction._save_failed_reformulations all_failed_reformulations
    (failed_reformulations_file output_file) ;;;
  usage <-
    Categorizer.categorize_questions_llm json_loads py_repr json_error
      all_questions chat_client_ chat_model ;;
  let '(categorized_questions, failed_usage_mode) := usage in
  let '(subject_categorized_questions, failed_subject_topics) :=
    categorize_subject_topics categorized_questions in
  _save_failed_categorizations failed_usage_mode
    (failed_usage_mode_file output_file) ;;;
  _save_failed_categorizations failed_subject_topics
    (failed_subject_topics_file output_file) ;;;
  deduplicated_questions <-
    deduplicate subject_categorized_questions
      (dropped_duplicates_file output_file) embedding_client_
      embedding_model ;;
  save_golden_questions deduplicated_questions output_file.

End Pipeline.

End Main.

(** ** Reference behaviour used to state the properties *)

Module Spec.

Import Dedup.

Section Sweep.

Variable np_sqrt : Q -> Q.

(** Similarity of the items at positions [i] and [j]. *)
Definition sim (embeddings : list vec) (i j : nat) : Q :=
  _compute_cosine_similarity np_sqrt (embeddings !!! i) (embeddings !!! j).

(** All index pairs [(i, j)] with [i < j < n], in ascending order. *)
Definition index_pairs (n : nat) : list (nat * nat) :=
  concat ((fun i => pair i <$> seq (S i) (n - S i)) <$> seq 0 n).

(** The sweep as the description words it: at the pair [(i, j)], [j] is
    marked a duplicate of [i] when the similarity reaches the threshold and
    neither [i] nor [j] has been removed so far. *)
Definition pair_step (t : Q) (embeddings : list vec)
    (items : list GoldenQuestion) (st : sweep_state) (p : nat * nat)
  : sweep_state :=
  let '(i, j) := p in
  if bool_decide (i ∉ indices_to_remove st)
     && bool_decide (j ∉ indices_to_remove st)
     && Qle_bool t (sim embeddings i j)
  then {| semantic_duplicates :=
            semantic_duplicates st
            ++ [(items !!! j, items !!! i, sim embeddings i j)];
          indices_to_remove := {[j]} ∪ indices_to_remove st |}
  else st.

Definition pair_sweep (t : Q) (embeddings : list vec)
    (items : list GoldenQuestion) : sweep_state :=
  foldl (pair_step t embeddings items) sweep_init
    (index_pairs (length items)).

(** Similarity at level [t] is transitive along the input order. *)
Definition transitive_at (t : Q) (embeddings : list vec) : Prop :=
  forall i j k : nat,
    (i < j)%nat -> (j < k)%nat -> (k < length embeddings)%nat ->
    Qle_bool t (sim embeddings i j) = true ->
    Qle_bool t (sim embeddings j k) = true ->
    Qle_bool t (sim embeddings i k) = true.

End Sweep.

(** Invariant of the exact-match loop: the dictionary of seen forms holds
    exactly the forms of the kept questions, and no form is kept twice. *)
Definition exact_inv (py_lower : str -> str) (py_isalnum : char -> bool)
    (st : exact_state) : Prop :=
  let key q := _normalize_text py_lower py_isalnum (question q) in
  NoDup (key <$> deduplicated st)
  ∧ ∀ k, is_Some (seen_normalized st !! k) ↔ k ∈ key <$> deduplicated st.

(** No later element of the list compares equal to an earlier one. *)
Definition py_distinct (l : list json) : Prop :=
  forall (i j : nat) (x y : json),
    (i < j)%nat -> l !! i = Some x -> l !! j = Some y -> py_eq y x = false.

(** A user turn: a message of role [user] with text left after stripping. *)
Definition is_user_turn (m : Message) : Prop :=
  role m = Some (u "user") ∧ strip (text m) ≠ [].

#[global] Instance is_user_turn_dec (m : Message)
  : Decision (is_user_turn m) :=
  decide (role m = Some (u "user") ∧ strip (text m) ≠ []).

(** Number of user turns before position [i]. *)
Definition turn_index (messages : list Message) (i : nat) : nat :=
  length (filter is_user_turn (take i messages)).

(** The user turn at position [i] of [l] ended as a question or as a
    failure record, numbered by the user turns before it. *)
Definition turn_recorded (cid : str) (l : list Message)
    (qs : list GoldenQuestion) (failed : list FailedReformulation)
    (i : nat) (msg : Message) : Prop :=
  let n := turn_index l i in
  (∃ q, q ∈ qs
        ∧ id q = Extraction.generate_message_id cid n
        ∧ original_question q = strip (text msg)
        ∧ meta_created (metadata q) = msg_created msg)
  ∨ (∃ f, f ∈ failed
          ∧ fr_id f = Extraction.generate_message_id cid n
          ∧ fr_original_question f = strip (text msg)
          ∧ fr_created f = msg_created msg).

(** Invariant of the extraction loop once the messages [l] are read. *)
Definition turn_inv (cid : str) (l : list Message)
    (st : Extraction.extract_state) : Prop :=
  Extraction.user_message_index st = length (filter is_user_turn l)
  ∧ (id <$> Extraction.questions st)
    ++ (fr_id <$> Extraction.failed_reformulations st)
    ≡ₚ Extraction.generate_message_id cid
       <$> seq 0 (Extraction.user_message_index st)
  ∧ ∀ i msg, l !! i = Some msg → is_user_turn msg →
      turn_recorded cid l (Extraction.questions st)
        (Extraction.failed_reformulations st) i msg.

(** Outcome of the reformulation attempt served by chat call [n]. *)
Definition reformulation_attempt (json_loads : str -> option json)
    (py_repr : json -> str) (client : chat_client) (model : str)
    (question : str) (previous_messages : list Message) (n : nat)
  : result str :=
  match client n (ReformulationRequest model question previous_messages) with
  | Raise e => Raise e
  | Return response =>
      Reformulator.parse_reformulation json_loads py_repr response
  end.

(** Outcome of the usage-mode attempt served by chat call [n]. *)
Definition usage_mode_attempt (json_loads : str -> option json)
    (py_repr : json -> str) (json_error : str -> str)
    (client : chat_client) (model : str) (q : GoldenQuestion) (n : nat)
  : result UsageMode :=
  match client n (UsageModeRequest model (question q)) with
  | Raise e => Raise e
  | Return response =>
      Categorizer.parse_usage_mode json_loads py_repr json_error response
  end.

(** Whether the usage-mode attempt served by chat call [n] gets as far as
    the first assignment to [content]: the call returns a response that
    has a first choice. *)
Definition binds_content (client : chat_client) (model : str)
    (q : GoldenQuestion) (n : nat) : bool :=
  match client n (UsageModeRequest model (question q)) with
  | Return response =>
      match first_choice response with
      | Return _ => true
      | Raise _ => false
      end
  | Raise _ => false
  end.

(** [content] after the usage-mode attempt served by chat call [n]. *)
Definition content_after_attempt (client : chat_client) (model : str)
    (q : GoldenQuestion) (n : nat) (before : Categorizer.content_var)
  : Categorizer.content_var :=
  match client n (UsageModeRequest model (question q)) with
  | Return response => Categorizer.content_after response before
  | Raise _ => before
  end.

(** The world after [calls] more chat calls and the sleeps [slept]. *)
Definition advance (calls : nat) (slept : list Z) (w : world) : world :=
  {| chat_calls := chat_calls w + calls; sleeps := sleeps w ++ slept;
     files := files w |}.

(** The (field name, option) pairs that [extract_filters] reads: one for
    every option of a non-empty [selected-options] list of a field with a
    truthy name, inside the [fields] list of a non-empty [filterValue]. *)
Definition field_selections (field : json) : list (json * json) :=
  match field with
  | JObj field =>
      let field_name := default JNull (dict_get (u "field") field) in
      match default (JArr []) (dict_get (u "selected-options") field) with
      | JArr options =>
          if truthy field_name then pair field_name <$> options else []
      | _ => []
      end
  | _ => []
  end.

Definition message_selections (msg : Message) : list (json * json) :=
  match filterValue msg with
  | Some (JObj (kv :: kvs)) =>
      match default (JArr []) (dict_get (u "fields") (kv :: kvs)) with
      | JArr fields => concat (field_selections <$> fields)
      | _ => []
      end
  | _ => []
  end.

Definition selections (messages : list Message) : list (json * json) :=
  concat (message_selections <$> messages).

(** The stored form of a selected document type. *)
Definition corrected (o : str) : str :=
  if bool_decide (o = Extractor.Arsrapprt) then Extractor.Arsrapport else o.

Definition type_key : json := JStr (u "type").

(** What holds of the filters and warnings once the selections [sel] have
    been read. *)
Record filters_inv (sel : list (json * json))
    (st : Extractor.filter_state) : Prop := {
  inv_typo : ∀ k vals,
    (k, vals) ∈ Extractor.fs_filters st → py_eq k type_key = true →
    JStr Extractor.Arsrapprt ∉ vals;
  inv_vals : ∀ k vals,
    (k, vals) ∈ Extractor.fs_filters st → py_distinct vals;
  inv_keys : py_distinct (Extractor.fs_filters st).*1;
  inv_type : ∀ k o,
    (k, JStr o) ∈ sel → py_eq k type_key = true →
    ∃ vals, (type_key, vals) ∈ Extractor.fs_filters st
            ∧ JStr (corrected o) ∈ vals;
  inv_warn : ∀ k o,
    (k, JStr o) ∈ sel → py_eq k type_key = true →
    corrected o ∉ Extractor.KNOWN_DOCUMENT_TYPES →
    Extractor.unknown_type_warning (corrected o)
    ∈ Extractor.fs_warnings st;
  inv_other : ∀ k o,
    (k, o) ∈ sel → py_eq k type_key = false →
    ∃ k' vals, (k', vals) ∈ Extractor.fs_filters st
               ∧ py_eq k k' = true ∧ (o ∈ vals ∨ py_in o vals = true) }.

End Spec.

(** ** Concrete tables and inputs for the examples *)

Module Examples.

(** Case mapping and the alphanumeric table on Latin-1 code points, where
    they agree with Python. *)
Definition lower_char (c : char) : char :=
  if ((65 <=? c) && (c <=? 90)
      || (192 <=? c) && (c <=? 222) && negb (c =? 215))%N
  then (c + 32)%N else c.

Definition latin1_lower (s : str) : str := lower_char <$> s.

Definition latin1_isalnum (c : char) : bool :=
  ((48 <=? c) && (c <=? 57) || (65 <=? c) && (c <=? 90)
   || (97 <=? c) && (c <=? 122)
   || (c =? 170) || (c =? 178) || (c =? 179) || (c =? 181) || (c =? 185)
   || (c =? 186) || (188 <=? c) && (c <=? 190)
   || (192 <=? c) && (c <=? 214) || (216 <=? c) && (c <=? 246)
   || (248 <=? c) && (c <=? 255))%N.

(** A square root that is exact on squares of rationals. *)
Definition sqrt_exact (q : Q) : Q :=
  let r := Qred q in
  Qmake (Z.sqrt (Qnum r)) (Pos.sqrt (Qden r)).

(** A question with a given text. *)
Definition mkq (cid : str) (txt : str) : GoldenQuestion :=
  {| id := cid ++ u "_0"; question := txt; original_question := txt;
     conversation_id := cid; context_messages := [];
     has_retrieval := false;
     usage_mode := Extraction.placeholder_usage_mode;
     subject_topics := [];
     metadata := {| meta_topic := u "Test"; meta_user_id := [];
                    meta_created := 0 |};
     question_changed := false; filters := None |}.

(** An embedding back end given by a table from texts to vectors; a text
    outside the table makes the call fail. *)
Definition table_client (table : list (str * Dedup.vec))
  : Dedup.embedding_client :=
  fun _ text _ =>
    match list_find (fun p => p.1 = text) table with
    | Some (_, (_, v)) => Return v
    | None => Raise (OtherError (u "connection refused"))
    end.

(** A message with a given role and text. *)
Definition mkmsg (mid : str) (r : option str) (txt : str) : Message :=
  {| msg_id := mid; text := txt; role := r; msg_created := 1234567890;
     chunks := []; filterValue := None |}.

(** A user message that selects the document types "Årsrapprt" (twice),
    "Evaluering" and "Ukjent", and the organisation "Digdir" (twice). *)
Definition filter_message : Message :=
  {| msg_id := u "msg1"; text := u "Hva er budsjettet?";
     role := Some (u "user"); msg_created := 1234567890; chunks := [];
     filterValue :=
       Some (JObj
         [(u "fields",
           JArr
             [ JObj [(u "field", JStr (u "type"));
                     (u "selected-options",
                      JArr [JStr Extractor.Arsrapprt; JStr (u "Evaluering");
                            JStr Extractor.Arsrapprt; JStr (u "Ukjent")])];
               JObj [(u "field", JStr (u "orgs_long"));
                     (u "selected-options",
                      JArr [JStr (u "Digdir"); JStr (u "Digdir")])] ])]) |}.

(** A double quote. *)
Definition dq : str := [34%N].

(** Completions used in the examples, and a [json.loads] that parses
    them. *)
Definition reformulated_text : str :=
  u "{" ++ dq ++ u "reformulated" ++ dq ++ u ": " ++ dq
  ++ u "Hva er budsjettet til Digdir?" ++ dq ++ u "}".

Definition missing_keys_text : str :=
  u "{" ++ dq ++ u "document_scope" ++ dq ++ u ": " ++ dq
  ++ u "single_document" ++ dq ++ u "}".

Definition usage_mode_text : str :=
  u "{" ++ dq ++ u "document_scope" ++ dq ++ u ": " ++ dq
  ++ u "single_document" ++ dq ++ u ", " ++ dq ++ u "operation_type" ++ dq
  ++ u ": " ++ dq ++ u "simple_qa" ++ dq ++ u ", " ++ dq
  ++ u "output_complexity" ++ dq ++ u ": " ++ dq ++ u "factoid" ++ dq
  ++ u "}".

Definition json_table : list (str * json) :=
  [ (reformulated_text,
     JObj [(u "reformulated", JStr (u "Hva er budsjettet til Digdir?"))]);
    (missing_keys_text,
     JObj [(u "document_scope", JStr (u "single_document"))]);
    (usage_mode_text,
     JObj [(u "document_scope", JStr (u "single_document"));
           (u "operation_type", JStr (u "simple_qa"));
           (u "output_complexity", JStr (u "factoid"))]) ].

Definition table_loads (s : str) : option json :=
  match list_find (fun p => p.1 = s) json_table with
  | Some (_, (_, v)) => Some v
  | None => None
  end.

Definition table_repr (v : json) : str := u "{...}".
Definition table_error (s : str) : str := u "Expecting value".

(** A chat back end that answers every call with one completion. *)
Definition constant_client (completion : str) : chat_client :=
  fun _ _ =>
    Return {| choices := [{| finish_reason := Some (u "stop");
                             content := Some completion |}] |}.

(** A chat back end whose every call fails. *)
Definition failing_client : chat_client :=
  fun _ _ => Raise (APIError (u "Request timed out.")).

(** A chat back end whose every call fails while decoding the reply. *)
Definition undecodable_client : chat_client :=
  fun _ _ => Raise (JSONDecodeError (u "Expecting value")).

(** A chat back end that is over its rate limit. *)
Definition rate_limited_client : chat_client :=
  fun _ _ => Raise (RateLimitError (u "Rate limit exceeded")).

(** A chat back end that reformulates and classifies. *)
Definition helpful_client : chat_client :=
  fun _ req =>
    match req with
    | ReformulationRequest _ _ _ =>
        Return {| choices := [{| finish_reason := Some (u "stop");
                                 content := Some reformulated_text |}] |}
    | UsageModeRequest _ _ =>
        Return {| choices := [{| finish_reason := Some (u "stop");
                                 content := Some usage_mode_text |}] |}
    end.

(** A conversation that opens with a system message. *)
Definition system_first : Conversation :=
  {| conv_id := u "k1MBbzf_DZsTpLl86odSz"; topic := u "Test";
     entityId := u "entity1"; userId := u "user1";
     conv_created := 1234567890;
     messages := [ mkmsg (u "msg1") (Some (u "system")) (u "System message");
                   mkmsg (u "msg2") (Some (u "user")) (u "Hva er det?") ] |}.

(** A conversation that opens with the user's question. *)
Definition user_first : Conversation :=
  {| conv_id := u "conv1"; topic := u "Test";
     entityId := u "entity1"; userId := u "user1";
     conv_created := 1234567890;
     messages := [ mkmsg (u "msg1") (Some (u "user")) (u " Hva er budsjettet? ");
                   mkmsg (u "msg2") (Some (u "assistant")) (u "500 millioner");
                   mkmsg (u "msg3") (Some (u "user")) (u "  ");
                   mkmsg (u "msg4") (Some (u "user")) (u "Og det?") ] |}.

Definition model_name : str := u "gpt-oss:120b-cloud".

Definition qa := mkq (u "conv1") (u "a").
Definition qb := mkq (u "conv2") (u "b").
Definition qc := mkq (u "conv3") (u "c").
Definition qd := mkq (u "conv4") (u "d").

(** a~b = 3/5, b~c = 4/5, a~c = 0. *)
Definition chain_table : list (str * Dedup.vec) :=
  [ (u "a", [1; 0]); (u "b", [3; 4]); (u "c", [0; 1]) ]%Q.

(** a~b = 3/5, b~c = b~d = 4/5, a~c = a~d = 12/25, c~d = 7/25. *)
Definition star_table : list (str * Dedup.vec) :=
  [ (u "a", [0; 4; 3]); (u "b", [0; 0; 1]);
    (u "c", [3; 0; 4]); (u "d", [-3; 0; 4]) ]%Q.

(** Two clearly separated groups: a~b = 1, c unrelated. *)
Definition block_table : list (str * Dedup.vec) :=
  [ (u "a", [1; 0]); (u "b", [2; 0]); (u "c", [0; 1]) ]%Q.

(** One group of three and an outsider: a~b = 4/5, a~c = 12/13,
    b~c = 63/65, and a~d = 0, b~d = 3/5, c~d = 5/13. *)
Definition nested_table : list (str * Dedup.vec) :=
  [ (u "a", [1; 0]); (u "b", [4; 3]); (u "c", [12; 5]); (u "d", [0; 1]) ]%Q.

(** Side-channel paths next to an output path that ends in [.jsonl]. *)
Definition jsonl_side_file (output_file suffix : str) : str :=
  take (length output_file - 6) output_file ++ suffix.

Definition output_file : str := u "output/golden_questions.jsonl".

(** A record left in the dropped-duplicates log by an earlier run. *)
Definition stale_record : DuplicateRecord :=
  {| dr_dropped_question :=
       {| qs_text := u "Hva er fristen?"; qs_original_text := u "Hva er fristen?";
          qs_conversation_id := u "old2"; qs_has_retrieval := false |};
     dr_kept_original :=
       {| qs_text := u "hva er fristen"; qs_original_text := u "hva er fristen";
          qs_conversation_id := u "old1"; qs_has_retrieval := false |};
     dr_similarity_score := 1;
     dr_match_type := u "exact_match";
     dr_normalized_form := u "hva er fristen";
     dr_drop_reason := u "Duplicate of earlier question" |}.

(** The files before the run: only the log of the earlier run. *)
Definition stale_files : filesystem :=
  {[ u "output/golden_questions_dropped_duplicates.jsonl"
     := DroppedDuplicatesFile [stale_record] ]}.

(** Embeddings of the two questions of [user_first]: orthogonal. *)
Definition pipeline_table : list (str * Dedup.vec) :=
  [ (u "Hva er budsjettet?", [1; 0]);
    (u "Hva er budsjettet til Digdir?", [0; 1]) ]%Q.

(** A run of the pipeline on [user_first] with every back end answering
    and every subject-topic task succeeding. *)
Definition pipeline_run (fs : filesystem) : result unit * world :=
  Main.process_conversations latin1_lower latin1_isalnum sqrt_exact
    table_loads table_repr table_error jsonl_side_file
    (fun qs => (qs, [])) [user_first] output_file helpful_client
    (table_client pipeline_table) model_name (u "nomic-embed-text")
    (world_init fs).

Definition dedup (questions : list GoldenQuestion) (t : Q)
    (table : list (str * Dedup.vec)) : result (list GoldenQuestion) :=
  (Dedup.deduplicate_questions latin1_lower latin1_isalnum sqrt_exact
     questions None true t (Some (table_client table))
     (Some (u "nomic-embed-text")) ∅).1.

End Examples.

(** ** Subject topics (subject_categorizer_llm.py) *)

Module SubjectCategorizer.

Definition SUBJECT_TOPICS_TIER1 : list str :=
  [ u "Forvaltning og etatsstyring";
    u "Digitalisering og kunstig intelligens";
    u "Innovasjon og fornyelse";
    [216%N] ++ u "konomi og budsjett";
    u "Likestilling og mangfold" ].

Definition SUBJECT_TOPICS_TIER2 : list str :=
  [ u "Arbeidsliv og HR";
    u "Barnevern";
    u "Statistikk og data";
    u "Justis og rettsvesen";
    u "Milj" ++ [248%N] ++ u " og b" ++ [230%N] ++ u "rekraft";
    u "Forsvar og sikkerhet";
    u "Helse og omsorg";
    u "Utdanning og forskning" ].

Definition SUBJECT_TOPICS_TIER3 : list str :=
  [ u "Spr" ++ [229%N] ++ u "k og kultur";
    u "Internasjonale forhold";
    u "Innvandring og integrering";
    u "Annet" ].

Definition ALL_SUBJECT_TOPICS : list str :=
  SUBJECT_TOPICS_TIER1 ++ SUBJECT_TOPICS_TIER2 ++ SUBJECT_TOPICS_TIER3.

(** The chat back end as this module calls it: the outcome of the [n]-th
    chat call of the run, for a model and the text of a question. *)
Definition topic_client := nat -> str -> str -> result ChatResponse.

(** [client.chat.completions.create(...)] *)
Definition chat_topics (client : topic_client) (model question : str)
  : M ChatResponse :=
  fun w =>
    (client (chat_calls w) model question,
     {| chat_calls := S (chat_calls w); sleeps := sleeps w;
        files := files w |}).

(** [str(type(v))] *)
Definition type_repr (v : json) : str :=
  match v with
  | JNull => u "<class 'NoneType'>"
  | JBool _ => u "<class 'bool'>"
  | JInt _ => u "<class 'int'>"
  | JStr _ => u "<class 'str'>"
  | JArr _ => u "<class 'list'>"
  | JObj _ => u "<class 'dict'>"
  end.

(** [response.choices[0].message.content.strip()] *)
Definition stripped_content (response : ChatResponse) : result str :=
  match first_choice response with
  | Raise e => Raise e
  | Return choice =>
      match content choice with
      | None =>
          Raise (OtherError (u "'NoneType' object has no attribute 'strip'"))
      | Some c => Return (strip c)
      end
  end.

(** The statements of the inner [try] block after [json.loads]. *)
Definition topics_of (parsed : json) : result (list json) :=
  match parsed with
  | JObj d =>
      let topics := default (JArr []) (dict_get (u "subject_topics") d) in
      match topics with
      | JArr l => Return l
      | _ =>
          Raise (ValueError
                   (u "subject_topics must be a list, got "
                    ++ type_repr topics))
      end
  | _ => Raise (OtherError (u "object has no attribute 'get'"))
  end.

(** The topics that are only reported: [topic not in ALL_SUBJECT_TOPICS]. *)
Definition unknown_topics (topics : list json) : list json :=
  filter (fun topic => py_in topic (JStr <$> ALL_SUBJECT_TOPICS) = false)
    topics.

Section SubjectCategorizer.

Variable json_loads : str -> option json.
Variable json_error : str -> str.

Definition invalid_json_after (max_retries : Z) (content : str) : str :=
  u "Invalid JSON response after " ++ of_Z (max_retries + 1)
  ++ u " attempts: " ++ json_error content.

Definition failed_after (max_retries : Z) (e : exn) : str :=
  u "Failed to categorize subject topics after " ++ of_Z (max_retries + 1)
  ++ u " attempts: " ++ exn_str e.

(** The outer [try] block of one iteration: [Some topics] when it
    returns, [None] when it ends in [continue]. *)
Definition attempt_body (client : topic_client) (model : str)
    (q : GoldenQuestion) (max_retries attempt : Z)
  : M (option (list json)) :=
  response <- chat_topics client model (question q) ;;
  content <- lift (stripped_content response) ;;
  match json_loads content with
  | Some parsed => topics <- lift (topics_of parsed) ;; ret (Some topics)
  | None =>
      if attempt =? max_retries
      then raise (ValueError (invalid_json_after max_retries content))
      else sleep (2 ^ attempt) ;;; ret None
  end.

(** [for attempt in range(max_retries + 1)] and the [return []] after it. *)
Fixpoint attempts (client : topic_client) (model : str) (q : GoldenQuestion)
    (max_retries : Z) (remaining : nat) (attempt : Z) : M (list json) :=
  match remaining with
  | O => ret []
  | S remaining' =>
      outcome <- catch (attempt_body client model q max_retries attempt) ;;
      match outcome with
      | Return (Some topics) => ret topics
      | Return None =>
          attempts client model q max_retries remaining' (attempt + 1)
      | Raise e =>
          if attempt =? max_retries
          then raise (ValueError (failed_after max_retries e))
          else sleep (2 ^ attempt) ;;;
               attempts client model q max_retries remaining' (attempt + 1)
      end
  end.

(** [categorize_subject_topics_llm] *)
Definition categorize_subject_topics_llm (q : GoldenQuestion)
    (client : topic_client) (model : str) (max_retries : Z)
  : M (list json) :=
  attempts client model q max_retries (Z.to_nat (max_retries + 1)) 0.

(** [question.subject_topics = topics] *)
Definition set_subject_topics (q : GoldenQuestion) (topics : list json)
  : GoldenQuestion :=
  {| id := id q; question := question q;
     original_question := original_question q;
     conversation_id := conversation_id q;
     context_messages := context_messages q;
     has_retrieval := has_retrieval q; usage_mode := usage_mode q;
     subject_topics := topics; metadata := metadata q;
     question_changed := question_changed q; filters := filters q |}.

(** [categorize_single_question], the task that
    [categorize_subject_topics] hands to its worker pool. *)
Definition categorize_single_question (client : topic_client) (model : str)
    (q : GoldenQuestion) : M (GoldenQuestion * bool) :=
  outcome <- catch (categorize_subject_topics_llm q client model 0) ;;
  match outcome with
  | Return topics => ret (set_subject_topics q topics, true)
  | Raise _ => ret (q, false)
  end.

End SubjectCategorizer.

End SubjectCategorizer.

(** ** Provider configuration (llm_provider.py) *)

Module Provider.

Inductive LLMProvider : Type := OLLAMA | AZURE.

Record LLMConfig := {
  provider : LLMProvider;
  ollama_base_url : option str;
  ollama_chat_model : option str;
  ollama_embedding_model : option str;
  azure_endpoint : option str;
  azure_api_key : option str;
  azure_api_version : option str;
  azure_chat_deployment : option str;
  azure_embedding_deployment : option str;
  enable_cache : bool;
  cache_dir : str }.

(** The attributes of the parsed command line that the module reads;
    [args_no_cache = None] when the attribute is absent. *)
Record Args := {
  args_provider : option str;
  args_ollama_url : option str;
  args_model : option str;
  args_azure_endpoint : option str;
  args_azure_api_key : option str;
  args_azure_chat_deployment : option str;
  args_azure_embedding_deployment : option str;
  args_no_cache : option bool }.

(** [os.environ] *)
Definition environ := gmap str str.

(** [a or b] on optional strings: [None] and the empty string are falsy. *)
Definition or_else (a b : option str) : option str :=
  match a with
  | Some (c :: s) => Some (c :: s)
  | _ => b
  end.

(** [a or os.getenv(name, fallback)] *)
Definition or_getenv (a : option str) (env : environ) (name fallback : str)
  : str :=
  match a with
  | Some (c :: s) => c :: s
  | _ => default fallback (env !! name)
  end.

(** [not s] *)
Definition missing (s : option str) : bool :=
  match s with
  | Some (_ :: _) => false
  | _ => true
  end.

Definition default_cache_dir : str := u ".cache/llm_responses".

Section Provider.

(** Python's [str.lower]. *)
Variable py_lower : str -> str.

(** [LLMProvider(value)] *)
Definition provider_of_value (value : str) : result LLMProvider :=
  if decide (value = u "ollama") then Return OLLAMA
  else if decide (value = u "azure") then Return AZURE
  else Raise (ValueError
                (u "'" ++ value ++ u "' is not a valid LLMProvider")).

(** [LLMConfig._from_env_and_args_ollama] *)
Definition _from_env_and_args_ollama (args : Args) (env : environ)
  : LLMConfig :=
  let base_url :=
    or_getenv (args_ollama_url args) env (u "OLLAMA_BASE_URL")
      (u "http://localhost:11434/v1") in
  let chat_model :=
    or_getenv (args_model args) env (u "OLLAMA_MODEL")
      (u "gpt-oss:120b-cloud") in
  let embedding_model :=
    default (u "nomic-embed-text") (env !! u "OLLAMA_EMBEDDING_MODEL") in
  {| provider := OLLAMA;
     ollama_base_url := Some base_url;
     ollama_chat_model := Some chat_model;
     ollama_embedding_model := Some embedding_model;
     azure_endpoint := None; azure_api_key := None;
     azure_api_version := None; azure_chat_deployment := None;
     azure_embedding_deployment := None;
     enable_cache := true; cache_dir := default_cache_dir |}.

(** [LLMConfig._from_env_and_args_azure] *)
Definition _from_env_and_args_azure (args : Args) (env : environ)
  : result LLMConfig :=
  let endpoint :=
    or_else (args_azure_endpoint args) (env !! u "AZURE_OPENAI_ENDPOINT") in
  let api_key :=
    or_else (args_azure_api_key args) (env !! u "AZURE_OPENAI_API_KEY") in
  let api_version :=
    default (u "2024-02-15-preview") (env !! u "AZURE_OPENAI_API_VERSION") in
  let chat_deployment :=
    or_else (args_azure_chat_deployment args)
      (env !! u "AZURE_OPENAI_CHAT_DEPLOYMENT") in
  let embedding_deployment :=
    or_else (args_azure_embedding_deployment args)
      (env !! u "AZURE_OPENAI_EMBEDDING_DEPLOYMENT") in
  if missing endpoint then
    Raise (ValueError (u "Azure provider requires AZURE_OPENAI_ENDPOINT. Set via --azure-endpoint or AZURE_OPENAI_ENDPOINT env var."))
  else if missing api_key then
    Raise (ValueError (u "Azure provider requires AZURE_OPENAI_API_KEY. Set via --azure-api-key or AZURE_OPENAI_API_KEY env var."))
  else if missing chat_deployment then
    Raise (ValueError (u "Azure provider requires AZURE_OPENAI_CHAT_DEPLOYMENT. Set via --azure-chat-deployment or AZURE_OPENAI_CHAT_DEPLOYMENT env var."))
  else if missing embedding_deployment then
    Raise (ValueError (u "Azure provider requires AZURE_OPENAI_EMBEDDING_DEPLOYMENT. Set via --azure-embedding-deployment or AZURE_OPENAI_EMBEDDING_DEPLOYMENT env var."))
  else
    Return {| provider := AZURE;
              ollama_base_url := None; ollama_chat_model := None;
              ollama_embedding_model := None;
              azure_endpoint := endpoint; azure_api_key := api_key;
              azure_api_version := Some api_version;
              azure_chat_deployment := chat_deployment;
              azure_embedding_deployment := embedding_deployment;
              enable_cache := true; cache_dir := default_cache_dir |}.

(** The two assignments that follow the choice of the provider. *)
Definition with_cache (config : LLMConfig) (args : Args) (env : environ)
  : LLMConfig :=
  {| provider := provider config;
     ollama_base_url := ollama_base_url config;
     ollama_chat_model := ollama_chat_model config;
     ollama_embedding_model := ollama_embedding_model config;
     azure_endpoint := azure_endpoint config;
     azure_api_key := azure_api_key config;
     azure_api_version := azure_api_version config;
     azure_chat_deployment := azure_chat_deployment config;
     azure_embedding_deployment := azure_embedding_deployment config;
     enable_cache := negb (default false (args_no_cache args));
     cache_dir := default default_cache_dir (env !! u "LLM_CACHE_DIR") |}.

(** [LLMConfig.from_env_and_args] *)
Definition from_env_and_args (args : Args) (env : environ)
  : result LLMConfig :=
  let provider_str :=
    or_getenv (args_provider args) env (u "LLM_PROVIDER") (u "ollama") in
  match provider_of_value (py_lower provider_str) with
  | Raise e => Raise e
  | Return OLLAMA =>
      Return (with_cache (_from_env_and_args_ollama args env) args env)
  | Return AZURE =>
      match _from_env_and_args_azure args env with
      | Raise e => Raise e
      | Return config => Return (with_cache config args env)
      end
  end.

End Provider.

(** [get_chat_model_name] *)
Definition get_chat_model_name (config : LLMConfig) : result str :=
  match provider config with
  | OLLAMA =>
      match ollama_chat_model config with
      | Some (c :: s) => Return (c :: s)
      | _ => Raise (ValueError (u "Ollama chat model not configured"))
      end
  | AZURE =>
      match azure_chat_deployment config with
      | Some (c :: s) => Return (c :: s)
      | _ => Raise (ValueError (u "Azure chat deployment not configured"))
      end
  end.

(** [get_embedding_model_name] *)
Definition get_embedding_model_name (config : LLMConfig) : result str :=
  match provider config with
  | OLLAMA =>
      match ollama_embedding_model config with
      | Some (c :: s) => Return (c :: s)
      | _ => Raise (ValueError (u "Ollama embedding model not configured"))
      end
  | AZURE =>
      match azure_embedding_deployment config with
      | Some (c :: s) => Return (c :: s)
      | _ =>
          Raise (ValueError (u "Azure embedding deployment not configured"))
      end
  end.

(** The client that [create_llm_client] builds, as the arguments of its
    constructor. *)
Inductive base_client : Type :=
  | OpenAIClient (base_url : option str) (api_key : str)
  | AzureOpenAIClient (azure_endpoint api_key api_version : option str).

Inductive llm_client : Type :=
  | Uncached (client : base_client)
  | CachedLLMClient (client : base_client) (cache_dir : str).

(** [create_llm_client] *)
Definition create_llm_client (config : LLMConfig) : llm_client :=
  let base_client :=
    match provider config with
    | OLLAMA => OpenAIClient (ollama_base_url config) (u "ollama")
    | AZURE =>
        AzureOpenAIClient (azure_endpoint config) (azure_api_key config)
          (azure_api_version config)
    end in
  if enable_cache config then CachedLLMClient base_client (cache_dir config)
  else Uncached base_client.

End Provider.

(** ** Loading conversations (loader.py) *)

Module Loader.

(** A message and a conversation as [_parse_conversation] builds them:
    the dataclasses do not check the types of their fields, so every field
    taken from the input holds whatever JSON value the input has there
    ([JNull] is [None]). *)
Record RawMessage := {
  raw_id : json;
  raw_text : json;
  raw_role : json;
  raw_created : json;
  raw_chunks : json;
  raw_filterValue : json }.

Record RawConversation := {
  rc_id : json;
  rc_topic : json;
  rc_entityId : json;
  rc_userId : str;
  rc_created : json;
  rc_messages : list RawMessage }.

(** [for x in v]: the values a loop over [v] visits. *)
Definition json_iter (v : json) : result (list json) :=
  match v with
  | JArr l => Return l
  | JObj d => Return ((fun kv => JStr kv.1) <$> d)
  | JStr s => Return ((fun c => JStr [c]) <$> s)
  | _ => Raise (TypeError (u "object is not iterable"))
  end.

(** [d.get(key, fallback)] on the value [d]; only a [dict] has [get]. *)
Definition json_get (key : str) (fallback : json) (v : json) : result json :=
  match v with
  | JObj d => Return (default fallback (dict_get key d))
  | _ => Raise (OtherError (u "object has no attribute 'get'"))
  end.

(** [for field in fields: if field not in v: raise KeyError(...)];
    [KeyError] is [OtherError], as in [json_index]. *)
Fixpoint require_fields (what : str) (fields : list str) (v : json)
  : result unit :=
  match fields with
  | [] => Return tt
  | field :: fields' =>
      match json_contains field v with
      | Raise e => Raise e
      | Return false =>
          Raise (OtherError (u "Missing required " ++ what ++ u " field: "
                             ++ field))
      | Return true => require_fields what fields' v
      end
  end.

Definition required_conv_fields : list str :=
  [u "id"; u "topic"; u "entityId"; u "userId"; u "created"].

Definition required_msg_fields : list str :=
  [u "id"; u "text"; u "created"].

(** Body of [for msg_data in messages_data]. *)
Definition parse_message (msg_data : json) : result RawMessage :=
  match require_fields (u "message") required_msg_fields msg_data with
  | Raise e => Raise e
  | Return _ =>
      match json_index (u "id") msg_data with
      | Raise e => Raise e
      | Return id_ =>
      match json_index (u "text") msg_data with
      | Raise e => Raise e
      | Return text_ =>
      match json_get (u "role") JNull msg_data with
      | Raise e => Raise e
      | Return role_ =>
      match json_index (u "created") msg_data with
      | Raise e => Raise e
      | Return created_ =>
      match json_get (u "chunks") (JArr []) msg_data with
      | Raise e => Raise e
      | Return chunks_ =>
      match json_get (u "filterValue") JNull msg_data with
      | Raise e => Raise e
      | Return filterValue_ =>
          Return {| raw_id := id_; raw_text := text_; raw_role := role_;
                    raw_created := created_; raw_chunks := chunks_;
                    raw_filterValue := filterValue_ |}
      end end end end end end
  end.

(** The loop over the messages: it stops at the first one that raises. *)
Fixpoint parse_messages (msgs : list json) : result (list RawMessage) :=
  match msgs with
  | [] => Return []
  | msg_data :: msgs' =>
      match parse_message msg_data with
      | Raise e => Raise e
      | Return message =>
          match parse_messages msgs' with
          | Raise e => Raise e
          | Return messages => Return (message :: messages)
          end
      end
  end.

(** [_parse_conversation] *)
Definition _parse_conversation (data : json) : result RawConversation :=
  match json_contains (u "conversation") data with
  | Raise e => Raise e
  | Return false => Raise (ValueError (u "Missing 'conversation' field"))
  | Return true =>
  match json_contains (u "messages") data with
  | Raise e => Raise e
  | Return false => Raise (ValueError (u "Missing 'messages' field"))
  | Return true =>
  match json_index (u "conversation") data with
  | Raise e => Raise e
  | Return conv_data =>
  match json_index (u "messages") data with
  | Raise e => Raise e
  | Return messages_data =>
  match require_fields (u "conversation") required_conv_fields conv_data with
  | Raise e => Raise e
  | Return _ =>
  match json_iter messages_data with
  | Raise e => Raise e
  | Return msgs =>
  match parse_messages msgs with
  | Raise e => Raise e
  | Return messages =>
  match json_index (u "id") conv_data with
  | Raise e => Raise e
  | Return id_ =>
  match json_index (u "topic") conv_data with
  | Raise e => Raise e
  | Return topic_ =>
  match json_index (u "entityId") conv_data with
  | Raise e => Raise e
  | Return entityId_ =>
  match json_index (u "created") conv_data with
  | Raise e => Raise e
  | Return created_ =>
      Return {| rc_id := id_; rc_topic := topic_; rc_entityId := entityId_;
                rc_userId := []; rc_created := created_;
                rc_messages := messages |}
  end end end end end end end end end end
  end.


Section Loader.

(** [json.loads]; [None] stands for [json.JSONDecodeError]. *)
Variable json_loads : str -> option json.





End Loader.

End Loader.

(** ** The context of a reformulation (reformulator_llm.py) *)

Module Context.

(** [l[-n:]] for any integer [n]: the last [n] elements for a positive
    [n], the whole list for 0, and the list without its first [-n]
    elements for a negative [n]. *)
Definition slice_from_end {A} (n : Z) (l : list A) : list A :=
  if 0 <? n then drop (length l - Z.to_nat n) l
  else drop (Z.to_nat (- n)) l.

(** [[chunk.get("docTitle", "") for chunk in chunks
      if chunk.get("docTitle")]] *)
Definition doc_titles (chunks : list jobject) : list json :=
  (fun chunk => default (JStr []) (dict_get (u "docTitle") chunk))
  <$> filter (fun chunk =>
                truthy (default JNull (dict_get (u "docTitle") chunk))
                = true)
        chunks.

Section Context.

(** Python's [str.capitalize], and [str(v)] for a JSON value that is not
    a string. *)
Variable py_capitalize : str -> str.
Variable py_str : json -> str.

(** The line built for one message. *)
Definition context_line (msg : Message) : str :=
  let role_ :=
    match role msg with
    | Some (c :: r) => c :: r
    | _ => u "unknown"
    end in
  let text_ := strip (text msg) in
  let text_ :=
    match doc_titles (chunks msg) with
    | title :: _ =>
        u "[Document: "
        ++ (match title with JStr s => s | v => py_str v end)
        ++ u "] " ++ text_
    | [] => text_
    end in
  py_capitalize role_ ++ u ": " ++ text_.

(** [_build_context_string] *)
Definition _build_context_string (messages : list Message)
    (max_messages : Z) : str :=
  if messages is [] then []
  else join [10%N] (context_line <$> slice_from_end max_messages messages).

End Context.

End Context.

(** * Properties *)

(** ** Exact-match stage *)

Section ExactStage.

Context (py_lower : str -> str) (py_isalnum : char -> bool).

Local Abbreviation key :=
  (fun q : GoldenQuestion => Dedup._normalize_text py_lower py_isalnum (question q)).
Local Abbreviation step := (Dedup.exact_step py_lower py_isalnum).

Local Abbreviation exact_inv := (Spec.exact_inv py_lower py_isalnum).

Lemma exact_inv_init : exact_inv Dedup.exact_init.
Proof.
  split; simpl; [constructor|].
  intros k. rewrite lookup_empty. split; [intros [? [=]] | inversion 1].
Qed.

Lemma exact_step_inv st q : exact_inv st → exact_inv (step st q).
Proof.
  intros [Hnd Hseen]. unfold Dedup.exact_step.
  destruct (Dedup.seen_normalized st !! key q) as [orig|] eqn:E;
    cbn.
  - split; assumption.
  - assert (key q ∉ key <$> Dedup.deduplicated st) as Hfresh.
    { rewrite <- Hseen, E. intros [? [=]]. }
    split; cbn.
    + rewrite fmap_app. apply NoDup_app. split; [assumption|]. split.
      * intros x Hx. simpl. rewrite list_elem_of_singleton. intros ->. done.
      * simpl. apply NoDup_singleton.
    + intros k. rewrite fmap_app, elem_of_app. simpl.
      rewrite list_elem_of_singleton, <- Hseen.
      destruct (decide (key q = k)) as [<-|Hne].
      * rewrite lookup_insert_eq. split; eauto.
      * rewrite lookup_insert_ne by done. split; [by left|].
        intros [?|?]; [done|congruence].
Qed.

Lemma exact_fold_inv qs st :
  exact_inv st → exact_inv (foldl step st qs).
Proof.
  revert st. induction qs as [|q qs IH]; intros st Hst; simpl; [done|].
  apply IH, exact_step_inv, Hst.
Qed.

(** On questions whose forms are new and pairwise different the loop keeps
    everything and records nothing. *)
Lemma exact_fold_fresh qs st :
  exact_inv st →
  NoDup (key <$> (Dedup.deduplicated st ++ qs)) →
  Dedup.deduplicated (foldl step st qs) = Dedup.deduplicated st ++ qs
  ∧ Dedup.duplicates (foldl step st qs) = Dedup.duplicates st.
Proof.
  revert st. induction qs as [|q qs IH]; intros st Hst Hnd; simpl.
  - by rewrite app_nil_r.
  - assert (Dedup.seen_normalized st !! key q = None) as E.
    { apply eq_None_not_Some. rewrite (proj2 Hst).
      rewrite fmap_app in Hnd. apply NoDup_app in Hnd as (_ & Hdisj & _).
      intros Hin. apply (Hdisj _ Hin). simpl. left. }
    pose proof (exact_step_inv st q Hst) as Hst'.
    unfold Dedup.exact_step in *. rewrite E in *. simpl in *.
    destruct (IH _ Hst') as [H1 H2]; simpl.
    + by rewrite <- app_assoc.
    + simpl in *. by rewrite H1, H2, <- app_assoc.
Qed.

End ExactStage.

(** C6. Exact-match deduplication is idempotent: run on its own output,
    the stage keeps every question, in the same order, and finds no
    duplicate. *)
Theorem exact_stage_idempotent (py_lower : str -> str)
    (py_isalnum : char -> bool) (questions : list GoldenQuestion) :
  let once := Dedup.exact_stage py_lower py_isalnum questions in
  let twice :=
    Dedup.exact_stage py_lower py_isalnum (Dedup.deduplicated once) in
  Dedup.deduplicated twice = Dedup.deduplicated once
  ∧ Dedup.duplicates twice = [].
Proof.
  intros once twice.
  pose proof (exact_fold_inv py_lower py_isalnum questions _
                (exact_inv_init py_lower py_isalnum)) as [Hnd _].
  cbv zeta in Hnd.
  fold (Dedup.exact_stage py_lower py_isalnum questions) in Hnd.
  apply (exact_fold_fresh py_lower py_isalnum (Dedup.deduplicated once)
           Dedup.exact_init (exact_inv_init py_lower py_isalnum)).
  simpl. exact Hnd.
Qed.

(** ** The pairwise sweep *)

Section SweepFacts.

Context (np_sqrt : Q -> Q) (t : Q) (embs : list Dedup.vec)
        (qs : list GoldenQuestion).

Local Abbreviation sim := (Spec.sim np_sqrt embs).
Local Abbreviation inner := (Dedup.inner_step np_sqrt t embs qs).
Local Abbreviation outer := (Dedup.outer_step np_sqrt t embs qs).
Local Abbreviation removed := Dedup.indices_to_remove.
Local Abbreviation close i k := (Qle_bool t (sim i k) = true).

Lemma inner_step_removed st i j k :
  k ∈ removed (inner i st j) ↔ k ∈ removed st ∨ (k = j ∧ close i j).
Proof.
  unfold Dedup.inner_step. fold (sim i j).
  destruct (decide (j ∈ removed st)) as [Hj|Hj].
  - split; [by left|]. intros [?|[-> _]]; done.
  - destruct (Qle_bool t (sim i j)) eqn:E; cbn.
    + rewrite elem_of_union, elem_of_singleton. naive_solver.
    + naive_solver.
Qed.

Lemma inner_fold_removed js st i k :
  k ∈ removed (foldl (inner i) st js)
  ↔ k ∈ removed st ∨ (k ∈ js ∧ close i k).
Proof.
  revert st. induction js as [|j js IH]; intros st; simpl.
  - split; [by left|]. intros [?|[H _]]; [done|inversion H].
  - rewrite IH, inner_step_removed, elem_of_cons. naive_solver.
Qed.

Lemma outer_step_removed st i k :
  k ∈ removed (outer st i)
  ↔ k ∈ removed st
    ∨ ((i ∉ removed st) ∧ (i < k < length qs)%nat ∧ close i k).
Proof.
  unfold Dedup.outer_step.
  destruct (decide (i ∈ removed st)) as [Hi|Hi].
  - naive_solver.
  - rewrite inner_fold_removed, elem_of_seq.
    split.
    + intros [?|[? ?]]; [by left|right]. repeat split; try done; lia.
    + intros [?|(_ & ? & ?)]; [by left|right]. split; [lia|done].
Qed.

(** After the first [m] rounds of the outer loop an index is marked when,
    and only when, an unmarked index below [m] and before it is close. *)
Lemma outer_prefix_removed m k :
  let st := foldl outer Dedup.sweep_init (seq 0 m) in
  k ∈ removed st
  ↔ (k < length qs)%nat
    ∧ ∃ i, (i < m)%nat ∧ (i < k)%nat ∧ (i ∉ removed st) ∧ close i k.
Proof.
  revert k. induction m as [|m IH]; intros k; cbn zeta.
  - simpl. split; [intros H; by apply not_elem_of_empty in H|].
    intros (_ & i & Hi & _). lia.
  - rewrite seq_S, foldl_app. simpl.
    set (st := foldl outer Dedup.sweep_init (seq 0 m)) in *.
    cbn zeta in IH.
    assert (∀ i, (i ≤ m)%nat → i ∈ removed (outer st m) → i ∈ removed st)
      as Hstable.
    { intros i Hi. rewrite outer_step_removed. intros [?|(_ & ? & _)]; [done|lia]. }
    rewrite outer_step_removed. split.
    + intros [Hk|(Hm & Hk & Hc)].
      * apply IH in Hk as (Hlt & i & Him & Hik & Hi & Hc).
        split; [done|]. exists i. split; [lia|]. split; [done|].
        split; [|done]. intros H. apply Hi, Hstable; [lia|done].
      * split; [lia|]. exists m. split; [lia|]. split; [lia|].
        split; [|done]. intros H. apply Hm, Hstable; [lia|done].
    + intros (Hlt & i & Him & Hik & Hi & Hc).
      assert (i ∉ removed st) as Hi'.
      { intros H. apply Hi. rewrite outer_step_removed. by left. }
      destruct (decide (i = m)) as [->|Hne].
      * right. split; [done|]. split; [lia|done].
      * left. apply IH. split; [done|]. exists i. split; [lia|done].
Qed.

(** The marks of the sweep: an index is removed exactly when an earlier
    surviving index is close to it. *)
Lemma sweep_removed_iff k :
  let st := Dedup.sweep np_sqrt t embs qs in
  k ∈ removed st
  ↔ (k < length qs)%nat ∧ ∃ i, (i < k)%nat ∧ (i ∉ removed st) ∧ close i k.
Proof.
  cbn zeta. unfold Dedup.sweep.
  rewrite (outer_prefix_removed (length qs) k). cbn zeta.
  split; intros (Hk & i & H); split; try done; exists i;
    [naive_solver | split; [lia | naive_solver]].
Qed.

(** *** The code's loops against the sweep over all pairs *)

Local Abbreviation pstep := (Spec.pair_step np_sqrt t embs qs).

Lemma pair_row_skip js st i :
  i ∈ removed st → foldl pstep st (pair i <$> js) = st.
Proof.
  intros Hi. induction js as [|j js IH]; simpl; [done|].
  rewrite bool_decide_eq_false_2 by (intros H; by apply H). simpl. exact IH.
Qed.

Lemma pair_row_run js st i :
  i ∉ removed st → i ∉ js →
  foldl pstep st (pair i <$> js) = foldl (inner i) st js.
Proof.
  revert st. induction js as [|j js IH]; intros st Hi Hjs; [done|].
  rewrite fmap_cons. cbn [foldl].
  apply not_elem_of_cons in Hjs as [Hij Hjs].
  assert (pstep st (i, j) = inner i st j) as ->.
  { unfold Spec.pair_step, Dedup.inner_step. fold (sim i j).
    rewrite (bool_decide_eq_true_2 _ Hi). simpl.
    destruct (decide (j ∈ removed st)) as [Hj|Hj].
    - rewrite bool_decide_eq_false_2 by (intros H; by apply H). done.
    - rewrite (bool_decide_eq_true_2 _ Hj). simpl.
      destruct (Qle_bool t (sim i j)); done. }
  apply IH; [|done].
  rewrite inner_step_removed. intros [?|[? _]]; congruence.
Qed.

Lemma pair_rows_outer rows st :
  foldl pstep st
    (concat ((fun i => pair i <$> seq (S i) (length qs - S i)) <$> rows))
  = foldl outer st rows.
Proof.
  revert st. induction rows as [|i rows IH]; intros st; simpl; [done|].
  rewrite foldl_app, <- IH. f_equal.
  unfold Dedup.outer_step.
  destruct (decide (i ∈ removed st)) as [Hi|Hi].
  - by apply pair_row_skip.
  - apply pair_row_run; [done|]. rewrite elem_of_seq. lia.
Qed.

Lemma sweep_pair_sweep :
  Dedup.sweep np_sqrt t embs qs = Spec.pair_sweep np_sqrt t embs qs.
Proof.
  unfold Dedup.sweep, Spec.pair_sweep, Spec.index_pairs.
  symmetry. apply pair_rows_outer.
Qed.

End SweepFacts.

(** The list comprehension that drops the marked positions returns the
    items of the unmarked positions, by ascending position. *)
Lemma remove_indices_positions (R : gset nat) (qs : list GoldenQuestion) :
  Dedup.remove_indices R qs
  = (fun k => qs !!! k) <$> filter (fun k => k ∉ R) (seq 0 (length qs)).
Proof.
  unfold Dedup.remove_indices.
  induction qs as [|x l IH] using rev_ind; [done|].
  rewrite imap_app, filter_app, fmap_app, length_app, IH. simpl.
  rewrite Nat.add_1_r, seq_S, filter_app, fmap_app. simpl. f_equal.
  - apply list_fmap_ext. intros i k Hk.
    apply list_elem_of_lookup_2, list_elem_of_filter in Hk as [_ Hk].
    apply elem_of_seq in Hk.
    rewrite !list_lookup_total_alt, lookup_app_l by lia. done.
  - rewrite Nat.add_0_r. rewrite !filter_cons, !filter_nil. simpl.
    destruct (decide (length l ∉ R)); simpl; [|done].
    rewrite list_lookup_total_alt, lookup_app_r, Nat.sub_diag by lia. done.
Qed.

Lemma length_filter_mono {A} (P Q : A → Prop)
    `{!∀ x, Decision (P x)} `{!∀ x, Decision (Q x)} (l : list A) :
  (∀ x, x ∈ l → P x → Q x) →
  (length (filter P l) ≤ length (filter Q l))%nat.
Proof.
  induction l as [|x l IH]; intros Himp; [done|].
  rewrite !filter_cons.
  assert (length (filter P l) ≤ length (filter Q l))%nat as IH'.
  { apply IH. intros y Hy. apply Himp. by right. }
  destruct (decide (P x)) as [Hp|Hp].
  - rewrite decide_True by (apply Himp; [left|done]). simpl. lia.
  - destruct (decide (Q x)); simpl; lia.
Qed.

(** ** Semantic stage *)

(** C1 (the sweep itself).  The nested loops compute the sweep over all
    index pairs in ascending order; an index is dropped exactly when an
    earlier surviving index reaches the threshold with it; the stage
    returns the items of the surviving positions in input order.  With
    a~b and b~c at or above the threshold and a~c below it, b is dropped in
    favour of a and c is kept. *)
Theorem semantic_sweep_greedy (np_sqrt : Q -> Q) (t : Q)
    (embs : list Dedup.vec) (qs : list GoldenQuestion) :
  let st := Dedup.sweep np_sqrt t embs qs in
  let removed := Dedup.indices_to_remove st in
  let kept := Dedup.remove_indices removed qs in
  let close i k := Qle_bool t (Spec.sim np_sqrt embs i k) = true in
  st = Spec.pair_sweep np_sqrt t embs qs
  ∧ (∀ k, k ∈ removed
          ↔ (k < length qs)%nat
            ∧ ∃ i, (i < k)%nat ∧ (i ∉ removed) ∧ close i k)
  ∧ kept = (fun k => qs !!! k)
           <$> filter (fun k => k ∉ removed) (seq 0 (length qs))
  ∧ (∀ client model,
        Dedup._generate_embeddings (question <$> qs) client model
        = Return embs →
        Dedup.semantic_stage np_sqrt t client model qs
        = Return (kept, Dedup.semantic_duplicates st))
  ∧ (∀ a b c, qs = [a; b; c] →
        close 0%nat 1%nat → close 1%nat 2%nat → ¬ close 0%nat 2%nat →
        kept = [a; c]).
Proof.
  intros st removed kept close.
  assert (∀ k, k ∈ removed
          ↔ (k < length qs)%nat
            ∧ ∃ i, (i < k)%nat ∧ (i ∉ removed) ∧ close i k) as Hiff.
  { intros k. apply (sweep_removed_iff np_sqrt t embs qs k). }
  split; [apply sweep_pair_sweep|].
  split; [exact Hiff|].
  split; [apply remove_indices_positions|].
  split.
  - intros client model Hgen. unfold Dedup.semantic_stage.
    rewrite Hgen. reflexivity.
  - intros a b c -> H01 H12 H02.
    assert (0%nat ∉ removed) as H0.
    { rewrite Hiff. intros (_ & i & Hi & _). lia. }
    assert (1%nat ∈ removed) as H1.
    { rewrite Hiff. split; [simpl; lia|]. exists 0%nat. split; [lia|done]. }
    assert (2%nat ∉ removed) as H2.
    { rewrite Hiff. intros (_ & i & Hi & Hsurv & Hc).
      destruct i as [|[|i]]; [done|done|lia]. }
    unfold kept. rewrite remove_indices_positions. simpl.
    rewrite !filter_cons, filter_nil.
    rewrite (decide_True _ _ H0), (decide_True _ _ H2).
    rewrite decide_False by (intros H; by apply H). done.
Qed.

(** The hypotheses of the chain case hold for three unit-length-comparable
    vectors with a~b = 3/5, b~c = 4/5 and a~c = 0 at threshold 1/2. *)
Lemma semantic_sweep_greedy_witness :
  Dedup.remove_indices
    (Dedup.indices_to_remove
       (Dedup.sweep Examples.sqrt_exact (1 # 2)
          [[1; 0]; [3; 4]; [0; 1]]%Q
          [Examples.qa; Examples.qb; Examples.qc]))
    [Examples.qa; Examples.qb; Examples.qc]
  = [Examples.qa; Examples.qc].
Proof.
  apply (proj2 (proj2 (proj2 (proj2
           (semantic_sweep_greedy Examples.sqrt_exact (1 # 2)
              [[1; 0]; [3; 4]; [0; 1]]%Q
              [Examples.qa; Examples.qb; Examples.qc]))))
           Examples.qa Examples.qb Examples.qc).
  - reflexivity.
  - vm_compute. reflexivity.
  - vm_compute. reflexivity.
  - vm_compute. discriminate.
Defined.

(** C1 as stated fails on the chain a~b, b~c, not a~c: the third question
    is not dropped. *)
Lemma chain_third_survives :
  let embs := [[1; 0]; [3; 4]; [0; 1]]%Q in
  let sim := Spec.sim Examples.sqrt_exact embs in
  Qle_bool (1 # 2) (sim 0%nat 1%nat) = true
  ∧ Qle_bool (1 # 2) (sim 1%nat 2%nat) = true
  ∧ Qle_bool (1 # 2) (sim 0%nat 2%nat) = false
  ∧ Examples.dedup [Examples.qa; Examples.qb; Examples.qc] (1 # 2)
      Examples.chain_table
    = Return [Examples.qa; Examples.qc]
  ∧ ¬ (∀ kept,
         Examples.dedup [Examples.qa; Examples.qb; Examples.qc] (1 # 2)
           Examples.chain_table = Return kept →
         (Examples.qb ∉ kept) ∧ (Examples.qc ∉ kept)).
Proof.
  cbn zeta.
  assert (Examples.dedup [Examples.qa; Examples.qb; Examples.qc] (1 # 2)
            Examples.chain_table = Return [Examples.qa; Examples.qc]) as E.
  { vm_compute. reflexivity. }
  repeat split; try (vm_compute; reflexivity).
  intros H. destruct (H _ E) as [_ Hc]. apply Hc.
  right. left.
Qed.

(** The embedding helper only ever raises [RuntimeError]. *)
Lemma generate_embeddings_raises texts client model e :
  Dedup._generate_embeddings texts client model = Raise e →
  ∃ m, e = RuntimeError m.
Proof.
  unfold Dedup._generate_embeddings. destruct texts as [|x texts]; [done|].
  destruct (Dedup.embed_all client model 0 (x :: texts)) as [embs|e'].
  - destruct (Dedup.np_array embs); [done|]. intros [= <-]. eauto.
  - intros [= <-]. eauto.
Qed.

Lemma Qle_bool_trans a b c :
  Qle_bool a b = true → Qle_bool b c = true → Qle_bool a c = true.
Proof. rewrite !Qle_bool_iff. apply Qle_trans. Qed.

(** The embedding matrix has one row per text. *)
Lemma embed_all_length client model texts :
  ∀ n embs,
    Dedup.embed_all client model n texts = Return embs →
    length embs = length texts.
Proof.
  induction texts as [|x texts IH]; intros n embs; simpl.
  - by intros [= <-].
  - destruct (client n x model) as [v|]; [|done].
    destruct (Dedup.embed_all client model (S n) texts) as [vs|] eqn:E;
      [|done].
    intros [= <-]. simpl. f_equal. by eapply IH.
Qed.

Lemma generate_embeddings_length texts client model embs :
  Dedup._generate_embeddings texts client model = Return embs →
  length embs = length texts.
Proof.
  unfold Dedup._generate_embeddings. destruct texts as [|x texts].
  - by intros [= <-].
  - destruct (Dedup.embed_all client model 0 (x :: texts)) as [vs|] eqn:E;
      [|done].
    apply embed_all_length in E.
    unfold Dedup.np_array. destruct vs as [|v vs]; [done|].
    destruct (forallb _ _); [|done]. by intros [= <-].
Qed.

(** With a transitive similarity at the lower threshold, every index the
    higher threshold drops is dropped by the lower one as well. *)
Lemma sweep_removed_antitone (np_sqrt : Q -> Q) (t1 t2 : Q)
    (embs : list Dedup.vec) (qs : list GoldenQuestion) (k : nat) :
  Qle_bool t1 t2 = true →
  length embs = length qs →
  Spec.transitive_at np_sqrt t1 embs →
  k ∈ Dedup.indices_to_remove (Dedup.sweep np_sqrt t2 embs qs) →
  k ∈ Dedup.indices_to_remove (Dedup.sweep np_sqrt t1 embs qs).
Proof.
  intros Ht Hlen Htrans Hk.
  apply (sweep_removed_iff np_sqrt t2 embs qs k) in Hk
    as (Hlt & i & Hik & _ & Hc).
  pose proof (Qle_bool_trans _ _ _ Ht Hc) as Hc1.
  destruct (decide (i ∈ Dedup.indices_to_remove
                          (Dedup.sweep np_sqrt t1 embs qs))) as [Hi|Hi].
  - apply (sweep_removed_iff np_sqrt t1 embs qs i) in Hi
      as (_ & i' & Hi'i & Hi' & Hc').
    apply (sweep_removed_iff np_sqrt t1 embs qs k).
    split; [done|]. exists i'. split; [lia|]. split; [done|].
    apply (Htrans i' i k); [done|done|lia|done|done].
  - apply (sweep_removed_iff np_sqrt t1 embs qs k).
    split; [done|]. by exists i.
Qed.

(** C2 (amended).  When similarity at the lower threshold is transitive
    on the questions that survive the exact-match stage, deduplicating with
    the higher of two valid thresholds keeps at least as many questions. *)
Theorem dedup_monotone_when_transitive
    (py_lower : str -> str) (py_isalnum : char -> bool) (np_sqrt : Q -> Q)
    (questions : list GoldenQuestion) (out : option str)
    (client : Dedup.embedding_client) (model : str) (t1 t2 : Q)
    (fs : filesystem) :
  (0 <= t1)%Q → (t1 < t2)%Q → (t2 <= 1)%Q →
  (∀ embs,
     Dedup._generate_embeddings
       (question <$> Dedup.deduplicated
                       (Dedup.exact_stage py_lower py_isalnum questions))
       client model = Return embs →
     Spec.transitive_at np_sqrt t1 embs) →
  ∃ l1 l2,
    (Dedup.deduplicate_questions py_lower py_isalnum np_sqrt questions out
       true t1 (Some client) (Some model) fs).1 = Return l1
    ∧ (Dedup.deduplicate_questions py_lower py_isalnum np_sqrt questions out
         true t2 (Some client) (Some model) fs).1 = Return l2
    ∧ (length l1 ≤ length l2)%nat.
Proof.
  intros H0 H12 H1 Htrans.
  assert (Qle_bool t1 t2 = true) as Hle
    by (apply Qle_bool_iff, Qlt_le_weak, H12).
  assert (Qle_bool 0 t1 = true) as V1 by by apply Qle_bool_iff.
  assert (Qle_bool t1 1 = true) as V2.
  { apply Qle_bool_iff. eapply Qle_trans; [apply Qlt_le_weak, H12|done]. }
  assert (Qle_bool 0 t2 = true) as V3.
  { apply Qle_bool_iff. eapply Qle_trans; [exact H0|apply Qlt_le_weak, H12]. }
  assert (Qle_bool t2 1 = true) as V4 by by apply Qle_bool_iff.
  unfold Dedup.deduplicate_questions. rewrite V1, V2, V3, V4. simpl.
  destruct questions as [|q0 questions]; [by exists [], []|].
  set (st := Dedup.exact_stage py_lower py_isalnum (q0 :: questions)) in *.
  destruct (decide (1 < length (Dedup.deduplicated st))%nat) as [Hlen|Hlen].
  2:{ exists (Dedup.deduplicated st), (Dedup.deduplicated st).
      repeat split; destruct out as [[|]|]; done. }
  unfold Dedup.semantic_stage.
  destruct (Dedup._generate_embeddings (question <$> Dedup.deduplicated st)
              client model) as [embs|e] eqn:Hgen.
  - eexists _, _. split; [|split].
    + destruct out as [[|]|]; reflexivity.
    + destruct out as [[|]|]; reflexivity.
    + rewrite !remove_indices_positions, !length_fmap.
      apply length_filter_mono. intros k _ Hk1 Hk2. apply Hk1.
      eapply sweep_removed_antitone;
        [exact Hle | | apply Htrans; reflexivity | exact Hk2].
      apply generate_embeddings_length in Hgen.
      by rewrite length_fmap in Hgen.
  - apply generate_embeddings_raises in Hgen as [m ->].
    exists (Dedup.deduplicated st), (Dedup.deduplicated st).
    repeat split; destruct out as [[|]|]; done.
Qed.

(** The hypotheses of C2 hold for four questions of which the first three
    are similar to one another at the level 7/10 (a~b and b~c hold there,
    and so does a~c, as the hypothesis asks) while the fourth is similar
    to none of them.  The threshold 7/10 keeps two questions, the
    threshold 9/10 keeps three. *)
Lemma dedup_monotone_when_transitive_witness :
  let qs := [Examples.qa; Examples.qb; Examples.qc; Examples.qd] in
  let embs := [[1; 0]; [4; 3]; [12; 5]; [0; 1]]%Q in
  Examples.dedup qs (7 # 10) Examples.nested_table
  = Return [Examples.qa; Examples.qd]
  ∧ Examples.dedup qs (9 # 10) Examples.nested_table
    = Return [Examples.qa; Examples.qb; Examples.qd]
  ∧ Qle_bool (7 # 10) (Spec.sim Examples.sqrt_exact embs 0 1) = true
  ∧ Qle_bool (7 # 10) (Spec.sim Examples.sqrt_exact embs 1 2) = true
  ∧ Qle_bool (7 # 10) (Spec.sim Examples.sqrt_exact embs 0 2) = true
  ∧ ∃ l1 l2,
      (Dedup.deduplicate_questions Examples.latin1_lower
         Examples.latin1_isalnum Examples.sqrt_exact
         [Examples.qa; Examples.qb; Examples.qc; Examples.qd] None true
         (7 # 10) (Some (Examples.table_client Examples.nested_table))
         (Some (u "nomic-embed-text")) ∅).1 = Return l1
      ∧ (Dedup.deduplicate_questions Examples.latin1_lower
           Examples.latin1_isalnum Examples.sqrt_exact
           [Examples.qa; Examples.qb; Examples.qc; Examples.qd] None true
           (9 # 10) (Some (Examples.table_client Examples.nested_table))
           (Some (u "nomic-embed-text")) ∅).1 = Return l2
      ∧ (length l1 ≤ length l2)%nat.
Proof.
  cbn zeta.
  split; [vm_compute; reflexivity|].
  split; [vm_compute; reflexivity|].
  split; [vm_compute; reflexivity|].
  split; [vm_compute; reflexivity|].
  split; [vm_compute; reflexivity|].
  apply (dedup_monotone_when_transitive Examples.latin1_lower
           Examples.latin1_isalnum Examples.sqrt_exact
           [Examples.qa; Examples.qb; Examples.qc; Examples.qd] None
           (Examples.table_client Examples.nested_table)
           (u "nomic-embed-text") (7 # 10) (9 # 10) ∅).
  - vm_compute. discriminate.
  - vm_compute. reflexivity.
  - vm_compute. discriminate.
  - intros embs Hgen. vm_compute in Hgen. injection Hgen as <-.
    intros i j k Hij Hjk Hk. simpl in Hk.
    destruct i as [|[|[|[|i]]]]; destruct j as [|[|[|[|j]]]];
      destruct k as [|[|[|[|k]]]]; try lia;
      vm_compute; intros; congruence.
Defined.

(** C2 as stated fails: four questions on which the higher threshold
    keeps two and the lower threshold keeps three. *)
Lemma higher_threshold_keeps_fewer :
  let qs := [Examples.qa; Examples.qb; Examples.qc; Examples.qd] in
  (0 <= 1 # 2)%Q ∧ (1 # 2 < 7 # 10)%Q ∧ (7 # 10 <= 1)%Q
  ∧ Examples.dedup qs (1 # 2) Examples.star_table
    = Return [Examples.qa; Examples.qc; Examples.qd]
  ∧ Examples.dedup qs (7 # 10) Examples.star_table
    = Return [Examples.qa; Examples.qb]
  ∧ ¬ (∀ l1 l2,
         Examples.dedup qs (1 # 2) Examples.star_table = Return l1 →
         Examples.dedup qs (7 # 10) Examples.star_table = Return l2 →
         (length l1 ≤ length l2)%nat).
Proof.
  cbn zeta.
  assert (Examples.dedup
            [Examples.qa; Examples.qb; Examples.qc; Examples.qd] (1 # 2)
            Examples.star_table
          = Return [Examples.qa; Examples.qc; Examples.qd]) as E1
    by (vm_compute; reflexivity).
  assert (Examples.dedup
            [Examples.qa; Examples.qb; Examples.qc; Examples.qd] (7 # 10)
            Examples.star_table
          = Return [Examples.qa; Examples.qb]) as E2
    by (vm_compute; reflexivity).
  split; [vm_compute; discriminate|].
  split; [vm_compute; reflexivity|].
  split; [vm_compute; discriminate|].
  split; [exact E1|]. split; [exact E2|].
  intros H. specialize (H _ _ E1 E2). simpl in H. lia.
Qed.

(** A failing call of the back end makes the embedding helper raise. *)
Lemma embed_all_raises client model texts :
  ∀ n k text e,
    texts !! k = Some text →
    client (n + k)%nat text model = Raise e →
    ∃ e', Dedup.embed_all client model n texts = Raise e'.
Proof.
  induction texts as [|x texts IH]; intros n k text e Hk Hc; [done|].
  simpl. destruct k as [|k].
  - injection Hk as ->. rewrite Nat.add_0_r in Hc. rewrite Hc. eauto.
  - destruct (client n x model); [|eauto].
    destruct (IH (S n) k text e Hk) as [e' ->]; [|eauto].
    by rewrite Nat.add_succ_comm.
Qed.

Lemma generate_embeddings_fails_with_client texts client model k text e :
  texts !! k = Some text →
  client k text model = Raise e →
  ∃ m, Dedup._generate_embeddings texts client model = Raise (RuntimeError m).
Proof.
  intros Hk Hc. unfold Dedup._generate_embeddings.
  destruct texts as [|x texts]; [done|].
  destruct (embed_all_raises client model (x :: texts) 0 k text e Hk Hc)
    as [e' ->].
  eauto.
Qed.

(** C8.  When embedding generation raises during the semantic stage,
    [deduplicate_questions] does not raise: it returns what the exact-match
    stage kept, and it logs the exact-match duplicates only, exactly as a
    run with the semantic stage switched off. *)
Theorem embedding_failure_falls_back
    (py_lower : str -> str) (py_isalnum : char -> bool) (np_sqrt : Q -> Q)
    (questions : list GoldenQuestion) (out : option str) (t : Q)
    (client : Dedup.embedding_client) (model : str) (fs : filesystem)
    (e : exn) :
  (0 <= t)%Q → (t <= 1)%Q →
  Dedup._generate_embeddings
    (question <$> Dedup.deduplicated
                    (Dedup.exact_stage py_lower py_isalnum questions))
    client model = Raise e →
  let exact := Dedup.exact_stage py_lower py_isalnum questions in
  let run use_semantic :=
    Dedup.deduplicate_questions py_lower py_isalnum np_sqrt questions out
      use_semantic t (Some client) (Some model) fs in
  run true = run false
  ∧ (run true).1 = Return (Dedup.deduplicated exact)
  ∧ (run true).2
    = match out, Dedup.duplicates exact with
      | Some (c :: path), d :: ds =>
          Dedup.save_dropped_duplicates py_lower py_isalnum (d :: ds)
            (c :: path) fs
      | _, _ => fs
      end.
Proof.
  intros H0 H1 Hgen exact run. unfold run, Dedup.deduplicate_questions.
  apply Qle_bool_iff in H0, H1. rewrite H0, H1. simpl.
  destruct questions as [|q0 questions]; [done|].
  fold exact. unfold Dedup.semantic_stage. fold exact in Hgen.
  rewrite Hgen.
  apply generate_embeddings_raises in Hgen as [m ->].
  destruct (decide (1 < length (Dedup.deduplicated exact))%nat);
    (split; [reflexivity|]); (split; [reflexivity|]);
    destruct out as [[|c path]|], (Dedup.duplicates exact); reflexivity.
Qed.

(** The hypotheses of C8 hold for two different questions and a back end
    that refuses every call. *)
Lemma embedding_failure_falls_back_witness :
  (Dedup.deduplicate_questions Examples.latin1_lower Examples.latin1_isalnum
     Examples.sqrt_exact [Examples.qa; Examples.qb] None true (92 # 100)
     (Some (Examples.table_client [])) (Some (u "nomic-embed-text")) ∅).1
  = Return [Examples.qa; Examples.qb].
Proof.
  refine (proj1 (proj2
    (embedding_failure_falls_back Examples.latin1_lower
       Examples.latin1_isalnum Examples.sqrt_exact
       [Examples.qa; Examples.qb] None (92 # 100)
       (Examples.table_client []) (u "nomic-embed-text") ∅
       (RuntimeError
          (u "Embedding generation failed: " ++ u "connection refused"))
       _ _ _))).
  - vm_compute. discriminate.
  - vm_compute. discriminate.
  - vm_compute. reflexivity.
Defined.

(** ** Filter extraction *)

Section FilterFacts.

Import Extractor.

Lemma py_eq_refl_hashable k : hashable k = true → py_eq k k = true.
Proof.
  destruct k as [|b|z|s|l|d]; simpl; try done; intros _.
  - by destruct b.
  - apply Z.eqb_refl.
  - by apply bool_decide_eq_true_2.
Qed.

Lemma py_eq_JStr_r k s : py_eq k (JStr s) = true → k = JStr s.
Proof.
  destruct k; simpl; try done. intros H. by apply bool_decide_eq_true_1 in H as ->.
Qed.

Lemma py_eq_JStr_l k s : py_eq (JStr s) k = true → k = JStr s.
Proof.
  destruct k; simpl; try done. intros H. by apply bool_decide_eq_true_1 in H as ->.
Qed.

Lemma py_in_JStr s l : py_in (JStr s) l = true → JStr s ∈ l.
Proof.
  unfold py_in. induction l as [|x l IH]; simpl; [done|].
  intros [H|H]%orb_true_iff.
  - apply py_eq_JStr_l in H as ->. left.
  - right. by apply IH.
Qed.

Lemma py_in_app_l o l x : py_in o l = true → py_in o (l ++ [x]) = true.
Proof. unfold py_in. rewrite existsb_app. intros ->. done. Qed.

Lemma py_in_app_r o l x : py_eq o x = true → py_in o (l ++ [x]) = true.
Proof.
  unfold py_in. rewrite existsb_app. simpl. intros ->.
  by rewrite orb_true_r.
Qed.

Lemma py_in_false o l i x :
  py_in o l = false → l !! i = Some x → py_eq o x = false.
Proof.
  unfold py_in. revert i. induction l as [|y l IH]; intros i; [done|].
  simpl. intros [H1 H2]%orb_false_iff. destruct i as [|i]; simpl.
  - by intros [= <-].
  - by apply IH.
Qed.

Lemma py_distinct_snoc l x :
  Spec.py_distinct l → py_in x l = false → Spec.py_distinct (l ++ [x]).
Proof.
  intros Hl Hx i j a b Hij Ha Hb.
  destruct (decide (j < length l)%nat) as [Hj|Hj].
  - rewrite lookup_app_l in Ha, Hb by lia. exact (Hl i j a b Hij Ha Hb).
  - rewrite lookup_app_r in Hb by lia.
    apply list_lookup_singleton_Some in Hb as [Hz <-].
    rewrite lookup_app_l in Ha by lia. exact (py_in_false _ _ _ _ Hx Ha).
Qed.

Lemma py_distinct_nil : Spec.py_distinct [].
Proof. intros i j a b _ H. done. Qed.

(** *** The insertion-ordered dictionary *)

Lemma filters_get_elem k f v :
  filters_get k f = Some v → ∃ k1, (k1, v) ∈ f ∧ py_eq k k1 = true.
Proof.
  induction f as [|[k' v'] f IH]; simpl; [done|].
  destruct (py_eq k k') eqn:E.
  - intros [= <-]. exists k'. split; [left|done].
  - intros H. destruct (IH H) as (k1 & ? & ?). exists k1. split; [by right|done].
Qed.

Lemma filters_get_none k f k1 v1 :
  filters_get k f = None → (k1, v1) ∈ f → py_eq k k1 = false.
Proof.
  induction f as [|[k' v'] f IH]; simpl; [by inversion 2|].
  destruct (py_eq k k') eqn:E; [done|].
  intros H [[= -> ->]|Hin]%elem_of_cons; [done|]. by apply IH.
Qed.

Lemma filters_set_elem k v f k1 v1 :
  (k1, v1) ∈ filters_set k v f →
  (k1, v1) ∈ f ∨ (v1 = v ∧ (k1 = k ∨ py_eq k k1 = true)).
Proof.
  induction f as [|[k' v'] f IH]; simpl.
  - intros [= -> ->]%list_elem_of_singleton. right. split; [done|by left].
  - destruct (py_eq k k') eqn:E.
    + intros [[= -> ->]|Hin]%elem_of_cons.
      * right. split; [done|by right].
      * left. by right.
    + intros [[= -> ->]|Hin]%elem_of_cons.
      * left. left.
      * destruct (IH Hin) as [?|?]; [left; by right|by right].
Qed.

Lemma filters_set_preserve k v f k1 v1 :
  (k1, v1) ∈ f →
  (k1, v1) ∈ filters_set k v f
  ∨ ((k1, v) ∈ filters_set k v f ∧ filters_get k f = Some v1).
Proof.
  induction f as [|[k' v'] f IH]; simpl; [by inversion 1|].
  destruct (py_eq k k') eqn:E.
  - intros [[= -> ->]|Hin]%elem_of_cons.
    + right. split; [left|done].
    + left. by right.
  - intros [[= -> ->]|Hin]%elem_of_cons.
    + left. left.
    + destruct (IH Hin) as [?|[? ?]]; [left; by right|].
      right. split; [by right|done].
Qed.

Lemma filters_set_get k v f :
  hashable k = true → filters_get k (filters_set k v f) = Some v.
Proof.
  intros Hk. induction f as [|[k' v'] f IH]; simpl.
  - by rewrite py_eq_refl_hashable.
  - destruct (py_eq k k') eqn:E; simpl; by rewrite E.
Qed.

Lemma filters_set_keys_some k v f v0 :
  filters_get k f = Some v0 → (filters_set k v f).*1 = f.*1.
Proof.
  induction f as [|[k' v'] f IH]; cbn [filters_get filters_set]; [done|].
  destruct (py_eq k k') eqn:E; [done|].
  intros H. rewrite !fmap_cons. f_equal. by apply IH.
Qed.

Lemma filters_set_keys_none k v f :
  filters_get k f = None → (filters_set k v f).*1 = f.*1 ++ [k].
Proof.
  induction f as [|[k' v'] f IH]; cbn [filters_get filters_set]; [done|].
  destruct (py_eq k k') eqn:E; [done|].
  intros H. rewrite !fmap_cons. cbn [app]. f_equal. by apply IH.
Qed.

Lemma correction_lookup o :
  default o (DOCUMENT_TYPE_CORRECTIONS !! o) = Spec.corrected o.
Proof.
  unfold DOCUMENT_TYPE_CORRECTIONS, Spec.corrected.
  destruct (decide (o = Arsrapprt)) as [->|Hne].
  - rewrite lookup_singleton_eq. by rewrite bool_decide_eq_true_2.
  - rewrite lookup_singleton_ne by done. by rewrite bool_decide_eq_false_2.
Qed.

Lemma corrected_not_typo o : Spec.corrected o ≠ Arsrapprt.
Proof.
  unfold Spec.corrected. case_bool_decide as H; [|done].
  vm_compute. discriminate.
Qed.

End FilterFacts.

Section FilterInvariant.

Import Extractor.

Local Abbreviation inv := Spec.filters_inv.
Local Abbreviation type_key := Spec.type_key.

Lemma inv_init : inv [] {| fs_filters := []; fs_warnings := [] |}.
Proof.
  split; simpl; try (intros; exfalso; eapply not_elem_of_nil; eassumption).
  apply py_distinct_nil.
Qed.

Lemma filters_get_none_keys k f :
  filters_get k f = None → py_in k f.*1 = false.
Proof.
  induction f as [|[k' v'] f IH]; cbn [filters_get]; [done|].
  destruct (py_eq k k') eqn:E; [done|]. intros H.
  rewrite fmap_cons. unfold py_in in *. simpl. rewrite E. by apply IH.
Qed.

(** A field seen for the first time gets an empty list. *)
Lemma inv_create sel st k :
  inv sel st → filters_get k (fs_filters st) = None →
  inv sel {| fs_filters := filters_set k [] (fs_filters st);
             fs_warnings := fs_warnings st |}.
Proof.
  intros [Ht Hv Hk Hty Hw Ho] Hnone. split; simpl.
  - intros k1 v1 [Hin|[-> _]]%filters_set_elem; [by eapply Ht|].
    intros _ H. inversion H.
  - intros k1 v1 [Hin|[-> _]]%filters_set_elem; [by eapply Hv|].
    apply py_distinct_nil.
  - rewrite filters_set_keys_none by done.
    apply py_distinct_snoc; [done|]. by apply filters_get_none_keys.
  - intros k1 o Hin Hty1. destruct (Hty k1 o Hin Hty1) as (vals & Hvals & Hc).
    exists vals. split; [|done].
    destruct (filters_set_preserve k [] _ _ _ Hvals) as [?|[_ ?]];
      [done|congruence].
  - done.
  - intros k1 o Hin Hne. destruct (Ho k1 o Hin Hne) as (k' & vals & Hvals & ? & ?).
    exists k', vals. split; [|done].
    destruct (filters_set_preserve k [] _ _ _ Hvals) as [?|[_ ?]];
      [done|congruence].
Qed.

(** Appending a value that the list does not hold yet. *)
Lemma inv_append sel st k cur x w :
  inv sel st → filters_get k (fs_filters st) = Some cur →
  py_in x cur = false →
  (py_eq k type_key = true → x ≠ JStr Arsrapprt) →
  inv sel {| fs_filters := filters_set k (cur ++ [x]) (fs_filters st);
             fs_warnings := fs_warnings st ++ w |}.
Proof.
  intros [Ht Hv Hk Hty Hw Ho] Hget Hx Hxt.
  destruct (filters_get_elem _ _ _ Hget) as (k2 & Hk2 & Hkk2).
  split; simpl.
  - intros k1 v1 [Hin|[-> Hk1]]%filters_set_elem Hty1; [by eapply Ht|].
    apply py_eq_JStr_r in Hty1 as ->.
    assert (k = type_key) as ->.
    { destruct Hk1 as [<-|H]; [done|]. by apply py_eq_JStr_r in H. }
    apply py_eq_JStr_l in Hkk2 as ->.
    rewrite elem_of_app, list_elem_of_singleton. intros [H|H].
    + by apply (Ht _ _ Hk2).
    + by apply Hxt.
  - intros k1 v1 [Hin|[-> _]]%filters_set_elem; [by eapply Hv|].
    apply py_distinct_snoc; [by eapply Hv|done].
  - by rewrite (filters_set_keys_some _ _ _ _ Hget).
  - intros k1 o Hin Hty1. destruct (Hty k1 o Hin Hty1) as (vals & Hvals & Hc).
    destruct (filters_set_preserve k (cur ++ [x]) _ _ _ Hvals) as [?|[? E]].
    + by exists vals.
    + exists (cur ++ [x]). split; [done|].
      rewrite Hget in E. injection E as ->. apply elem_of_app. by left.
  - intros k1 o Hin Hty1 Hun. apply elem_of_app. left. by eapply Hw.
  - intros k1 o Hin Hne.
    destruct (Ho k1 o Hin Hne) as (k' & vals & Hvals & Hkk' & Hc).
    destruct (filters_set_preserve k (cur ++ [x]) _ _ _ Hvals) as [?|[? E]].
    + by exists k', vals.
    + exists k', (cur ++ [x]). split; [done|]. split; [done|].
      rewrite Hget in E. injection E as ->.
      destruct Hc as [Hc|Hc]; [left; apply elem_of_app; by left|].
      right. by apply py_in_app_l.
Qed.

(** Logging alone. *)
Lemma inv_log sel st w :
  inv sel st →
  inv sel {| fs_filters := fs_filters st; fs_warnings := fs_warnings st ++ w |}.
Proof.
  intros [Ht Hv Hk Hty Hw Ho]. split; simpl; try done.
  intros k1 o Hin Hty1 Hun. apply elem_of_app. left. by eapply Hw.
Qed.

(** One more selection has been read. *)
Lemma inv_extend sel st k o :
  inv sel st →
  (∀ s, o = JStr s → py_eq k type_key = true →
        (∃ vals, (type_key, vals) ∈ fs_filters st
                 ∧ JStr (Spec.corrected s) ∈ vals)
        ∧ (Spec.corrected s ∉ KNOWN_DOCUMENT_TYPES →
           unknown_type_warning (Spec.corrected s) ∈ fs_warnings st)) →
  (py_eq k type_key = false →
   ∃ k' vals, (k', vals) ∈ fs_filters st
              ∧ py_eq k k' = true ∧ (o ∈ vals ∨ py_in o vals = true)) →
  inv (sel ++ [(k, o)]) st.
Proof.
  intros [Ht Hv Hk Hty Hw Ho] Hnew1 Hnew2. split; try done.
  - intros k1 o1 [Hin|[= -> <-]%list_elem_of_singleton]%elem_of_app Hty1;
      [by eapply Hty|]. by apply (Hnew1 o1).
  - intros k1 o1 [Hin|[= -> <-]%list_elem_of_singleton]%elem_of_app Hty1;
      [by eapply Hw|]. by apply (Hnew1 o1).
  - intros k1 o1 [Hin|[= -> ->]%list_elem_of_singleton]%elem_of_app Hne;
      [by eapply Ho|]. by apply Hnew2.
Qed.

Lemma type_option_step_inv sel st o cur :
  inv sel st → filters_get type_key (fs_filters st) = Some cur →
  inv (sel ++ [(type_key, o)]) (type_option_step type_key st o)
  ∧ ∃ cur', filters_get type_key
              (fs_filters (type_option_step type_key st o)) = Some cur'.
Proof.
  intros Hinv Hget.
  destruct o as [| | |s| |];
    try (split; [|by exists cur]; apply inv_extend; [done|done|done]).
  unfold type_option_step. rewrite correction_lookup, Hget. simpl.
  set (c := Spec.corrected s).
  set (w := if bool_decide (c ∈ KNOWN_DOCUMENT_TYPES) then []
            else [unknown_type_warning c]).
  assert ((if bool_decide (c ∈ KNOWN_DOCUMENT_TYPES) then fs_warnings st
           else fs_warnings st ++ [unknown_type_warning c])
          = fs_warnings st ++ w) as ->.
  { unfold w. destruct (bool_decide _); [by rewrite app_nil_r|done]. }
  assert (c ∉ KNOWN_DOCUMENT_TYPES →
          unknown_type_warning c ∈ fs_warnings st ++ w) as Hwarn.
  { intros Hun. unfold w. rewrite bool_decide_eq_false_2 by done.
    apply elem_of_app. right. left. }
  destruct (py_in (JStr c) cur) eqn:Hin.
  - split; [|by exists cur].
    apply inv_extend; [by apply inv_log| |done].
    intros s' [= <-] _. split; [|done]. simpl.
    destruct (filters_get_elem _ _ _ Hget) as (k2 & Hk2 & Hkk2).
    apply py_eq_JStr_l in Hkk2 as ->.
    exists cur. split; [done|]. by apply py_in_JStr.
  - split.
    + apply inv_extend.
      * apply inv_append; [done|done|done|].
        intros _ [= H]. by apply (corrected_not_typo s).
      * intros s' [= <-] _. split; [|done]. simpl.
        assert (filters_get type_key
                  (filters_set type_key (cur ++ [JStr c]) (fs_filters st))
                = Some (cur ++ [JStr c])) as Hnew
          by by apply filters_set_get.
        destruct (filters_get_elem _ _ _ Hnew) as (k2 & Hk2 & Hkk2).
        apply py_eq_JStr_l in Hkk2 as ->.
        exists (cur ++ [JStr c]). split; [done|].
        apply elem_of_app. right. left.
      * done.
    + simpl. exists (cur ++ [JStr c]). by apply filters_set_get.
Qed.

Lemma other_option_step_inv sel st k o cur :
  inv sel st → hashable k = true → py_eq k type_key = false →
  filters_get k (fs_filters st) = Some cur →
  inv (sel ++ [(k, o)]) (other_option_step k st o)
  ∧ ∃ cur', filters_get k (fs_filters (other_option_step k st o)) = Some cur'.
Proof.
  intros Hinv Hk Hne Hget. unfold other_option_step. rewrite Hget. simpl.
  destruct (py_in o cur) eqn:Hin.
  - split; [|by exists cur].
    apply inv_extend; [done| |].
    + intros s _ E. congruence.
    + intros _. destruct (filters_get_elem _ _ _ Hget) as (k2 & Hk2 & Hkk2).
      exists k2, cur. split; [done|]. split; [done|]. by right.
  - split.
    + apply inv_extend.
      * rewrite <- (app_nil_r (fs_warnings st)).
        apply inv_append; [done|done|done|]. intros E. congruence.
      * intros s _ E. congruence.
      * intros _. simpl.
        assert (filters_get k (filters_set k (cur ++ [o]) (fs_filters st))
                = Some (cur ++ [o])) as Hnew by by apply filters_set_get.
        destruct (filters_get_elem _ _ _ Hnew) as (k2 & Hk2 & Hkk2).
        exists k2, (cur ++ [o]). split; [done|]. split; [done|].
        left. apply elem_of_app. right. left.
    + simpl. exists (cur ++ [o]). by apply filters_set_get.
Qed.

(** The two option loops. *)
Lemma type_options_inv options sel st cur :
  inv sel st → filters_get type_key (fs_filters st) = Some cur →
  inv (sel ++ (pair type_key <$> options))
    (foldl (type_option_step type_key) st options).
Proof.
  revert sel st cur. induction options as [|o options IH];
    intros sel st cur Hinv Hget; simpl.
  - by rewrite app_nil_r.
  - destruct (type_option_step_inv sel st o cur Hinv Hget)
      as [Hinv' [cur' Hget']].
    rewrite (cons_middle _ sel), app_assoc. by eapply IH.
Qed.

Lemma other_options_inv options sel st k cur :
  inv sel st → hashable k = true → py_eq k type_key = false →
  filters_get k (fs_filters st) = Some cur →
  inv (sel ++ (pair k <$> options)) (foldl (other_option_step k) st options).
Proof.
  revert sel st cur. induction options as [|o options IH];
    intros sel st cur Hinv Hk Hne Hget; simpl.
  - by rewrite app_nil_r.
  - destruct (other_option_step_inv sel st k o cur Hinv Hk Hne Hget)
      as [Hinv' [cur' Hget']].
    rewrite (cons_middle _ sel), app_assoc. by eapply IH.
Qed.

(** One field of a [filterValue]. *)
Lemma field_step_inv field sel st :
  inv sel st →
  (∀ k o, (k, o) ∈ Spec.field_selections field → hashable k = true) →
  ∃ st', field_step (Return st) field = Return st'
         ∧ inv (sel ++ Spec.field_selections field) st'.
Proof.
  intros Hinv Hhash. unfold field_step, Spec.field_selections in *.
  destruct field as [| | | | |d];
    try (exists st; split; [done|by rewrite app_nil_r]).
  set (k := default JNull (dict_get (u "field") d)) in *.
  destruct (default (JArr []) (dict_get (u "selected-options") d))
    as [| | | |[|o os]|];
    try (exists st; split; [done|by rewrite app_nil_r]).
  { exists st. split; [done|]. destruct (truthy k); by rewrite app_nil_r. }
  destruct (truthy k) eqn:Htr;
    [|exists st; split; [done|by rewrite app_nil_r]].
  assert (hashable k = true) as Hk by (apply (Hhash k o); left).
  rewrite Hk.
  set (st1 := if filters_get k (fs_filters st) is None
              then {| fs_filters := filters_set k [] (fs_filters st);
                      fs_warnings := fs_warnings st |}
              else st).
  assert (inv sel st1 ∧ ∃ cur, filters_get k (fs_filters st1) = Some cur)
    as [Hinv1 [cur Hget]].
  { unfold st1. destruct (filters_get k (fs_filters st)) as [cur|] eqn:E.
    - split; [done|by exists cur].
    - split; [by apply inv_create|]. exists []. by apply filters_set_get. }
  destruct (py_eq k (JStr (u "type"))) eqn:Hty.
  - apply py_eq_JStr_r in Hty. fold type_key in Hty.
    eexists. split; [reflexivity|]. rewrite Hty in *.
    by eapply type_options_inv.
  - eexists. split; [reflexivity|]. by eapply other_options_inv.
Qed.

Lemma fields_inv fields sel st :
  inv sel st →
  (∀ k o, (k, o) ∈ concat (Spec.field_selections <$> fields) →
          hashable k = true) →
  ∃ st', foldl field_step (Return st) fields = Return st'
         ∧ inv (sel ++ concat (Spec.field_selections <$> fields)) st'.
Proof.
  revert sel st. induction fields as [|field fields IH];
    intros sel st Hinv Hhash.
  - exists st. split; [done|]. simpl. by rewrite app_nil_r.
  - rewrite fmap_cons in *. cbn [concat foldl] in *.
    destruct (field_step_inv field sel st Hinv) as (st1 & -> & Hinv1).
    { intros k o Hin. apply (Hhash k o), elem_of_app. by left. }
    destruct (IH _ _ Hinv1) as (st2 & -> & Hinv2).
    { intros k o Hin. apply (Hhash k o), elem_of_app. by right. }
    exists st2. split; [done|]. by rewrite app_assoc.
Qed.

Lemma message_step_inv msg sel st :
  inv sel st →
  (∀ k o, (k, o) ∈ Spec.message_selections msg → hashable k = true) →
  ∃ st', message_step (Return st) msg = Return st'
         ∧ inv (sel ++ Spec.message_selections msg) st'.
Proof.
  intros Hinv Hhash. unfold message_step, Spec.message_selections in *.
  destruct (filterValue msg) as [[| | | | |[|kv kvs]]|];
    try (exists st; split; [done|by rewrite app_nil_r]).
  destruct (default (JArr []) (dict_get (u "fields") (kv :: kvs)))
    as [| | | |fields|];
    try (exists st; split; [done|by rewrite app_nil_r]).
  by apply fields_inv.
Qed.

Lemma messages_inv messages sel st :
  inv sel st →
  (∀ k o, (k, o) ∈ Spec.selections messages → hashable k = true) →
  ∃ st', foldl message_step (Return st) messages = Return st'
         ∧ inv (sel ++ Spec.selections messages) st'.
Proof.
  unfold Spec.selections.
  revert sel st. induction messages as [|msg messages IH];
    intros sel st Hinv Hhash.
  - exists st. split; [done|]. simpl. by rewrite app_nil_r.
  - rewrite fmap_cons in *. cbn [concat foldl] in *.
    destruct (message_step_inv msg sel st Hinv) as (st1 & -> & Hinv1).
    { intros k o Hin. apply (Hhash k o), elem_of_app. by left. }
    destruct (IH _ _ Hinv1) as (st2 & -> & Hinv2).
    { intros k o Hin. apply (Hhash k o), elem_of_app. by right. }
    exists st2. split; [done|]. by rewrite app_assoc.
Qed.

(** An exception ends the loops, and a field name that cannot be a key
    raises one. *)
Lemma fields_raise fields e : foldl field_step (Raise e) fields = Raise e.
Proof. induction fields as [|field fields IH]; [done|]. simpl. exact IH. Qed.

Lemma messages_raise messages e :
  foldl message_step (Raise e) messages = Raise e.
Proof.
  induction messages as [|msg messages IH]; [done|].
  cbn [foldl].
  assert (message_step (Raise e) msg = Raise e) as ->; [|exact IH].
  unfold message_step.
  destruct (filterValue msg) as [[| | | | |[|kv kvs]]|]; try done.
  destruct (default (JArr []) (dict_get (u "fields") (kv :: kvs))); try done.
  apply fields_raise.
Qed.

Lemma field_step_hashable field st st' :
  field_step (Return st) field = Return st' →
  ∀ k o, (k, o) ∈ Spec.field_selections field → hashable k = true.
Proof.
  unfold field_step, Spec.field_selections.
  destruct field as [| | | | |d]; try (intros _ k o H; by inversion H).
  set (key := default JNull (dict_get (u "field") d)).
  destruct (default (JArr []) (dict_get (u "selected-options") d))
    as [| | | |[|o1 os]|]; try (intros _ k o H; by inversion H).
  { intros _ k o H. destruct (truthy key); by inversion H. }
  destruct (truthy key); [|intros _ k o H; by inversion H].
  destruct (hashable key) eqn:Hk; [|done].
  intros _ k o Hin. apply list_elem_of_fmap in Hin as (o' & [= -> ->] & _).
  done.
Qed.

Lemma fields_hashable fields :
  ∀ st st',
    foldl field_step (Return st) fields = Return st' →
    ∀ k o, (k, o) ∈ concat (Spec.field_selections <$> fields) →
           hashable k = true.
Proof.
  induction fields as [|field fields IH]; intros st st' Hrun k o Hin.
  - by inversion Hin.
  - rewrite fmap_cons in Hin. cbn [concat foldl] in *.
    destruct (field_step (Return st) field) as [st1|e] eqn:E.
    + apply elem_of_app in Hin as [Hin|Hin].
      * by eapply field_step_hashable.
      * by eapply IH.
    + by rewrite fields_raise in Hrun.
Qed.

Lemma message_step_hashable msg st st' :
  message_step (Return st) msg = Return st' →
  ∀ k o, (k, o) ∈ Spec.message_selections msg → hashable k = true.
Proof.
  unfold message_step, Spec.message_selections.
  destruct (filterValue msg) as [[| | | | |[|kv kvs]]|];
    try (intros _ k o H; by inversion H).
  destruct (default (JArr []) (dict_get (u "fields") (kv :: kvs)))
    as [| | | |fields|]; try (intros _ k o H; by inversion H).
  apply fields_hashable.
Qed.

Lemma messages_hashable messages :
  ∀ st st',
    foldl message_step (Return st) messages = Return st' →
    ∀ k o, (k, o) ∈ Spec.selections messages → hashable k = true.
Proof.
  unfold Spec.selections.
  induction messages as [|msg messages IH]; intros st st' Hrun k o Hin.
  - by inversion Hin.
  - rewrite fmap_cons in Hin. cbn [concat foldl] in *.
    destruct (message_step (Return st) msg) as [st1|e] eqn:E.
    + apply elem_of_app in Hin as [Hin|Hin].
      * by eapply message_step_hashable.
      * by eapply IH.
    + by rewrite messages_raise in Hrun.
Qed.

End FilterInvariant.

(** C10.  Filter extraction returns exactly when every field name it
    meets can be a dictionary key.  In the dictionary it returns, no list
    stored under ["type"] holds the misspelt "Årsrapprt"; every selected
    document type is stored under ["type"] in its corrected form, known or
    not, and an unknown one is also reported in a warning; no field name
    and no value of a field is stored twice; every option selected for
    another field is stored under that field. *)
Theorem extract_filters_corrects_and_dedups (messages : list Message) :
  ((∃ f warnings, Extractor.extract_filters messages = Return (f, warnings))
   ↔ ∀ k o, (k, o) ∈ Spec.selections messages → hashable k = true)
  ∧ ∀ f warnings,
      Extractor.extract_filters messages = Return (f, warnings) →
      (∀ k vals, (k, vals) ∈ f → py_eq k (JStr (u "type")) = true →
                 JStr Extractor.Arsrapprt ∉ vals)
      ∧ (∀ k o, (k, JStr o) ∈ Spec.selections messages →
                py_eq k (JStr (u "type")) = true →
                ∃ vals, (JStr (u "type"), vals) ∈ f
                        ∧ JStr (Spec.corrected o) ∈ vals)
      ∧ (∀ k o, (k, JStr o) ∈ Spec.selections messages →
                py_eq k (JStr (u "type")) = true →
                Spec.corrected o ∉ Extractor.KNOWN_DOCUMENT_TYPES →
                Extractor.unknown_type_warning (Spec.corrected o) ∈ warnings)
      ∧ (∀ k vals, (k, vals) ∈ f → Spec.py_distinct vals)
      ∧ Spec.py_distinct f.*1
      ∧ (∀ k o, (k, o) ∈ Spec.selections messages →
                py_eq k (JStr (u "type")) = false →
                ∃ k' vals, (k', vals) ∈ f ∧ py_eq k k' = true
                           ∧ (o ∈ vals ∨ py_in o vals = true)).
Proof.
  assert (∀ f warnings,
            Extractor.extract_filters messages = Return (f, warnings) →
            ∀ k o, (k, o) ∈ Spec.selections messages → hashable k = true)
    as Hback.
  { intros f warnings. unfold Extractor.extract_filters.
    destruct (foldl Extractor.message_step _ messages) as [st|e] eqn:E;
      [|done].
    intros _. by eapply messages_hashable. }
  split; [split|].
  - intros (f & warnings & Hrun). by eapply Hback.
  - intros Hhash.
    destruct (messages_inv messages [] _ inv_init Hhash) as (st & Hrun & _).
    exists (Extractor.fs_filters st), (Extractor.fs_warnings st).
    unfold Extractor.extract_filters. by rewrite Hrun.
  - intros f warnings Hret.
    destruct (messages_inv messages [] _ inv_init (Hback _ _ Hret))
      as (st & Hrun & [Ht Hv Hk Hty Hw Ho]).
    unfold Extractor.extract_filters in Hret. rewrite Hrun in Hret.
    injection Hret as <- <-.
    rewrite app_nil_l in *. repeat split; assumption.
Qed.

(** The hypothesis of C10 holds for a message that selects "Årsrapprt"
    twice, "Evaluering", the unknown "Ukjent", and "Digdir" twice. *)
Lemma extract_filters_corrects_and_dedups_witness :
  let f := [ (JStr (u "type"),
              [JStr Extractor.Arsrapport; JStr (u "Evaluering");
               JStr (u "Ukjent")]);
             (JStr (u "orgs_long"), [JStr (u "Digdir")]) ] in
  (∀ k vals, (k, vals) ∈ f → py_eq k (JStr (u "type")) = true →
             JStr Extractor.Arsrapprt ∉ vals)
  ∧ (∀ k vals, (k, vals) ∈ f → Spec.py_distinct vals)
  ∧ Spec.py_distinct f.*1.
Proof.
  intros f.
  destruct (proj2 (extract_filters_corrects_and_dedups
                     [Examples.filter_message]) f
              [Extractor.unknown_type_warning (u "Ukjent")])
    as (H1 & _ & _ & H4 & H5 & _).
  - vm_compute. reflexivity.
  - exact (conj H1 (conj H4 H5)).
Defined.

(** What the extraction returns on that message. *)
Example extract_filters_example :
  Extractor.extract_filters [Examples.filter_message]
  = Return
      ([ (JStr (u "type"),
          [JStr Extractor.Arsrapport; JStr (u "Evaluering");
           JStr (u "Ukjent")]);
         (JStr (u "orgs_long"), [JStr (u "Digdir")]) ],
       [Extractor.unknown_type_warning (u "Ukjent")]).
Proof. vm_compute. reflexivity. Qed.

(** ** Reformulation: retries and back-off *)

Section ReformulatorFacts.

Context (json_loads : str -> option json) (py_repr : json -> str)
        (client : chat_client) (model : str) (question : str)
        (previous_messages : list Message) (max_retries : Z).

Local Abbreviation att :=
  (Spec.reformulation_attempt json_loads py_repr client model question
     previous_messages).
Local Abbreviation loop :=
  (Reformulator.attempts json_loads py_repr client model question
     previous_messages max_retries).

(** The world after one chat call. *)
Local Abbreviation called w :=
  {| chat_calls := S (chat_calls w); sleeps := sleeps w; files := files w |}.

Lemma reformulation_attempt_once w :
  Reformulator.attempt_once json_loads py_repr client model question
    previous_messages w
  = (att (chat_calls w), called w).
Proof.
  unfold Reformulator.attempt_once, Spec.reformulation_attempt, bind, chat,
    lift.
  by destruct (client (chat_calls w) _).
Qed.

Lemma reformulation_retry attempt e (retry : M str) w :
  attempt ≠ max_retries →
  Reformulator.handle_failure max_retries attempt e retry w
  = retry {| chat_calls := chat_calls w;
             sleeps := sleeps w ++ [2 ^ (attempt + 1)];
             files := files w |}.
Proof.
  intros Hne. apply Z.eqb_neq in Hne.
  unfold Reformulator.handle_failure. rewrite Hne.
  by destruct e.
Qed.

Lemma reformulation_give_up e (retry : M str) w :
  ∃ msg,
    Reformulator.handle_failure max_retries max_retries e retry w
    = (Raise (ValueError msg), w).
Proof.
  unfold Reformulator.handle_failure. rewrite Z.eqb_refl.
  destruct e; eexists; reflexivity.
Qed.

(** [k] failed attempts, then a success: [k] sleeps of 2, 4, 8, ...
    seconds, counted from the attempt number. *)
Lemma attempts_success_after k :
  ∀ remaining attempt w r,
    (k < remaining)%nat →
    attempt + Z.of_nat k ≤ max_retries →
    (∀ j, (j < k)%nat → ∃ e, att (chat_calls w + j)%nat = Raise e) →
    att (chat_calls w + k)%nat = Return r →
    (loop remaining attempt w).1 = Return r
    ∧ chat_calls (loop remaining attempt w).2 = (chat_calls w + S k)%nat
    ∧ sleeps (loop remaining attempt w).2
      = sleeps w
        ++ ((fun j : nat => 2 ^ (attempt + Z.of_nat j + 1)) <$> seq 0 k)
    ∧ files (loop remaining attempt w).2 = files w.
Proof.
  induction k as [|k IH]; intros remaining attempt w r Hrem Hle Hfail Hok;
    (destruct remaining as [|remaining]; [lia|]);
    cbn [Reformulator.attempts]; unfold try_except;
    rewrite reformulation_attempt_once.
  - rewrite Nat.add_0_r in Hok. rewrite Hok. cbn.
    repeat split; [lia|by rewrite app_nil_r].
  - destruct (Hfail 0%nat) as [e He]; [lia|].
    rewrite Nat.add_0_r in He. rewrite He.
    rewrite reformulation_retry by lia.
    set (w1 := {| chat_calls := _; sleeps := _; files := _ |}).
    destruct (IH remaining (attempt + 1) w1 r) as (H1 & H2 & H3 & H4).
    + lia.
    + lia.
    + intros j Hj. destruct (Hfail (S j)) as [e' He']; [lia|].
      exists e'. rewrite <- He'. f_equal. simpl. lia.
    + rewrite <- Hok. f_equal. simpl. lia.
    + rewrite H1, H2, H3, H4. simpl. repeat split; [lia|].
      rewrite <- app_assoc. f_equal. simpl. f_equal; [f_equal; lia|].
      rewrite <- fmap_S_seq, <- list_fmap_compose.
      apply list_fmap_ext. intros _ j _. simpl. f_equal. lia.
Qed.

(** Every attempt fails: the last failure raises, after one sleep per
    earlier attempt. *)
Lemma attempts_all_fail remaining :
  ∀ attempt w,
    attempt + Z.of_nat remaining = max_retries + 1 →
    (0 < remaining)%nat →
    (∀ j, (j < remaining)%nat → ∃ e, att (chat_calls w + j)%nat = Raise e) →
    (∃ msg, (loop remaining attempt w).1 = Raise (ValueError msg))
    ∧ chat_calls (loop remaining attempt w).2
      = (chat_calls w + remaining)%nat
    ∧ sleeps (loop remaining attempt w).2
      = sleeps w
        ++ ((fun j : nat => 2 ^ (attempt + Z.of_nat j + 1))
            <$> seq 0 (remaining - 1))
    ∧ files (loop remaining attempt w).2 = files w.
Proof.
  induction remaining as [|remaining IH]; intros attempt w Hsum Hpos Hfail;
    [lia|].
  cbn [Reformulator.attempts]. unfold try_except.
  rewrite reformulation_attempt_once.
  destruct (Hfail 0%nat) as [e He]; [lia|].
  rewrite Nat.add_0_r in He. rewrite He.
  destruct remaining as [|remaining].
  - assert (attempt = max_retries) as -> by lia.
    destruct (reformulation_give_up e
                (loop 0%nat (max_retries + 1)) (called w)) as [msg ->].
    simpl. split; [by exists msg|]. repeat split; [lia|by rewrite app_nil_r].
  - rewrite reformulation_retry by lia.
    set (w1 := {| chat_calls := _; sleeps := _; files := _ |}).
    destruct (IH (attempt + 1) w1) as ([msg H1] & H2 & H3 & H4).
    + lia.
    + lia.
    + intros j Hj. destruct (Hfail (S j)) as [e' He']; [lia|].
      exists e'. rewrite <- He'. f_equal. simpl. lia.
    + rewrite H1, H2, H3, H4. simpl. split; [by exists msg|].
      repeat split; [lia|].
      rewrite <- app_assoc. f_equal. simpl. rewrite Nat.sub_0_r.
      f_equal; [f_equal; lia|].
      rewrite <- fmap_S_seq, <- list_fmap_compose.
      apply list_fmap_ext. intros _ j _. simpl. f_equal. lia.
Qed.

End ReformulatorFacts.

(** ** Extraction *)

Lemma foldM_app {A B} (f : A → B → M A) (l1 l2 : list B) (a : A) (w : world) :
  foldM f a (l1 ++ l2) w
  = match foldM f a l1 w with
    | (Return a', w') => foldM f a' l2 w'
    | (Raise e, w') => (Raise e, w')
    end.
Proof.
  revert a w. induction l1 as [|x l1 IH]; intros a w; simpl; [done|].
  unfold bind. destruct (f a x w) as [[a'|e] w']; [apply IH|done].
Qed.

Section ExtractionFacts.

Import Extraction.

Context (json_loads : str -> option json) (py_repr : json -> str)
        (conv : Conversation) (llm_client : option chat_client)
        (model : str) (cf : Filters).

Local Abbreviation step :=
  (extract_step json_loads py_repr conv llm_client model cf).
Local Abbreviation cid := (conv_id conv).

(** The state after a question was emitted, and after a failure. *)
Local Abbreviation emitted st q :=
  {| questions := questions st ++ [q];
     failed_reformulations := failed_reformulations st;
     user_message_index := S (user_message_index st) |}.
Local Abbreviation failed st f :=
  {| questions := questions st;
     failed_reformulations := failed_reformulations st ++ [f];
     user_message_index := S (user_message_index st) |}.

Lemma user_turn_text msg : Spec.is_user_turn msg → text msg ≠ [].
Proof. intros [_ H] E. apply H. by rewrite E. Qed.

(** Anything but a user turn leaves the state and the world alone. *)
Lemma extract_step_skip st i msg w :
  ¬ Spec.is_user_turn msg → step st (i, msg) w = (Return st, w).
Proof.
  intros Hnot. unfold extract_step.
  case_bool_decide as Hrole; simpl; [|done].
  destruct (text msg) as [|c t] eqn:Et; simpl; [done|].
  destruct (strip (c :: t)) as [|c' t'] eqn:Es; simpl; [done|].
  exfalso. apply Hnot. split; [done|]. rewrite Et, Es. done.
Qed.

(** A user turn at position 0, or without a client: no chat call. *)
Lemma extract_step_direct st i msg w :
  Spec.is_user_turn msg → llm_client = None ∨ i = 0%nat →
  step st (i, msg) w
  = (Return (emitted st (make_question conv msg i (user_message_index st)
                           (strip (text msg)) [] cf)), w).
Proof.
  intros Hturn Hdirect. pose proof (user_turn_text msg Hturn) as Ht.
  destruct Hturn as [Hrole Hs]. unfold extract_step.
  rewrite (bool_decide_eq_true_2 _ Hrole). simpl.
  destruct (text msg) as [|c t] eqn:Et; [done|]. simpl.
  destruct (strip (c :: t)) as [|c' t'] eqn:Es; [done|]. simpl.
  destruct Hdirect as [->| ->]; [done|].
  destruct llm_client; done.
Qed.

(** A later user turn with a client: one reformulation, whose outcome
    decides between a question and a failure record. *)
Lemma extract_step_llm client st i msg w :
  llm_client = Some client → Spec.is_user_turn msg → (0 < i)%nat →
  let run :=
    Reformulator.reformulate_question_llm json_loads py_repr (text msg)
      (take i (messages conv)) client model 0 w in
  step st (i, msg) w
  = (Return
       match run.1 with
       | Raise e =>
           failed st (make_failure conv msg (user_message_index st) e)
       | Return standalone_q =>
           emitted st
             (make_question conv msg i (user_message_index st) standalone_q
                ((fun m => (role m, text m))
                 <$> filter (fun m => strip (text m) ≠ []
                                      ∧ role m ≠ Some (u "system"))
                       (last_n 3 (take i (messages conv)))) cf)
       end,
     run.2).
Proof.
  intros -> Hturn Hi run. pose proof (user_turn_text msg Hturn) as Ht.
  destruct Hturn as [Hrole Hs]. unfold extract_step.
  rewrite (bool_decide_eq_true_2 _ Hrole). simpl.
  destruct (text msg) as [|c t] eqn:Et; [done|]. simpl.
  destruct (strip (c :: t)) as [|c' t'] eqn:Es; [done|]. simpl.
  rewrite decide_True by done.
  unfold bind, catch. fold run. destruct run as [[s|e] w']; done.
Qed.

(** Every step returns; a user turn takes the next index and ends as a
    question or as a failure record with that index. *)
Lemma extract_step_cases st i msg w :
  ∃ st' w',
    step st (i, msg) w = (Return st', w')
    ∧ ((¬ Spec.is_user_turn msg ∧ st' = st ∧ w' = w)
       ∨ (Spec.is_user_turn msg
          ∧ ((∃ q, st' = emitted st q
                   ∧ id q = generate_message_id cid (user_message_index st)
                   ∧ original_question q = strip (text msg)
                   ∧ meta_created (metadata q) = msg_created msg)
             ∨ (∃ f, st' = failed st f
                     ∧ fr_id f
                       = generate_message_id cid (user_message_index st)
                     ∧ fr_original_question f = strip (text msg)
                     ∧ fr_created f = msg_created msg)))).
Proof.
  destruct (decide (Spec.is_user_turn msg)) as [Hturn|Hnot].
  2:{ exists st, w. split; [by apply extract_step_skip|]. by left. }
  assert (llm_client = None ∨ ∃ c, llm_client = Some c) as [Ec|[client Ec]]
    by (destruct llm_client; eauto).
  2: destruct (decide (0 < i)%nat) as [Hi|Hi].
  - rewrite (extract_step_direct st i msg w Hturn) by by left.
    eexists _, _. split; [reflexivity|]. right. split; [done|].
    left. eexists. by split.
  - idtac.
    rewrite (extract_step_llm client st i msg w Ec Hturn Hi). cbn zeta.
    destruct (Reformulator.reformulate_question_llm _ _ _ _ _ _ _ _)
      as [[s|e] w']; simpl; eexists _, _; (split; [reflexivity|]);
      right; (split; [done|]); [left|right]; eexists; by split.
  - rewrite (extract_step_direct st i msg w Hturn) by (right; lia).
    eexists _, _. split; [reflexivity|]. right. split; [done|].
    left. eexists. by split.
Qed.

End ExtractionFacts.

Section ExtractionLoop.

Import Extraction.

Context (json_loads : str -> option json) (py_repr : json -> str)
        (conv : Conversation) (llm_client : option chat_client)
        (model : str) (cf : Filters).

Local Abbreviation step :=
  (extract_step json_loads py_repr conv llm_client model cf).
Local Abbreviation cid := (conv_id conv).

Lemma turn_index_app l l' i :
  (i ≤ length l)%nat → Spec.turn_index (l ++ l') i = Spec.turn_index l i.
Proof. intros Hi. unfold Spec.turn_index. by rewrite take_app_le. Qed.

Lemma turn_index_end l l' :
  Spec.turn_index (l ++ l') (length l)
  = length (filter Spec.is_user_turn l).
Proof.
  unfold Spec.turn_index. by rewrite take_app_le, firstn_all by done.
Qed.

Lemma turn_recorded_mono l msg' qs qs' fl fl' i msg :
  (i < length l)%nat → qs ⊆ qs' → fl ⊆ fl' →
  Spec.turn_recorded cid l qs fl i msg →
  Spec.turn_recorded cid (l ++ [msg']) qs' fl' i msg.
Proof.
  intros Hi Hq Hf. unfold Spec.turn_recorded. cbn zeta.
  rewrite turn_index_app by lia.
  intros [(q & Hin & H)|(f & Hin & H)]; [left|right]; eauto.
Qed.

(** Reading one more message keeps the invariant. *)
Lemma extract_step_inv l st msg w :
  Spec.turn_inv cid l st →
  ∃ st' w',
    step st (length l, msg) w = (Return st', w')
    ∧ Spec.turn_inv cid (l ++ [msg]) st'
    ∧ questions st `prefix_of` questions st'.
Proof.
  intros (Hidx & Hperm & Hrec).
  destruct (extract_step_cases json_loads py_repr conv llm_client model cf
              st (length l) msg w) as (st' & w' & Hstep & Hcases).
  exists st', w'. split; [done|].
  assert (∀ i m, (l ++ [msg]) !! i = Some m →
                 (i < length l)%nat ∧ l !! i = Some m
                 ∨ i = length l ∧ m = msg) as Hsplit.
  { intros i m Hi. destruct (decide (i < length l)%nat) as [Hlt|Hge].
    - left. by rewrite lookup_app_l in Hi.
    - right. rewrite lookup_app_r in Hi by lia.
      apply list_lookup_singleton_Some in Hi as [? <-]. split; [lia|done]. }
  destruct Hcases as [(Hnot & -> & ->)|(Hturn & Hout)].
  - split; [|done]. split; [|split; [done|]].
    + rewrite filter_app, filter_cons, filter_nil, decide_False by done.
      by rewrite app_nil_r.
    + intros i m Hi Hm. destruct (Hsplit i m Hi) as [[Hlt Hl]|[-> ->]]; [|done].
      apply (turn_recorded_mono l msg (questions st) _
               (failed_reformulations st) _ i m Hlt);
        [set_solver|set_solver|by apply Hrec].
  - assert (length (filter Spec.is_user_turn (l ++ [msg]))
            = S (user_message_index st)) as Hlen.
    { rewrite filter_app, filter_cons, filter_nil, decide_True by done.
      rewrite length_app. simpl. lia. }
    destruct Hout as [(q & -> & Hid & Horig & Hcr)|(f & -> & Hid & Horig & Hcr)];
      cbn [questions failed_reformulations user_message_index].
    + split; [|by apply prefix_app_r]. split; [done|]. split.
      * cbn [questions failed_reformulations user_message_index].
        rewrite seq_S, !fmap_app. simpl. rewrite <- Hid, <- Hperm.
        rewrite <- !app_assoc. apply Permutation_app_head, Permutation_app_comm.
      * cbn [questions failed_reformulations user_message_index].
        intros i m Hi Hm. destruct (Hsplit i m Hi) as [[Hlt Hl]|[-> ->]].
        -- apply (turn_recorded_mono l msg (questions st) _
                    (failed_reformulations st) _ i m Hlt);
             [set_solver|set_solver|by apply Hrec].
        -- left. exists q. rewrite turn_index_end, <- Hidx.
           split; [apply elem_of_app; right; left|done].
    + split; [|done]. split; [done|]. split.
      * cbn [questions failed_reformulations user_message_index].
        rewrite seq_S, !fmap_app. simpl. rewrite <- Hid, <- Hperm.
        by rewrite <- !app_assoc.
      * cbn [questions failed_reformulations user_message_index].
        intros i m Hi Hm. destruct (Hsplit i m Hi) as [[Hlt Hl]|[-> ->]].
        -- apply (turn_recorded_mono l msg (questions st) _
                    (failed_reformulations st) _ i m Hlt);
             [set_solver|set_solver|by apply Hrec].
        -- right. exists f. rewrite turn_index_end, <- Hidx.
           split; [apply elem_of_app; right; left|done].
Qed.

(** The loop returns, and the invariant holds of all it has read. *)
Lemma extract_fold_inv suffix :
  ∀ prefix st w,
    Spec.turn_inv cid prefix st →
    ∃ st' w',
      foldM step st
        (imap (fun j => pair (length prefix + j)%nat) suffix) w
      = (Return st', w')
      ∧ Spec.turn_inv cid (prefix ++ suffix) st'
      ∧ questions st `prefix_of` questions st'.
Proof.
  induction suffix as [|msg suffix IH]; intros prefix st w Hinv.
  - exists st, w. rewrite app_nil_r. done.
  - cbn [imap foldM]. unfold bind. rewrite Nat.add_0_r.
    destruct (extract_step_inv prefix st msg w Hinv)
      as (st1 & w1 & -> & Hinv1 & Hpre1).
    destruct (IH (prefix ++ [msg]) st1 w1 Hinv1)
      as (st2 & w2 & Hrun & Hinv2 & Hpre2).
    exists st2, w2. split; [|split].
    + rewrite <- Hrun. f_equal. apply imap_ext. intros j x _. simpl.
      rewrite length_app. simpl. f_equal. lia.
    + by rewrite (cons_middle msg), app_assoc.
    + by etrans.
Qed.

Lemma turn_inv_init :
  Spec.turn_inv cid []
    {| questions := []; failed_reformulations := [];
       user_message_index := 0 |}.
Proof. split; [done|]. split; [done|]. intros i msg H. done. Qed.

(** Messages that are no user turns are passed over in silence. *)
Lemma extract_fold_skip l :
  ∀ (f : nat → nat) st w,
    Forall (fun m => ¬ Spec.is_user_turn m) l →
    foldM step st (imap (fun j => pair (f j)) l) w = (Return st, w).
Proof.
  induction l as [|m l IH]; intros f st w Hall; [done|].
  apply Forall_cons in Hall as [Hm Hall].
  cbn [imap foldM]. unfold bind.
  rewrite extract_step_skip by done.
  apply (IH (f ∘ S)). done.
Qed.

End ExtractionLoop.

(** C9.  The id of a question is the conversation id, an underscore and
    the decimal number of user messages with non-empty text that come
    before the message, whatever became of them: the extraction returns,
    every such message of the conversation ends either as a question or as
    a failure record whose id carries that number, and the ids handed out
    carry exactly the indices 0, 1, ... up to the number of user turns,
    each once.  A user message that is blank takes no index; a turn whose
    reformulation fails takes one. *)
Theorem message_index_counts_user_turns
    (json_loads : str -> option json) (py_repr : json -> str)
    (conv : Conversation) (llm_client : option chat_client) (model : str)
    (w : world) (cf : Filters) (warnings : list str) :
  Extractor.extract_filters (messages conv) = Return (cf, warnings) →
  ∃ qs failed w',
    Extraction.extract_golden_questions json_loads py_repr conv llm_client
      model w = (Return (qs, failed), w')
    ∧ (id <$> qs) ++ (fr_id <$> failed)
      ≡ₚ (fun n : nat => conv_id conv ++ u "_" ++ of_nat n)
         <$> seq 0 (length (filter Spec.is_user_turn (messages conv)))
    ∧ ∀ i msg,
        messages conv !! i = Some msg → Spec.is_user_turn msg →
        let n := length (filter Spec.is_user_turn (take i (messages conv))) in
        (∃ q, q ∈ qs
              ∧ id q = conv_id conv ++ u "_" ++ of_nat n
              ∧ original_question q = strip (text msg)
              ∧ meta_created (metadata q) = msg_created msg)
        ∨ (∃ f, f ∈ failed
                ∧ fr_id f = conv_id conv ++ u "_" ++ of_nat n
                ∧ fr_original_question f = strip (text msg)
                ∧ fr_created f = msg_created msg).
Proof.
  intros Hfilters.
  destruct (extract_fold_inv json_loads py_repr conv llm_client model cf
              (messages conv) [] _ w (turn_inv_init conv))
    as (st & w' & Hrun & Hinv & _).
  rewrite app_nil_l in Hinv. destruct Hinv as (Hidx & Hperm & Hrec).
  exists (Extraction.questions st), (Extraction.failed_reformulations st), w'.
  split; [|split].
  - unfold Extraction.extract_golden_questions, bind, lift, ret.
    rewrite Hfilters. cbn [fst]. cbn [length Nat.add] in Hrun.
    change (imap (fun j => pair j) (messages conv))
      with (imap pair (messages conv)) in Hrun.
    by rewrite Hrun.
  - rewrite <- Hidx. exact Hperm.
  - exact Hrec.
Qed.

(** The hypothesis of C9 holds for a conversation without filters whose
    third message is a blank user message and whose second user turn fails
    to be reformulated: the ids are conv1_0 for the question and conv1_1
    for the failure record. *)
Lemma message_index_counts_user_turns_witness :
  ∃ qs failed w',
    Extraction.extract_golden_questions Examples.table_loads
      Examples.table_repr Examples.user_first
      (Some Examples.failing_client) Examples.model_name (world_init ∅)
    = (Return (qs, failed), w')
    ∧ (id <$> qs) ++ (fr_id <$> failed)
      ≡ₚ (fun n : nat => conv_id Examples.user_first ++ u "_" ++ of_nat n)
         <$> seq 0 (length (filter Spec.is_user_turn
                              (messages Examples.user_first)))
    ∧ ∀ i msg,
        messages Examples.user_first !! i = Some msg →
        Spec.is_user_turn msg →
        let n := length (filter Spec.is_user_turn
                           (take i (messages Examples.user_first))) in
        (∃ q, q ∈ qs
              ∧ id q = conv_id Examples.user_first ++ u "_" ++ of_nat n
              ∧ original_question q = strip (text msg)
              ∧ meta_created (metadata q) = msg_created msg)
        ∨ (∃ f, f ∈ failed
                ∧ fr_id f = conv_id Examples.user_first ++ u "_" ++ of_nat n
                ∧ fr_original_question f = strip (text msg)
                ∧ fr_created f = msg_created msg).
Proof.
  apply (message_index_counts_user_turns Examples.table_loads
           Examples.table_repr Examples.user_first
           (Some Examples.failing_client) Examples.model_name
           (world_init ∅) [] []).
  vm_compute. reflexivity.
Defined.

(** The ids of that run: the blank third message takes no index, the
    failed fourth takes index 1. *)
Example message_index_example :
  let r := (Extraction.extract_golden_questions Examples.table_loads
              Examples.table_repr Examples.user_first
              (Some Examples.failing_client) Examples.model_name
              (world_init ∅)).1 in
  match r with
  | Return (qs, failed) =>
      id <$> qs = [u "conv1_0"] ∧ fr_id <$> failed = [u "conv1_1"]
  | Raise _ => False
  end.
Proof. vm_compute. done. Qed.

(** C4 (amended).  A first user turn that opens the conversation, or any
    first user turn when no chat client is configured, is emitted with its
    stripped text as the question, flagged unchanged, under index 0, and
    the world is untouched up to and including that turn: no chat call is
    made for it. *)
Theorem first_turn_passthrough
    (json_loads : str -> option json) (py_repr : json -> str)
    (conv : Conversation) (llm_client : option chat_client) (model : str)
    (w : world) (pre post : list Message) (msg : Message)
    (cf : Filters) (warnings : list str) :
  messages conv = pre ++ msg :: post →
  Forall (fun m => ¬ Spec.is_user_turn m) pre →
  Spec.is_user_turn msg →
  Extractor.extract_filters (messages conv) = Return (cf, warnings) →
  llm_client = None ∨ pre = [] →
  ∃ q,
    foldM (Extraction.extract_step json_loads py_repr conv llm_client model cf)
      {| Extraction.questions := [];
         Extraction.failed_reformulations := [];
         Extraction.user_message_index := 0 |}
      (imap pair (pre ++ [msg])) w
    = (Return {| Extraction.questions := [q];
                 Extraction.failed_reformulations := [];
                 Extraction.user_message_index := 1 |}, w)
    ∧ (∃ rest failed w',
         Extraction.extract_golden_questions json_loads py_repr conv
           llm_client model w = (Return (q :: rest, failed), w'))
    ∧ question q = strip (text msg)
    ∧ original_question q = strip (text msg)
    ∧ question_changed q = false
    ∧ context_messages q = []
    ∧ id q = Extraction.generate_message_id (conv_id conv) 0.
Proof.
  intros Hmsgs Hpre Hturn Hfilters Hdirect.
  set (st0 := {| Extraction.questions := [];
                 Extraction.failed_reformulations := [];
                 Extraction.user_message_index := 0 |}).
  set (q := Extraction.make_question conv msg (length pre) 0
              (strip (text msg)) [] cf).
  assert (foldM (Extraction.extract_step json_loads py_repr conv llm_client
                   model cf) st0 (imap pair (pre ++ [msg])) w
          = (Return {| Extraction.questions := [q];
                       Extraction.failed_reformulations := [];
                       Extraction.user_message_index := 1 |}, w)) as Hhead.
  { rewrite imap_app, foldM_app.
    rewrite (extract_fold_skip json_loads py_repr conv llm_client model cf
               pre (fun j => j)) by done.
    cbn [imap foldM]. unfold bind. rewrite Nat.add_0_r.
    rewrite extract_step_direct; [done|done|].
    destruct Hdirect as [? | ->]; [by left|by right]. }
  exists q. split; [exact Hhead|]. split.
  - unfold Extraction.extract_golden_questions, bind, lift, ret.
    rewrite Hfilters. cbn [fst]. fold st0.
    rewrite Hmsgs, (cons_middle msg), app_assoc, imap_app, foldM_app, Hhead.
    set (st1 := {| Extraction.questions := [q];
                   Extraction.failed_reformulations := [];
                   Extraction.user_message_index := 1 |}).
    assert (Spec.turn_inv (conv_id conv) (pre ++ [msg]) st1) as Hinv.
    { destruct (extract_fold_inv json_loads py_repr conv llm_client model cf
                  (pre ++ [msg]) [] st0 w (turn_inv_init conv))
        as (st' & w' & Hrun & Hinv & _).
      cbn [length Nat.add] in Hrun.
      change (imap (fun j => pair j) (pre ++ [msg]))
        with (imap pair (pre ++ [msg])) in Hrun.
      rewrite Hhead in Hrun. by injection Hrun as <- <-. }
    destruct (extract_fold_inv json_loads py_repr conv llm_client model cf
                post (pre ++ [msg]) st1 w Hinv)
      as (st2 & w2 & -> & _ & [rest Hrest]).
    exists rest, (Extraction.failed_reformulations st2), w2.
    by rewrite Hrest.
  - unfold q. simpl. repeat split.
    by rewrite bool_decide_eq_false_2 by (intros H; by apply H).
Qed.

(** The hypotheses of C4 hold for a conversation that opens with the
    user's question, with a chat client configured. *)
Lemma first_turn_passthrough_witness :
  ∃ q,
    foldM (Extraction.extract_step Examples.table_loads Examples.table_repr
             Examples.user_first (Some Examples.helpful_client)
             Examples.model_name [])
      {| Extraction.questions := [];
         Extraction.failed_reformulations := [];
         Extraction.user_message_index := 0 |}
      (imap pair
         ([] ++ [Examples.mkmsg (u "msg1") (Some (u "user"))
                   (u " Hva er budsjettet? ")]))
      (world_init ∅)
    = (Return {| Extraction.questions := [q];
                 Extraction.failed_reformulations := [];
                 Extraction.user_message_index := 1 |}, world_init ∅)
    ∧ (∃ rest failed w',
         Extraction.extract_golden_questions Examples.table_loads
           Examples.table_repr Examples.user_first
           (Some Examples.helpful_client) Examples.model_name (world_init ∅)
         = (Return (q :: rest, failed), w'))
    ∧ question q
      = strip (text (Examples.mkmsg (u "msg1") (Some (u "user"))
                       (u " Hva er budsjettet? ")))
    ∧ original_question q
      = strip (text (Examples.mkmsg (u "msg1") (Some (u "user"))
                       (u " Hva er budsjettet? ")))
    ∧ question_changed q = false
    ∧ context_messages q = []
    ∧ id q = Extraction.generate_message_id (conv_id Examples.user_first) 0.
Proof.
  apply (first_turn_passthrough Examples.table_loads Examples.table_repr
           Examples.user_first (Some Examples.helpful_client)
           Examples.model_name (world_init ∅) []
           (tail (messages Examples.user_first))
           (Examples.mkmsg (u "msg1") (Some (u "user"))
              (u " Hva er budsjettet? ")) [] []).
  - reflexivity.
  - constructor.
  - split; [reflexivity|]. vm_compute. discriminate.
  - vm_compute. reflexivity.
  - by right.
Defined.

(** C4 as stated fails: a first user turn that follows a system message
    is sent to the chat client, and its question is the reformulation. *)
Lemma first_turn_after_system_is_reformulated :
  let run :=
    Extraction.extract_golden_questions Examples.table_loads
      Examples.table_repr Examples.system_first
      (Some Examples.helpful_client) Examples.model_name (world_init ∅) in
  filter Spec.is_user_turn (messages Examples.system_first)
  = [Examples.mkmsg (u "msg2") (Some (u "user")) (u "Hva er det?")]
  ∧ ∃ q, run.1 = Return ([q], [])
         ∧ id q = u "k1MBbzf_DZsTpLl86odSz_0"
         ∧ original_question q = u "Hva er det?"
         ∧ question q = u "Hva er budsjettet til Digdir?"
         ∧ question q ≠ u "Hva er det?"
         ∧ question_changed q = true
         ∧ chat_calls run.2 = 1%nat.
Proof.
  cbn zeta. split; [vm_compute; reflexivity|].
  eexists. split; [vm_compute; reflexivity|].
  repeat split; try (vm_compute; reflexivity).
  vm_compute. discriminate.
Qed.

(** C7 (amended).  After the failed attempt number [a] (from 0) the
    reformulator sleeps 2^(a+1) seconds before the next attempt: [k]
    failures followed by a success cost the sleeps 2, 4, ..., 2^k and
    [k+1] chat calls; when all [max_retries + 1] attempts fail it raises a
    [ValueError] after the sleeps 2, ..., 2^max_retries.  In the extractor
    a user turn whose reformulation raised is recorded as failed, with the
    conversation id, the stripped original text and the text of the error,
    takes its index, and adds no question. *)
Theorem reformulation_backoff_and_failure
    (json_loads : str -> option json) (py_repr : json -> str)
    (client : chat_client) (model : str) :
  (∀ question previous_messages max_retries w (k : nat) r,
     Z.of_nat k ≤ max_retries →
     (∀ j, (j < k)%nat →
           ∃ e, Spec.reformulation_attempt json_loads py_repr client model
                  question previous_messages (chat_calls w + j) = Raise e) →
     Spec.reformulation_attempt json_loads py_repr client model question
       previous_messages (chat_calls w + k) = Return r →
     let run := Reformulator.reformulate_question_llm json_loads py_repr
                  question previous_messages client model max_retries w in
     run.1 = Return r
     ∧ sleeps run.2
       = sleeps w ++ ((fun a : nat => 2 ^ (Z.of_nat a + 1)) <$> seq 0 k)
     ∧ chat_calls run.2 = (chat_calls w + S k)%nat)
  ∧ (∀ question previous_messages max_retries w,
       0 ≤ max_retries →
       (∀ j, ∃ e, Spec.reformulation_attempt json_loads py_repr client model
                    question previous_messages (chat_calls w + j) = Raise e) →
       let run := Reformulator.reformulate_question_llm json_loads py_repr
                    question previous_messages client model max_retries w in
       (∃ msg, run.1 = Raise (ValueError msg))
       ∧ sleeps run.2
         = sleeps w
           ++ ((fun a : nat => 2 ^ (Z.of_nat a + 1))
               <$> seq 0 (Z.to_nat max_retries))
       ∧ chat_calls run.2 = (chat_calls w + S (Z.to_nat max_retries))%nat)
  ∧ (∀ conv cf st (i : nat) msg w e w',
       (0 < i)%nat → Spec.is_user_turn msg →
       Reformulator.reformulate_question_llm json_loads py_repr (text msg)
         (take i (messages conv)) client model 0 w = (Raise e, w') →
       let record :=
         Extraction.make_failure conv msg
           (Extraction.user_message_index st) e in
       Extraction.extract_step json_loads py_repr conv (Some client) model cf
         st (i, msg) w
       = (Return
            {| Extraction.questions := Extraction.questions st;
               Extraction.failed_reformulations :=
                 Extraction.failed_reformulations st ++ [record];
               Extraction.user_message_index :=
                 S (Extraction.user_message_index st) |}, w')
       ∧ fr_conversation_id record = conv_id conv
       ∧ fr_original_question record = strip (text msg)
       ∧ fr_failure_reason record = exn_str e).
Proof.
  split; [|split].
  - intros question prev max_retries w k r Hk Hfail Hok run.
    destruct (attempts_success_after json_loads py_repr client model question
                prev max_retries k (Z.to_nat (max_retries + 1)) 0 w r)
      as (H1 & H2 & H3 & _); [lia|lia|done|done|].
    unfold run, Reformulator.reformulate_question_llm.
    rewrite H1, H2, H3. done.
  - intros question prev max_retries w Hpos Hfail run.
    destruct (attempts_all_fail json_loads py_repr client model question
                prev max_retries (Z.to_nat (max_retries + 1)) 0 w)
      as (H1 & H2 & H3 & _); [lia|lia|by intros j _|].
    unfold run, Reformulator.reformulate_question_llm.
    split; [exact H1|]. rewrite H2, H3.
    replace (Z.to_nat (max_retries + 1) - 1)%nat with (Z.to_nat max_retries)
      by lia.
    split; [done|lia].
  - intros conv cf st i msg w e w' Hi Hturn Hrun record.
    rewrite (extract_step_llm json_loads py_repr conv (Some client) model cf
               client st i msg w eq_refl Hturn Hi).
    cbn zeta. rewrite Hrun. done.
Qed.

(** The hypotheses of the exhaustion case hold for a back end whose every
    call fails and a retry limit of 3: the sleeps are 2, 4 and 8 seconds. *)
Lemma reformulation_backoff_and_failure_witness :
  let run :=
    Reformulator.reformulate_question_llm Examples.table_loads
      Examples.table_repr (u "Og det?") [] Examples.failing_client
      Examples.model_name 3 (world_init ∅) in
  (∃ msg, run.1 = Raise (ValueError msg))
  ∧ sleeps run.2 = [] ++ [2; 4; 8]
  ∧ chat_calls run.2 = 4%nat.
Proof.
  refine (proj1 (proj2
    (reformulation_backoff_and_failure Examples.table_loads
       Examples.table_repr Examples.failing_client Examples.model_name))
    (u "Og det?") [] 3 (world_init ∅) _ _).
  - lia.
  - intros j. eexists. reflexivity.
Defined.

(** C7 as stated fails: the sleep after the first failed attempt lasts
    two seconds, not 2^0 = 1. *)
Lemma first_backoff_is_two_seconds :
  let run :=
    Reformulator.reformulate_question_llm Examples.table_loads
      Examples.table_repr (u "Og det?") [] Examples.failing_client
      Examples.model_name 1 (world_init ∅) in
  sleeps run.2 = [2] ∧ sleeps run.2 ≠ [2 ^ 0].
Proof. cbn zeta. split; vm_compute; [reflexivity|discriminate]. Qed.

(** ** Usage-mode categorisation: which failures are retried *)

(** [content] stays unbound exactly as long as no attempt reaches its
    assignment. *)
Lemma content_unbound (client : chat_client) (model : str)
    (q : GoldenQuestion) n c :
  Spec.content_after_attempt client model q n c = None
  ↔ c = None ∧ Spec.binds_content client model q n = false.
Proof.
  unfold Spec.content_after_attempt, Spec.binds_content,
    Categorizer.content_after.
  destruct (client n _) as [response|e]; [|naive_solver].
  destruct (first_choice response) as [choice|e]; [|naive_solver].
  destruct (content choice) as [[|? ?]|]; naive_solver.
Qed.

Section CategorizerFacts.

Context (json_loads : str -> option json) (py_repr : json -> str)
        (json_error : str -> str)
        (client : chat_client) (model : str) (q : GoldenQuestion)
        (max_retries : Z).

Local Abbreviation att :=
  (Spec.usage_mode_attempt json_loads py_repr json_error client model q).
Local Abbreviation next_content :=
  (Spec.content_after_attempt client model q).
Local Abbreviation loop :=
  (Categorizer.attempts json_loads py_repr json_error client model q
     max_retries).
Local Abbreviation called w :=
  {| chat_calls := S (chat_calls w); sleeps := sleeps w; files := files w |}.

Lemma usage_mode_attempt_once w c :
  Categorizer.attempt_once json_loads py_repr json_error client model q c w
  = (Return (att (chat_calls w), next_content (chat_calls w) c), called w).
Proof.
  unfold Categorizer.attempt_once, Spec.usage_mode_attempt,
    Spec.content_after_attempt, bind, catch, chat, ret.
  by destruct (client (chat_calls w) _).
Qed.

(** One turn of the loop. *)
Lemma usage_mode_loop_step remaining attempt c w :
  loop (S remaining) attempt c w
  = match att (chat_calls w) with
    | Return mode => (Return mode, called w)
    | Raise e =>
        Categorizer.handle_failure max_retries attempt
          (next_content (chat_calls w) c) e
          (loop remaining (attempt + 1) (next_content (chat_calls w) c))
          (called w)
    end.
Proof.
  cbn [Categorizer.attempts]. unfold bind at 1.
  rewrite usage_mode_attempt_once. cbn [fst snd].
  by destruct (att (chat_calls w)).
Qed.

(** A completion that is empty, or an object without one of the required
    keys, makes the attempt raise a [ValueError]. *)
Lemma parse_contract_violation response choice :
  first_choice response = Return choice →
  (content choice = None ∨ content choice = Some []
   ∨ ∃ c d field,
       content choice = Some c ∧ c ≠ []
       ∧ json_loads (Categorizer.repair (strip c)) = Some (JObj d)
       ∧ field ∈ Categorizer.required_fields
       ∧ dict_get field d = None) →
  ∃ msg, Categorizer.parse_usage_mode json_loads py_repr json_error response
         = Raise (ValueError msg).
Proof.
  intros Hc Hbad. unfold Categorizer.parse_usage_mode. rewrite Hc.
  destruct Hbad as [->|[->|(c & d & field & -> & Hne & Hload & Hin & Hmiss)]];
    [eauto|eauto|].
  destruct c as [|c0 c]; [done|]. rewrite Hload.
  assert (Categorizer.all_fields_in Categorizer.required_fields (JObj d)
          = Return false) as ->; [|eauto].
  unfold Categorizer.required_fields in *. simpl.
  repeat (apply elem_of_cons in Hin as [->|Hin];
          [rewrite Hmiss; simpl;
           repeat (destruct (dict_get _ d); simpl); done|]).
  by apply not_elem_of_nil in Hin.
Qed.

(** A completion that is not JSON makes the attempt raise a
    [JSONDecodeError], with [content] bound. *)
Lemma parse_invalid_json n response choice c before :
  client n (UsageModeRequest model (question q)) = Return response →
  first_choice response = Return choice →
  content choice = Some c → c ≠ [] →
  json_loads (Categorizer.repair (strip c)) = None →
  (∃ m, att n = Raise (JSONDecodeError m))
  ∧ is_Some (next_content n before).
Proof.
  intros Hresp Hchoice Hc Hne Hload.
  unfold Spec.usage_mode_attempt, Spec.content_after_attempt,
    Categorizer.parse_usage_mode, Categorizer.content_after.
  rewrite Hresp, Hchoice, Hc. destruct c as [|c0 c]; [done|].
  rewrite Hload. eauto.
Qed.

(** The loop never takes a chat call back, and makes one if it runs. *)
Lemma usage_mode_calls remaining : ∀ attempt c w,
  (chat_calls w + (if remaining is O then 0 else 1)
   ≤ chat_calls (loop remaining attempt c w).2)%nat.
Proof.
  induction remaining as [|remaining IH]; intros attempt c w; [simpl; lia|].
  rewrite usage_mode_loop_step.
  destruct (att (chat_calls w)) as [mode|e]; [simpl; lia|].
  set (c1 := next_content (chat_calls w) c).
  pose proof (IH (attempt + 1) c1 (called w)) as H1.
  pose proof (IH (attempt + 1) c1
                {| chat_calls := S (chat_calls w);
                   sleeps := sleeps w ++ [2 ^ (attempt + 1)];
                   files := files w |}) as H2.
  cbn [chat_calls] in H1, H2.
  assert (chat_calls w + 1
          ≤ chat_calls (loop remaining (attempt + 1) c1 (called w)).2)%nat
    as H1' by (destruct remaining; lia).
  unfold Categorizer.handle_failure.
  destruct e; try (destruct (attempt =? max_retries - 1); simpl; lia).
  - destruct c1; [|simpl; lia].
    destruct (attempt =? max_retries); simpl; lia.
  - destruct (attempt <? max_retries); [|simpl; lia].
    unfold bind, sleep. cbn [fst snd chat_calls sleeps files].
    destruct remaining; lia.
Qed.

(** With the retry limit 0 a [ValueError] in the only attempt sends the
    loop to the statement after it: one chat call, no sleep. *)
Lemma contract_violation_at_limit_zero w msg :
  max_retries = 0 →
  att (chat_calls w) = Raise (ValueError msg) →
  Categorizer.categorize_question_llm json_loads py_repr json_error q
    client model max_retries w
  = (Raise (ValueError (u "Failed to categorize after 0 attempts")),
     called w).
Proof.
  intros Hmax Hatt. unfold Categorizer.categorize_question_llm.
  replace (Z.to_nat (max_retries + 1)) with 1%nat by lia.
  rewrite usage_mode_loop_step, Hatt. unfold Categorizer.handle_failure.
  rewrite (proj2 (Z.eqb_neq 0 (max_retries - 1))) by lia.
  cbn [Categorizer.attempts]. unfold raise. by rewrite Hmax.
Qed.

(** With a retry limit of 2 or more a [ValueError] in the first attempt
    is followed by a second chat call. *)
Lemma contract_violation_retried w msg :
  2 ≤ max_retries →
  att (chat_calls w) = Raise (ValueError msg) →
  (chat_calls w + 2
   ≤ chat_calls (Categorizer.categorize_question_llm json_loads py_repr
                   json_error q client model max_retries w).2)%nat.
Proof.
  intros Hmax Hatt. unfold Categorizer.categorize_question_llm.
  destruct (Z.to_nat (max_retries + 1)) as [|remaining] eqn:Er; [lia|].
  rewrite usage_mode_loop_step, Hatt. unfold Categorizer.handle_failure.
  rewrite (proj2 (Z.eqb_neq 0 (max_retries - 1))) by lia.
  pose proof (usage_mode_calls remaining (0 + 1)
                (next_content (chat_calls w) None) (called w)) as H.
  cbn [chat_calls] in H. destruct remaining; [lia|]. lia.
Qed.

(** Invalid JSON in every attempt: all attempts are made, back to back. *)
Lemma invalid_json_all_attempts remaining :
  ∀ attempt c w,
    attempt + Z.of_nat remaining = max_retries + 1 →
    (0 < remaining)%nat →
    (∀ j, (j < remaining)%nat →
          (∃ m, att (chat_calls w + j)%nat = Raise (JSONDecodeError m))
          ∧ ∀ before, is_Some (next_content (chat_calls w + j)%nat before)) →
    (loop remaining attempt c w).1
    = Raise (ValueError (u "Failed to get valid JSON after "
                         ++ of_Z (max_retries + 1) ++ u " attempts"))
    ∧ chat_calls (loop remaining attempt c w).2
      = (chat_calls w + remaining)%nat
    ∧ sleeps (loop remaining attempt c w).2 = sleeps w.
Proof.
  induction remaining as [|remaining IH];
    intros attempt c w Hsum Hpos Hfail; [lia|].
  rewrite usage_mode_loop_step.
  destruct (Hfail 0%nat) as [[m He] Hb]; [lia|].
  rewrite Nat.add_0_r in He, Hb. rewrite He.
  unfold Categorizer.handle_failure.
  destruct (Hb c) as [c1 ->].
  destruct remaining as [|remaining].
  - assert (attempt = max_retries) as -> by lia.
    rewrite Z.eqb_refl. simpl. repeat split. lia.
  - rewrite (proj2 (Z.eqb_neq attempt max_retries)) by lia.
    set (w1 := {| chat_calls := _; sleeps := _; files := _ |}).
    destruct (IH (attempt + 1) (Some c1) w1) as (H1 & H2 & H3).
    + lia.
    + lia.
    + intros j Hj. destruct (Hfail (S j)) as [[m' He'] Hb']; [lia|].
      replace (chat_calls w1 + j)%nat with (chat_calls w + S j)%nat
        by (simpl; lia).
      eauto.
    + rewrite H1, H2, H3. simpl. repeat split. lia.
Qed.

(** A rate limit in every attempt: a sleep of 2^(attempt+1) seconds
    before each retry, and the last error is raised again. *)
Lemma rate_limit_all_attempts remaining :
  ∀ attempt c w,
    attempt + Z.of_nat remaining = max_retries + 1 →
    (0 < remaining)%nat →
    (∀ j, (j < remaining)%nat →
          ∃ m, att (chat_calls w + j)%nat = Raise (RateLimitError m)) →
    (∃ m, (loop remaining attempt c w).1 = Raise (RateLimitError m))
    ∧ chat_calls (loop remaining attempt c w).2
      = (chat_calls w + remaining)%nat
    ∧ sleeps (loop remaining attempt c w).2
      = sleeps w
        ++ ((fun j : nat => 2 ^ (attempt + Z.of_nat j + 1))
            <$> seq 0 (remaining - 1)).
Proof.
  induction remaining as [|remaining IH];
    intros attempt c w Hsum Hpos Hfail; [lia|].
  rewrite usage_mode_loop_step.
  destruct (Hfail 0%nat) as [m He]; [lia|].
  rewrite Nat.add_0_r in He. rewrite He.
  unfold Categorizer.handle_failure.
  destruct remaining as [|remaining].
  - assert (attempt = max_retries) as -> by lia.
    rewrite Z.ltb_irrefl. simpl.
    split; [by exists m|]. split; [lia|by rewrite app_nil_r].
  - rewrite (proj2 (Z.ltb_lt attempt max_retries)) by lia.
    unfold bind, sleep.
    set (w1 := {| chat_calls := _; sleeps := _ ++ _; files := _ |}).
    destruct (IH (attempt + 1) (next_content (chat_calls w) c) w1)
      as ([m' H1] & H2 & H3).
    + lia.
    + lia.
    + intros j Hj. destruct (Hfail (S j)) as [m' He']; [lia|].
      exists m'. rewrite <- He'. f_equal. simpl. lia.
    + rewrite H1, H2, H3. simpl. split; [by exists m'|]. split; [lia|].
      rewrite <- app_assoc. f_equal. simpl. rewrite Nat.sub_0_r.
      f_equal; [f_equal; lia|].
      rewrite <- fmap_S_seq, <- list_fmap_compose.
      apply list_fmap_ext. intros _ j _. simpl. f_equal. lia.
Qed.

End CategorizerFacts.

(** C3 (amended).  An empty completion, or a completion that parses to an
    object without one of the three required keys, raises a ValueError
    inside the [try] block, where the generic handler treats it like any
    other error.  With the retry limit 0, the limit the pipeline uses,
    the item fails after that single chat call, without a sleep (the
    error that leaves the function is the one raised after the loop).
    With a retry limit of 2 or more the completion is followed by a
    second chat call, so such completions are not failed at once for
    every limit.  For every retry limit, completions that are not JSON
    are retried at once, without any sleep, until all [max_retries + 1]
    attempts are used, and rate-limit errors are retried after sleeps of
    2, 4, ... seconds. *)
Theorem usage_mode_failure_modes
    (json_loads : str -> option json) (py_repr : json -> str)
    (json_error : str -> str) (client : chat_client) (model : str)
    (q : GoldenQuestion) :
  let request := UsageModeRequest model (question q) in
  let run max_retries w :=
    Categorizer.categorize_question_llm json_loads py_repr json_error q
      client model max_retries w in
  let violates response :=
    ∃ choice,
      first_choice response = Return choice
      ∧ (content choice = None ∨ content choice = Some []
         ∨ ∃ c d field,
             content choice = Some c ∧ c ≠ []
             ∧ json_loads (Categorizer.repair (strip c)) = Some (JObj d)
             ∧ field ∈ Categorizer.required_fields
             ∧ dict_get field d = None) in
  let not_json response :=
    ∃ choice c,
      first_choice response = Return choice
      ∧ content choice = Some c ∧ c ≠ []
      ∧ json_loads (Categorizer.repair (strip c)) = None in
  (∀ w response,
     client (chat_calls w) request = Return response →
     violates response →
     (run 0 w).1
     = Raise (ValueError (u "Failed to categorize after 0 attempts"))
     ∧ chat_calls (run 0 w).2 = S (chat_calls w)
     ∧ sleeps (run 0 w).2 = sleeps w
     ∧ files (run 0 w).2 = files w)
  ∧ (∀ max_retries w response,
       2 ≤ max_retries →
       client (chat_calls w) request = Return response →
       violates response →
       (chat_calls w + 2 ≤ chat_calls (run max_retries w).2)%nat)
  ∧ (∀ max_retries w,
       0 ≤ max_retries →
       (∀ j, (j ≤ Z.to_nat max_retries)%nat →
             ∃ response,
               client (chat_calls w + j)%nat request = Return response
               ∧ not_json response) →
       (run max_retries w).1
       = Raise (ValueError (u "Failed to get valid JSON after "
                            ++ of_Z (max_retries + 1) ++ u " attempts"))
       ∧ chat_calls (run max_retries w).2
         = (chat_calls w + S (Z.to_nat max_retries))%nat
       ∧ sleeps (run max_retries w).2 = sleeps w)
  ∧ (∀ max_retries w,
       0 ≤ max_retries →
       (∀ j, (j ≤ Z.to_nat max_retries)%nat →
             ∃ m, client (chat_calls w + j)%nat request
                  = Raise (RateLimitError m)) →
       (∃ m, (run max_retries w).1 = Raise (RateLimitError m))
       ∧ chat_calls (run max_retries w).2
         = (chat_calls w + S (Z.to_nat max_retries))%nat
       ∧ sleeps (run max_retries w).2
         = sleeps w
           ++ ((fun a : nat => 2 ^ (Z.of_nat a + 1))
               <$> seq 0 (Z.to_nat max_retries))).
Proof.
  intros request run violates not_json.
  assert (∀ n response,
            client n request = Return response → violates response →
            ∃ msg, Spec.usage_mode_attempt json_loads py_repr json_error
                     client model q n = Raise (ValueError msg)) as Hviol.
  { intros n response Hresp (choice & Hchoice & Hbad).
    destruct (parse_contract_violation json_loads py_repr json_error
                response choice Hchoice Hbad) as [msg Hparse].
    exists msg. unfold Spec.usage_mode_attempt.
    fold request. by rewrite Hresp. }
  split; [|split; [|split]].
  - intros w response Hresp Hbad.
    destruct (Hviol _ _ Hresp Hbad) as [msg Hatt].
    unfold run.
    rewrite (contract_violation_at_limit_zero json_loads py_repr json_error
               client model q 0 w msg eq_refl Hatt).
    done.
  - intros max_retries w response Hmax Hresp Hbad.
    destruct (Hviol _ _ Hresp Hbad) as [msg Hatt].
    by apply (contract_violation_retried json_loads py_repr json_error
                client model q max_retries w msg).
  - intros max_retries w Hpos Hfail.
    destruct (invalid_json_all_attempts json_loads py_repr json_error client
                model q max_retries (Z.to_nat (max_retries + 1)) 0 None w)
      as (H1 & H2 & H3); [lia|lia| |].
    { intros j Hj.
      destruct (Hfail j) as (response & Hresp & choice & c & Hchoice & Hc
                             & Hne & Hload); [lia|].
      split.
      - apply (parse_invalid_json json_loads py_repr json_error client model
                 q _ response choice c None Hresp Hchoice Hc Hne Hload).
      - intros before.
        apply (parse_invalid_json json_loads py_repr json_error client model
                 q _ response choice c before Hresp Hchoice Hc Hne Hload). }
    unfold run, Categorizer.categorize_question_llm.
    rewrite H1, H2, H3. repeat split. lia.
  - intros max_retries w Hpos Hfail.
    destruct (rate_limit_all_attempts json_loads py_repr json_error client
                model q max_retries (Z.to_nat (max_retries + 1)) 0 None w)
      as (H1 & H2 & H3); [lia|lia| |].
    { intros j Hj. destruct (Hfail j) as [m Hm]; [lia|].
      exists m. unfold Spec.usage_mode_attempt. fold request.
      by rewrite Hm. }
    unfold run, Categorizer.categorize_question_llm.
    split; [exact H1|]. rewrite H2, H3.
    replace (Z.to_nat (max_retries + 1) - 1)%nat with (Z.to_nat max_retries)
      by lia.
    split; [lia|done].
Qed.

(** The four cases at work.  A completion that carries only
    [document_scope] fails the item after one call at the retry limit 0
    and is followed by a second call at the limit 2; a completion that is
    not JSON uses the three attempts of the limit 2 without a sleep; a
    back end over its rate limit is asked three times, after sleeps of 2
    and 4 seconds. *)
Lemma usage_mode_failure_modes_witness :
  let run client max_retries :=
    Categorizer.categorize_question_llm Examples.table_loads
      Examples.table_repr Examples.table_error Examples.qa client
      Examples.model_name max_retries (world_init ∅) in
  let missing := Examples.constant_client Examples.missing_keys_text in
  let garbled := Examples.constant_client (u "This is not valid JSON") in
  ((run missing 0).1
   = Raise (ValueError (u "Failed to categorize after 0 attempts"))
   ∧ chat_calls (run missing 0).2 = 1%nat
   ∧ sleeps (run missing 0).2 = []
   ∧ files (run missing 0).2 = ∅)
  ∧ (2 ≤ chat_calls (run missing 2%Z).2)%nat
  ∧ ((run garbled 2).1
     = Raise (ValueError (u "Failed to get valid JSON after 3 attempts"))
     ∧ chat_calls (run garbled 2).2 = 3%nat
     ∧ sleeps (run garbled 2).2 = [])
  ∧ ((∃ m, (run Examples.rate_limited_client 2).1
           = Raise (RateLimitError m))
     ∧ chat_calls (run Examples.rate_limited_client 2).2 = 3%nat
     ∧ sleeps (run Examples.rate_limited_client 2).2 = [2; 4]).
Proof.
  cbn zeta.
  assert (∃ choice,
            first_choice
              {| choices := [{| finish_reason := Some (u "stop");
                                content := Some Examples.missing_keys_text |}] |}
            = Return choice
            ∧ (content choice = None ∨ content choice = Some []
               ∨ ∃ c d field,
                   content choice = Some c ∧ c ≠ []
                   ∧ Examples.table_loads (Categorizer.repair (strip c))
                     = Some (JObj d)
                   ∧ field ∈ Categorizer.required_fields
                   ∧ dict_get field d = None)) as Hmissing.
  { eexists. split; [reflexivity|]. right. right.
    exists Examples.missing_keys_text,
      [(u "document_scope", JStr (u "single_document"))],
      (u "operation_type").
    split; [reflexivity|]. split; [vm_compute; discriminate|].
    split; [vm_compute; reflexivity|].
    split; [|vm_compute; reflexivity].
    right. left. }
  split; [|split; [|split]].
  - exact (proj1
      (usage_mode_failure_modes Examples.table_loads Examples.table_repr
         Examples.table_error
         (Examples.constant_client Examples.missing_keys_text)
         Examples.model_name Examples.qa)
      (world_init ∅) _ eq_refl Hmissing).
  - exact (proj1 (proj2
      (usage_mode_failure_modes Examples.table_loads Examples.table_repr
         Examples.table_error
         (Examples.constant_client Examples.missing_keys_text)
         Examples.model_name Examples.qa))
      2 (world_init ∅) _ ltac:(lia) eq_refl Hmissing).
  - refine (proj1 (proj2 (proj2
      (usage_mode_failure_modes Examples.table_loads Examples.table_repr
         Examples.table_error
         (Examples.constant_client (u "This is not valid JSON"))
         Examples.model_name Examples.qa)))
      2 (world_init ∅) ltac:(lia) _).
    intros j _. eexists. split; [reflexivity|].
    eexists _, _. split; [reflexivity|]. split; [reflexivity|].
    split; [vm_compute; discriminate|vm_compute; reflexivity].
  - refine (proj2 (proj2 (proj2
      (usage_mode_failure_modes Examples.table_loads Examples.table_repr
         Examples.table_error Examples.rate_limited_client
         Examples.model_name Examples.qa)))
      2 (world_init ∅) ltac:(lia) _).
    intros j _. eexists. reflexivity.
Defined.

(** C3 as stated fails.  With a retry limit of 2 a completion that lacks
    required keys is followed by a second chat call, and so is an empty
    completion; completions that are not JSON are retried without any
    sleep. *)
Lemma missing_keys_are_retried :
  let run completion :=
    Categorizer.categorize_question_llm Examples.table_loads
      Examples.table_repr Examples.table_error Examples.qa
      (Examples.constant_client completion) Examples.model_name 2
      (world_init ∅) in
  Examples.table_loads (Categorizer.repair (strip Examples.missing_keys_text))
  = Some (JObj [(u "document_scope", JStr (u "single_document"))])
  ∧ chat_calls (run Examples.missing_keys_text).2 = 2%nat
  ∧ chat_calls (run []).2 = 2%nat
  ∧ chat_calls (run (u "This is not valid JSON")).2 = 3%nat
  ∧ sleeps (run (u "This is not valid JSON")).2 = [].
Proof. cbn zeta. repeat split; vm_compute; reflexivity. Qed.

(** ** Side-channel files *)

(** The writers of the failure lists replace the file whatever the list
    holds, the empty list included. *)
Lemma failed_categorizations_always_rewritten failed path w :
  files (Main._save_failed_categorizations failed path w).2 !! path
  = Some (QuestionsFile failed).
Proof. apply lookup_insert_eq. Qed.

Lemma failed_reformulations_always_rewritten failed path w :
  files (Extraction._save_failed_reformulations failed path w).2 !! path
  = Some (FailedReformulationsFile failed).
Proof. apply lookup_insert_eq. Qed.

Lemma dropped_conversations_always_rewritten conversations c path w :
  ∃ records,
    files (Filter.filter_conversations conversations (Some (c :: path)) w).2
    !! (c :: path)
    = Some (DroppedConversationsFile records)
    ∧ length records
      = length (filter (fun conv => Filter.should_process_conversation conv
                                    ≠ true) conversations).
Proof.
  eexists. split; [apply lookup_insert_eq|].
  by rewrite length_zip_with, length_fmap, Nat.min_id.
Qed.

(** The deduplicator writes its log only when it has found a duplicate:
    on questions with pairwise different normal forms, with the semantic
    stage off, it leaves every file as it was. *)
Lemma dedup_without_duplicates_writes_nothing
    (py_lower : str -> str) (py_isalnum : char -> bool) (np_sqrt : Q -> Q)
    (questions : list GoldenQuestion) (out : option str) (t : Q)
    (client : option Dedup.embedding_client) (model : option str)
    (fs : filesystem) :
  (0 <= t)%Q → (t <= 1)%Q →
  NoDup ((fun q => Dedup._normalize_text py_lower py_isalnum (question q))
         <$> questions) →
  Dedup.deduplicate_questions py_lower py_isalnum np_sqrt questions out
    false t client model fs
  = (Return questions, fs).
Proof.
  intros H0 H1 Hnd. unfold Dedup.deduplicate_questions.
  apply Qle_bool_iff in H0, H1. rewrite H0, H1. simpl.
  destruct questions as [|q0 questions]; [done|].
  destruct (exact_fold_fresh py_lower py_isalnum (q0 :: questions)
              Dedup.exact_init (exact_inv_init py_lower py_isalnum) Hnd)
    as [Hd Hdup].
  fold (Dedup.exact_stage py_lower py_isalnum (q0 :: questions)) in Hd, Hdup.
  rewrite Hd, Hdup. simpl.
  destruct out as [[|c p]|]; done.
Qed.

(** Exact-match deduplication through the entry point: a second call on
    the list the first call returned gives the list back and writes
    nothing. *)
Lemma dedup_exact_twice
    (py_lower : str -> str) (py_isalnum : char -> bool) (np_sqrt : Q -> Q)
    (questions kept : list GoldenQuestion) (out : option str) (t : Q)
    (client : option Dedup.embedding_client) (model : option str)
    (fs fs1 : filesystem) :
  Dedup.deduplicate_questions py_lower py_isalnum np_sqrt questions out
    false t client model fs = (Return kept, fs1) →
  Dedup.deduplicate_questions py_lower py_isalnum np_sqrt kept out
    false t client model fs1 = (Return kept, fs1).
Proof.
  unfold Dedup.deduplicate_questions at 1.
  destruct (Qle_bool 0 t) eqn:H0; [|done].
  destruct (Qle_bool t 1) eqn:H1; [|done]. simpl.
  apply Qle_bool_iff in H0, H1.
  destruct questions as [|q0 questions].
  - intros [= <- <-].
    apply dedup_without_duplicates_writes_nothing; [done|done|constructor].
  - pose proof (exact_fold_inv py_lower py_isalnum (q0 :: questions) _
                  (exact_inv_init py_lower py_isalnum)) as [Hnd _].
    cbv zeta in Hnd.
    fold (Dedup.exact_stage py_lower py_isalnum (q0 :: questions)) in Hnd.
    intros Hrun.
    assert (kept = Dedup.deduplicated
                     (Dedup.exact_stage py_lower py_isalnum (q0 :: questions)))
      as ->.
    { destruct out as [[|c p]|]; simpl in Hrun;
        try (by injection Hrun as <-);
        destruct (Dedup.duplicates _) in Hrun; by injection Hrun as <-. }
    by apply dedup_without_duplicates_writes_nothing.
Qed.

(** C5 at a failing run.  The dropped-duplicates log holds a record of an
    earlier run; the pipeline runs on a conversation with two different
    questions and finds no duplicate.  It rewrites the other four
    side-channel files, with empty lists, and the output, and leaves the
    stale record in the dropped-duplicates log. *)
Theorem stale_duplicates_log_survives :
  let run := Examples.pipeline_run Examples.stale_files in
  run.1 = Return tt
  ∧ (∃ q0 q1,
       files run.2 !! u "output/golden_questions.jsonl"
       = Some (QuestionsFile [q0; q1]))
  ∧ files run.2 !! u "output/golden_questions_dropped_conversations.jsonl"
    = Some (DroppedConversationsFile [])
  ∧ files run.2 !! u "output/golden_questions_failed_reformulations.json"
    = Some (FailedReformulationsFile [])
  ∧ files run.2 !! u "output/golden_questions_failed_usage_mode.jsonl"
    = Some (QuestionsFile [])
  ∧ files run.2 !! u "output/golden_questions_failed_subject_topics.jsonl"
    = Some (QuestionsFile [])
  ∧ files run.2 !! u "output/golden_questions_dropped_duplicates.jsonl"
    = Some (DroppedDuplicatesFile [Examples.stale_record]).
Proof.
  cbn zeta.
  split; [vm_compute; reflexivity|].
  split; [eexists _, _; vm_compute; reflexivity|].
  repeat split; vm_compute; reflexivity.
Qed.

(** * Further properties of the code *)

(** ** White space of Python strings *)

Section StripFacts.

Local Abbreviation nonspace := (fun c : char => isspace c = false).

Lemma lstrip_nonspace c s : isspace c = false → lstrip (c :: s) = c :: s.
Proof. intros H. simpl. by rewrite H. Qed.

Lemma lstrip_head s :
  lstrip s = [] ∨ ∃ c t, lstrip s = c :: t ∧ isspace c = false.
Proof.
  induction s as [|c s IH]; simpl; [by left|].
  destruct (isspace c) eqn:E; [exact IH|]. right. by exists c, s.
Qed.

Lemma lstrip_snoc_nonspace s c :
  isspace c = false → lstrip (s ++ [c]) = lstrip s ++ [c].
Proof.
  intros Hc. induction s as [|d s IH]; simpl; [by rewrite Hc|].
  destruct (isspace d); [exact IH|done].
Qed.

Lemma rstrip_snoc_nonspace s c : isspace c = false → rstrip (s ++ [c]) = s ++ [c].
Proof.
  intros Hc. unfold rstrip. rewrite reverse_snoc, lstrip_nonspace by done.
  by rewrite reverse_cons, reverse_involutive.
Qed.

Lemma rstrip_cons_nonspace c s :
  isspace c = false → rstrip (c :: s) = c :: rstrip s.
Proof.
  intros Hc. unfold rstrip.
  rewrite reverse_cons, lstrip_snoc_nonspace, reverse_snoc by done. done.
Qed.

Lemma rstrip_last s :
  rstrip s = [] ∨ ∃ t c, rstrip s = t ++ [c] ∧ isspace c = false.
Proof.
  unfold rstrip. destruct (lstrip_head (reverse s)) as [->|(c & t & -> & Hc)].
  - by left.
  - right. exists (reverse t), c. by rewrite reverse_cons.
Qed.

(** What [strip] returns is empty, or begins and ends with a character
    that is not white space. *)
Lemma strip_shape s :
  strip s = []
  ∨ ∃ c t, strip s = c :: t ∧ isspace c = false
           ∧ ∃ t' d, strip s = t' ++ [d] ∧ isspace d = false.
Proof.
  unfold strip.
  destruct (lstrip_head s) as [->|(c & t & -> & Hc)]; [by left|].
  right. exists c, (rstrip t). split; [by apply rstrip_cons_nonspace|].
  split; [done|].
  destruct (rstrip_last (c :: t)) as [E|(t' & d & E & Hd)].
  - rewrite rstrip_cons_nonspace in E by done. done.
  - by exists t', d.
Qed.

Lemma strip_fixed s c t t' d :
  s = c :: t → isspace c = false → s = t' ++ [d] → isspace d = false →
  strip s = s.
Proof.
  intros Hs Hc Hs' Hd. unfold strip.
  rewrite Hs, lstrip_nonspace by done. rewrite <- Hs, Hs'.
  by apply rstrip_snoc_nonspace.
Qed.

(** Stripping twice is stripping once. *)
Lemma strip_idempotent s : strip (strip s) = strip s.
Proof.
  destruct (strip_shape s) as [->|(c & t & E & Hc & t' & d & E' & Hd)];
    [done|].
  by eapply strip_fixed.
Qed.

(** *** Splitting and joining *)

(** A word: not empty and free of white space. *)
Local Abbreviation word := (fun w : str => w ≠ [] ∧ Forall nonspace w).

Lemma split_go_words s :
  ∀ cur, Forall nonspace cur → Forall word (split_go cur s).
Proof.
  induction s as [|c s IH]; intros cur Hcur; cbn [split_go].
  - destruct cur as [|d cur]; [constructor|].
    constructor; [|constructor]. split.
    + intros E. apply (f_equal length) in E.
      rewrite length_reverse in E. done.
    + by apply Forall_reverse.
  - destruct (isspace c) eqn:E.
    + destruct cur as [|d cur]; [by apply IH|].
      constructor; [|by apply IH]. split.
      * intros E'. apply (f_equal length) in E'.
        rewrite length_reverse in E'. done.
      * by apply Forall_reverse.
    + apply IH. by constructor.
Qed.

Lemma split_go_chars s :
  ∀ cur w c, w ∈ split_go cur s → c ∈ w → c ∈ cur ∨ c ∈ s.
Proof.
  induction s as [|d s IH]; intros cur w c Hw Hc; cbn [split_go] in Hw.
  - destruct cur as [|e cur]; [by inversion Hw|].
    apply list_elem_of_singleton in Hw as ->.
    left. by rewrite elem_of_reverse in Hc.
  - destruct (isspace d).
    + destruct cur as [|e cur].
      * destruct (IH _ _ _ Hw Hc) as [H|H]; [by inversion H|right; by right].
      * apply elem_of_cons in Hw as [->|Hw].
        -- left. by rewrite elem_of_reverse in Hc.
        -- destruct (IH _ _ _ Hw Hc) as [H|H]; [by inversion H|right; by right].
    + destruct (IH _ _ _ Hw Hc) as [H|H].
      * apply elem_of_cons in H as [->|H]; [right; left|by left].
      * right. by right.
Qed.

Lemma split_go_word w s :
  ∀ cur, Forall nonspace w →
         split_go cur (w ++ s) = split_go (reverse w ++ cur) s.
Proof.
  induction w as [|c w IH]; intros cur Hw; [done|].
  apply Forall_cons in Hw as [Hc Hw]. simpl. rewrite Hc.
  rewrite IH by done. by rewrite reverse_cons, <- app_assoc.
Qed.

Lemma space_is_space : isspace 32%N = true.
Proof. reflexivity. Qed.

Lemma split_go_flush_end w : w ≠ [] → split_go (reverse w) [] = [w].
Proof.
  intros Hne. cbn [split_go]. destruct (reverse w) eqn:E.
  - apply (f_equal length) in E. rewrite length_reverse in E. by destruct w.
  - by rewrite <- E, reverse_involutive.
Qed.

Lemma split_go_flush_space w s :
  w ≠ [] → split_go (reverse w) (32%N :: s) = w :: split_go [] s.
Proof.
  intros Hne. cbn [split_go]. rewrite space_is_space.
  destruct (reverse w) eqn:E.
  - apply (f_equal length) in E. rewrite length_reverse in E. by destruct w.
  - by rewrite <- E, reverse_involutive.
Qed.

(** Splitting the joined words gives the words back. *)
Lemma split_join ws : Forall word ws → split (join (u " ") ws) = ws.
Proof.
  unfold split. induction ws as [|w ws IH]; intros Hws; [done|].
  apply Forall_cons in Hws as [[Hne Hw] Hws].
  destruct ws as [|w' ws].
  - change (join (u " ") [w]) with w.
    pose proof (split_go_word w [] [] Hw) as H.
    rewrite !app_nil_r in H. rewrite H.
    by apply split_go_flush_end.
  - change (join (u " ") (w :: w' :: ws))
      with (w ++ 32%N :: join (u " ") (w' :: ws)).
    rewrite split_go_word, app_nil_r by done.
    rewrite split_go_flush_space by done. f_equal. by apply IH.
Qed.

Lemma join_chars ws c :
  c ∈ join (u " ") ws → c = 32%N ∨ ∃ w, w ∈ ws ∧ c ∈ w.
Proof.
  induction ws as [|w ws IH]; [by inversion 1|].
  destruct ws as [|w' ws].
  - simpl. intros H. right. exists w. split; [left|done].
  - change (join (u " ") (w :: w' :: ws))
      with (w ++ 32%N :: join (u " ") (w' :: ws)).
    rewrite elem_of_app, elem_of_cons. intros [H|[H|H]].
    + right. exists w. split; [left|done].
    + by left.
    + destruct (IH H) as [?|(w0 & ? & ?)]; [by left|].
      right. exists w0. split; [by right|done].
Qed.

Lemma join_ends ws :
  Forall word ws → ws ≠ [] →
  (∃ c t, join (u " ") ws = c :: t ∧ isspace c = false)
  ∧ ∃ t d, join (u " ") ws = t ++ [d] ∧ isspace d = false.
Proof.
  induction ws as [|w ws IH]; intros Hws Hne; [done|].
  apply Forall_cons in Hws as [[Hw1 Hw2] Hws].
  assert (∃ t d, w = t ++ [d] ∧ isspace d = false) as (tw & dw & Ew & Hdw).
  { destruct w as [|c w] using rev_ind; [done|].
    exists w, c. split; [done|].
    apply Forall_app in Hw2 as [_ H]. by rewrite Forall_singleton in H. }
  destruct w as [|c w]; [done|]. apply Forall_cons in Hw2 as [Hc Hw2].
  destruct ws as [|w' ws].
  - simpl. split; [by exists c, w|by exists tw, dw].
  - change (join (u " ") ((c :: w) :: w' :: ws))
      with ((c :: w) ++ 32%N :: join (u " ") (w' :: ws)).
    split; [eexists c, _; split; [reflexivity|done]|].
    destruct IH as [_ (t & d & E & Hd)]; [done|done|].
    exists ((c :: w) ++ 32%N :: t), d. split; [|done].
    rewrite E. by rewrite <- app_assoc.
Qed.

End StripFacts.

(** X1.  The normal form of a text is a sequence of words separated by
    single spaces: it is left alone by stripping and by a second round of
    white-space normalisation, and each of its characters is the space
    U+0020 or a word character that is not white space. *)
Theorem normalize_text_shape (py_lower : str -> str)
    (py_isalnum : char -> bool) (text : str) :
  let n := Dedup._normalize_text py_lower py_isalnum text in
  strip n = n
  ∧ join (u " ") (split n) = n
  ∧ ∀ c, c ∈ n →
         c = 32%N ∨ (Dedup.is_word py_isalnum c = true ∧ isspace c = false).
Proof.
  cbn zeta. unfold Dedup._normalize_text.
  set (kept := filter _ (py_lower text)).
  pose proof (split_go_words kept [] (Forall_nil_2 _)) as Hwords.
  fold (split kept) in Hwords.
  split; [|split].
  - destruct (split kept) as [|w ws] eqn:E; [done|].
    destruct (join_ends (w :: ws) Hwords) as
      [(c & t & E1 & Hc) (t' & d & E2 & Hd)]; [done|].
    by eapply strip_fixed.
  - by rewrite split_join.
  - intros c Hc. apply join_chars in Hc as [?|(w & Hw & Hcw)]; [by left|].
    right. split.
    + destruct (split_go_chars kept [] w c Hw Hcw) as [H|H]; [by inversion H|].
      apply list_elem_of_filter in H as [H _].
      apply orb_prop_elim in H as [H|H].
      * by apply Is_true_true.
      * exfalso. apply Is_true_true in H.
        rewrite Forall_forall in Hwords.
        destruct (Hwords w Hw) as [_ Hns]. rewrite Forall_forall in Hns.
        specialize (Hns c Hcw). simpl in Hns. congruence.
    + rewrite Forall_forall in Hwords. destruct (Hwords w Hw) as [_ Hns].
      rewrite Forall_forall in Hns. by apply Hns.
Qed.

(** ** Exact-match stage: what is kept and what is logged *)

Section ExactLog.

Context (py_lower : str -> str) (py_isalnum : char -> bool).

Local Abbreviation key :=
  (fun q : GoldenQuestion =>
     Dedup._normalize_text py_lower py_isalnum (question q)).
Local Abbreviation step := (Dedup.exact_step py_lower py_isalnum).

(** State of the loop against the questions [l] read so far. *)
Local Abbreviation log_inv l st :=
  (Spec.exact_inv py_lower py_isalnum st
   ∧ (∀ k q, Dedup.seen_normalized st !! k = Some q →
             q ∈ Dedup.deduplicated st ∧ key q = k)
   ∧ sublist (Dedup.deduplicated st) l
   ∧ Nat.add (length (Dedup.deduplicated st)) (length (Dedup.duplicates st))
     = length l
   ∧ (∀ i q, l !! i = Some q →
             (∀ j q2, Nat.lt j i → l !! j = Some q2 → key q2 ≠ key q) →
             q ∈ Dedup.deduplicated st)
   ∧ (∀ q, q ∈ l → ∃ q', q' ∈ Dedup.deduplicated st ∧ key q' = key q)
   ∧ (∀ d o s, (d, o, s) ∈ Dedup.duplicates st →
               s = 1%Q ∧ key d = key o ∧ o ∈ Dedup.deduplicated st
               ∧ d ∈ l)).

Lemma sublist_elem {A} (l1 l2 : list A) x : sublist l1 l2 → x ∈ l1 → x ∈ l2.
Proof.
  intros Hsub Hx. apply sublist_submseteq, submseteq_Permutation in Hsub
    as [k Hk].
  rewrite Hk. apply elem_of_app. by left.
Qed.

Lemma exact_step_log l st q :
  log_inv l st → log_inv (l ++ [q]) (step st q).
Proof.
  intros (Hinv & Hseen & Hsub & Hlen & Hfirst & Hcov & Hlog).
  pose proof (exact_step_inv py_lower py_isalnum st q Hinv) as Hinv'.
  split; [exact Hinv'|]. clear Hinv'.
  unfold Dedup.exact_step.
  destruct (Dedup.seen_normalized st !! key q) as [orig|] eqn:E; cbn.
  - destruct (Hseen _ _ E) as [Horig Hkey].
    split; [done|]. split; [by apply sublist_inserts_r|].
    split; [rewrite !length_app; simpl; lia|]. split; [|split].
    + intros i q' Hi Hnone.
      destruct (decide (i < length l)%nat) as [Hlt|Hge].
      * rewrite lookup_app_l in Hi by done. apply (Hfirst i q' Hi).
        intros j q2 Hj Hq2. apply (Hnone j q2 Hj).
        rewrite lookup_app_l; [done|]. unfold Nat.lt in Hj. lia.
      * rewrite lookup_app_r in Hi by lia.
        apply list_lookup_singleton_Some in Hi as [Hi <-].
        exfalso.
        pose proof (sublist_elem _ _ _ Hsub Horig) as Hin.
        apply list_elem_of_lookup in Hin as [j Hj].
        pose proof (lookup_lt_Some _ _ _ Hj) as Hjl.
        apply (Hnone j orig); [unfold Nat.lt; lia| |done].
        by rewrite lookup_app_l.
    + intros q' [Hin|Hin]%elem_of_app; [by apply Hcov|].
      apply list_elem_of_singleton in Hin as ->. eauto.
    + intros d o s [Hin|Hin]%elem_of_app.
      * destruct (Hlog d o s Hin) as (?&?&?&?).
        repeat split; try done. apply elem_of_app; by left.
      * apply list_elem_of_singleton in Hin as [= -> -> ->].
        repeat split; [done|done|]. apply elem_of_app. right. left.
  - split.
    { intros k q'. destruct (decide (key q = k)) as [<-|Hne].
      - rewrite lookup_insert_eq. intros [= <-].
        split; [apply elem_of_app; right; left|done].
      - rewrite lookup_insert_ne by done. intros H.
        destruct (Hseen _ _ H). split; [apply elem_of_app; by left|done]. }
    split; [by apply sublist_app|].
    split; [rewrite !length_app; simpl; lia|]. split; [|split].
    + intros i q' Hi Hnone.
      destruct (decide (i < length l)%nat) as [Hlt|Hge].
      * rewrite lookup_app_l in Hi by done. apply elem_of_app. left.
        apply (Hfirst i q' Hi).
        intros j q2 Hj Hq2. apply (Hnone j q2 Hj).
        rewrite lookup_app_l; [done|]. unfold Nat.lt in Hj. lia.
      * rewrite lookup_app_r in Hi by lia.
        apply list_lookup_singleton_Some in Hi as [Hi <-].
        apply elem_of_app. right. left.
    + intros q' [Hin|Hin]%elem_of_app.
      * destruct (Hcov q' Hin) as (q2 & ? & ?). exists q2.
        split; [apply elem_of_app; by left|done].
      * apply list_elem_of_singleton in Hin as ->. exists q.
        split; [apply elem_of_app; right; left|done].
    + intros d o s Hin.
      destruct (Hlog d o s Hin) as (?&?&?&?).
      repeat split; try done; apply elem_of_app; by left.
Qed.

Lemma exact_fold_log qs :
  ∀ l st, log_inv l st → log_inv (l ++ qs) (foldl step st qs).
Proof.
  induction qs as [|q qs IH]; intros l st Hinv.
  - by rewrite app_nil_r.
  - cbn [foldl]. rewrite (cons_middle q), app_assoc.
    apply IH. by apply exact_step_log.
Qed.

Lemma exact_stage_log qs :
  log_inv qs (Dedup.exact_stage py_lower py_isalnum qs).
Proof.
  apply (exact_fold_log qs [] Dedup.exact_init).
  split; [apply exact_inv_init|]. split; [intros k q H; by simplify_map_eq|].
  split; [constructor|]. split; [done|]. split; [intros i q H; done|].
  split; [intros q H; by inversion H|].
  intros d o s H. by inversion H.
Qed.

End ExactLog.

(** X2.  The exact-match stage keeps, in input order, the first question
    of every normal form: the kept list is a sub-list of the input with
    pairwise different normal forms, a question with no earlier question of
    its normal form is kept, every input question has its normal form
    among the kept ones, and kept plus logged add up to the input.  Every
    log entry pairs an input question with a kept question of the same
    normal form at similarity 1. *)
Theorem exact_stage_keeps_first (py_lower : str -> str)
    (py_isalnum : char -> bool) (questions : list GoldenQuestion) :
  let key q := Dedup._normalize_text py_lower py_isalnum (question q) in
  let st := Dedup.exact_stage py_lower py_isalnum questions in
  sublist (Dedup.deduplicated st) questions
  ∧ NoDup (key <$> Dedup.deduplicated st)
  ∧ (∀ i q, questions !! i = Some q →
            (∀ j q2, (j < i)%nat → questions !! j = Some q2 →
                     key q2 ≠ key q) →
            q ∈ Dedup.deduplicated st)
  ∧ (∀ q, q ∈ questions →
          ∃ q', q' ∈ Dedup.deduplicated st ∧ key q' = key q)
  ∧ (length (Dedup.deduplicated st) + length (Dedup.duplicates st)
     = length questions)%nat
  ∧ (∀ d o s, (d, o, s) ∈ Dedup.duplicates st →
              s = 1%Q ∧ key d = key o ∧ o ∈ Dedup.deduplicated st
              ∧ d ∈ questions).
Proof.
  intros key st.
  destruct (exact_stage_log py_lower py_isalnum questions)
    as ([Hnd Hdom] & Hseen & Hsub & Hlen & Hfirst & Hcov & Hlog).
  split; [done|]. split; [done|]. split; [done|]. split; [done|].
  split; [done|]. exact Hlog.
Qed.

(** ** Semantic stage: the log against the removed positions *)

Lemma size_removed_filter (R : gset nat) (n : nat) :
  (∀ k, k ∈ R → (k < n)%nat) →
  size R = length (filter (fun k => k ∈ R) (seq 0 n)).
Proof.
  intros Hlt. unfold size, set_size. simpl. apply Permutation_length.
  apply NoDup_Permutation.
  - apply NoDup_elements.
  - apply NoDup_filter, NoDup_seq.
  - intros k. rewrite elem_of_elements, list_elem_of_filter, elem_of_seq.
    split; [|by intros [? _]]. intros Hk. split; [done|].
    specialize (Hlt k Hk). lia.
Qed.

Lemma remove_indices_length (R : gset nat) (qs : list GoldenQuestion) :
  (∀ k, k ∈ R → (k < length qs)%nat) →
  (length (Dedup.remove_indices R qs) + size R = length qs)%nat.
Proof.
  intros Hlt. rewrite remove_indices_positions, length_fmap.
  rewrite (size_removed_filter R (length qs) Hlt).
  pose proof (filter_app_complement (fun k => k ∈ R) (seq 0 (length qs)))
    as Hperm.
  apply Permutation_length in Hperm.
  rewrite length_app, length_seq in Hperm.
  change (fun x => ¬ x ∈ R) with (fun x => x ∉ R) in Hperm. lia.
Qed.

Section SweepLog.

Context (np_sqrt : Q -> Q) (t : Q) (embs : list Dedup.vec)
        (qs : list GoldenQuestion).

Local Abbreviation sim := (Spec.sim np_sqrt embs).
Local Abbreviation inner := (Dedup.inner_step np_sqrt t embs qs).
Local Abbreviation outer := (Dedup.outer_step np_sqrt t embs qs).
Local Abbreviation removed := Dedup.indices_to_remove.
Local Abbreviation log := Dedup.semantic_duplicates.

(** The log after the rounds below [m]. *)
Local Abbreviation sweep_inv m st :=
  (length (log st) = size (removed st)
   ∧ (∀ k, k ∈ removed st → Nat.lt k (length qs))
   ∧ ∀ d o s, (d, o, s) ∈ log st →
       ∃ i j, Nat.lt i m ∧ Nat.lt i j ∧ Nat.lt j (length qs)
              ∧ d = qs !!! j ∧ o = qs !!! i ∧ s = sim i j
              ∧ Qle_bool t s = true
              ∧ j ∈ removed st ∧ i ∉ removed st).

Lemma inner_step_log st i j :
  (i < j)%nat → (j < length qs)%nat → i ∉ removed st →
  sweep_inv (S i) st →
  i ∉ removed (inner i st j) ∧ sweep_inv (S i) (inner i st j).
Proof.
  intros Hij Hj Hi (Hlen & Hran & Hlog).
  unfold Dedup.inner_step. fold (sim i j).
  destruct (decide (j ∈ removed st)) as [Hin|Hin]; [done|].
  destruct (Qle_bool t (sim i j)) eqn:E; [|done]. cbn.
  split; [set_solver by lia|]. split; [|split].
  - rewrite length_app, size_union, size_singleton by set_solver.
    simpl. lia.
  - intros k [->%elem_of_singleton|Hk]%elem_of_union; [done|by apply Hran].
  - intros d o s [Hd|Hd]%elem_of_app.
    + destruct (Hlog d o s Hd) as (i' & j' & ? & ? & ? & ? & ? & ? & ? & ? & ?).
      exists i', j'. repeat split; try done; unfold Nat.lt in *;
        set_solver by lia.
    + apply list_elem_of_singleton in Hd as [= -> -> ->].
      exists i, j. repeat split; try done; unfold Nat.lt in *;
        set_solver by lia.
Qed.

Lemma inner_fold_log js : ∀ st i,
  Forall (fun j => (i < j)%nat ∧ (j < length qs)%nat) js →
  i ∉ removed st → sweep_inv (S i) st →
  i ∉ removed (foldl (inner i) st js) ∧ sweep_inv (S i) (foldl (inner i) st js).
Proof.
  induction js as [|j js IH]; intros st i Hjs Hi Hinv; [done|].
  apply Forall_cons in Hjs as [[Hij Hj] Hjs]. cbn [foldl].
  destruct (inner_step_log st i j Hij Hj Hi Hinv) as [Hi' Hinv'].
  by apply IH.
Qed.

Lemma sweep_inv_weaken m st : sweep_inv m st → sweep_inv (S m) st.
Proof.
  intros (Hlen & Hran & Hlog). split; [done|]. split; [done|].
  intros d o s Hd.
  destruct (Hlog d o s Hd) as (i' & j' & ? & ? & ? & ? & ? & ? & ? & ? & ?).
  exists i', j'. repeat split; try done. unfold Nat.lt in *. lia.
Qed.

Lemma outer_step_log st i : sweep_inv i st → sweep_inv (S i) (outer st i).
Proof.
  intros Hinv. unfold Dedup.outer_step.
  destruct (decide (i ∈ removed st)) as [Hi|Hi];
    [by apply sweep_inv_weaken|].
  apply inner_fold_log; [|done|by apply sweep_inv_weaken].
  apply Forall_forall. intros j Hj%elem_of_seq. lia.
Qed.

Lemma outer_prefix_log m :
  sweep_inv m (foldl outer Dedup.sweep_init (seq 0 m)).
Proof.
  induction m as [|m IH].
  - simpl. split; [done|]. split; [intros k Hk; set_solver|].
    intros d o s Hd. by inversion Hd.
  - rewrite seq_S, foldl_app. simpl. by apply outer_step_log.
Qed.

End SweepLog.

Lemma sweep_accounts (np_sqrt : Q -> Q) (t : Q) (embs : list Dedup.vec)
    (qs : list GoldenQuestion) :
  let st := Dedup.sweep np_sqrt t embs qs in
  (length (Dedup.remove_indices (Dedup.indices_to_remove st) qs)
   + length (Dedup.semantic_duplicates st) = length qs)%nat
  ∧ 0%nat ∉ Dedup.indices_to_remove st.
Proof.
  intros st.
  destruct (outer_prefix_log np_sqrt t embs qs (length qs))
    as (Hlen & Hran & _).
  fold (Dedup.sweep np_sqrt t embs qs) in Hlen, Hran. fold st in Hlen, Hran.
  split.
  - rewrite Hlen. by apply remove_indices_length.
  - intros H0. apply sweep_removed_iff in H0 as (_ & i & Hi & _). lia.
Qed.

(** X3.  The semantic sweep logs one entry per removed position, so the
    kept questions and the log entries add up to the input of the stage.
    Every entry names a removed question (position j), an earlier question
    that is kept (position i < j) and their cosine similarity, which
    reaches the threshold.  The first question is never removed. *)
Theorem semantic_log_accounts_for_removed (np_sqrt : Q -> Q) (t : Q)
    (embeddings : list Dedup.vec) (deduplicated : list GoldenQuestion) :
  let st := Dedup.sweep np_sqrt t embeddings deduplicated in
  let kept :=
    Dedup.remove_indices (Dedup.indices_to_remove st) deduplicated in
  length (Dedup.semantic_duplicates st) = size (Dedup.indices_to_remove st)
  ∧ (length kept + length (Dedup.semantic_duplicates st)
     = length deduplicated)%nat
  ∧ 0%nat ∉ Dedup.indices_to_remove st
  ∧ ∀ d o s, (d, o, s) ∈ Dedup.semantic_duplicates st →
      ∃ i j, (i < j)%nat ∧ (j < length deduplicated)%nat
             ∧ d = deduplicated !!! j ∧ o = deduplicated !!! i
             ∧ s = Dedup._compute_cosine_similarity np_sqrt
                     (embeddings !!! i) (embeddings !!! j)
             ∧ Qle_bool t s = true
             ∧ j ∈ Dedup.indices_to_remove st
             ∧ i ∉ Dedup.indices_to_remove st
             ∧ o ∈ kept.
Proof.
  intros st kept.
  destruct (outer_prefix_log np_sqrt t embeddings deduplicated
              (length deduplicated)) as (Hlen & Hran & Hlog).
  fold (Dedup.sweep np_sqrt t embeddings deduplicated) in Hlen, Hran, Hlog.
  fold st in Hlen, Hran, Hlog.
  split; [done|]. split; [|split].
  - rewrite Hlen. by apply remove_indices_length.
  - intros H0. apply sweep_removed_iff in H0 as (_ & i & Hi & _). lia.
  - intros d o s Hd.
    destruct (Hlog d o s Hd) as (i & j & ? & ? & ? & ? & ? & ? & ? & ? & ?).
    exists i, j. repeat split; try done. subst o. unfold kept.
    rewrite remove_indices_positions. apply list_elem_of_fmap.
    exists i. split; [done|]. apply list_elem_of_filter. split; [done|].
    apply elem_of_seq. unfold Nat.lt in *. lia.
Qed.

(** ** [deduplicate_questions] from end to end *)

Lemma remove_indices_sublist (R : gset nat) (qs : list GoldenQuestion) :
  sublist (Dedup.remove_indices R qs) qs.
Proof.
  unfold Dedup.remove_indices.
  assert (snd <$> imap pair qs = qs) as Hid.
  { rewrite fmap_imap. change (imap (const (fun q : GoldenQuestion => q)) qs = qs).
    rewrite imap_const. apply list_fmap_id. }
  rewrite <- Hid at 2. apply fmap_sublist, sublist_filter.
Qed.

Lemma remove_indices_head (R : gset nat) (qs : list GoldenQuestion) :
  0%nat ∉ R → head (Dedup.remove_indices R qs) = head qs.
Proof.
  intros H0. destruct qs as [|q qs]; [done|].
  unfold Dedup.remove_indices. cbn [imap]. rewrite filter_cons.
  simpl. by destruct (decide (0%nat ∉ R)).
Qed.

Lemma exact_fold_prefix py_lower py_isalnum qs : ∀ st,
  ∃ more,
    Dedup.deduplicated (foldl (Dedup.exact_step py_lower py_isalnum) st qs)
    = Dedup.deduplicated st ++ more.
Proof.
  induction qs as [|q qs IH]; intros st; simpl.
  - exists []. by rewrite app_nil_r.
  - destruct (IH (Dedup.exact_step py_lower py_isalnum st q)) as [more ->].
    unfold Dedup.exact_step.
    destruct (Dedup.seen_normalized st !! _); cbn; [by eexists|].
    rewrite <- app_assoc. by eexists.
Qed.

Lemma exact_stage_head py_lower py_isalnum qs :
  head (Dedup.deduplicated (Dedup.exact_stage py_lower py_isalnum qs))
  = head qs.
Proof.
  destruct qs as [|q qs]; [done|]. unfold Dedup.exact_stage. cbn [foldl].
  destruct (exact_fold_prefix py_lower py_isalnum qs
              (Dedup.exact_step py_lower py_isalnum Dedup.exact_init q))
    as [more ->].
  done.
Qed.

Lemma semantic_stage_outcome np_sqrt t client model qs :
  match Dedup.semantic_stage np_sqrt t client model qs with
  | Return (kept, dups) =>
      sublist kept qs ∧ head kept = head qs
      ∧ (length kept + length dups = length qs)%nat
  | Raise e => ∃ m, e = RuntimeError m
  end.
Proof.
  unfold Dedup.semantic_stage.
  destruct (Dedup._generate_embeddings _ _ _) as [embs|e] eqn:E.
  - destruct (sweep_accounts np_sqrt t embs qs) as (Hlen & H0).
    split; [apply remove_indices_sublist|].
    split; [by apply remove_indices_head|done].
  - by eapply generate_embeddings_raises.
Qed.

Lemma dedup_write_outcome (py_lower : str -> str) (py_isalnum : char -> bool)
    (questions kept : list GoldenQuestion)
    (dups : list Dedup.dup_entry) (output_dropped_file : option str)
    (fs : filesystem) :
  (length kept + length dups = length questions)%nat →
  let fs' :=
    match output_dropped_file with
    | Some path =>
        if (if path is [] then false else true)
           && (if dups is [] then false else true)
        then Dedup.save_dropped_duplicates py_lower py_isalnum dups path fs
        else fs
    | None => fs
    end in
  match output_dropped_file with
  | Some (c :: path) =>
      if decide (length kept < length questions)%nat
      then ∃ records,
             fs' = write_file (c :: path) (DroppedDuplicatesFile records) fs
             ∧ (length kept + length records = length questions)%nat
      else fs' = fs
  | _ => fs' = fs
  end.
Proof.
  intros Hlen. destruct output_dropped_file as [[|c path]|]; [done| |done].
  cbn. destruct dups as [|d dups]; simpl in *.
  - destruct (decide _); [lia|done].
  - destruct (decide _); [|lia].
    eexists. split; [reflexivity|]. simpl. rewrite length_fmap. lia.
Qed.

(** The outcomes of [deduplicate_questions]. *)
Lemma deduplicate_questions_cases (py_lower : str -> str) (py_isalnum : char -> bool)
    (np_sqrt : Q -> Q) (questions : list GoldenQuestion)
    (output_dropped_file : option str) (use_semantic : bool)
    (similarity_threshold : Q)
    (embedding_client_ : option Dedup.embedding_client)
    (embedding_model : option str) (fs : filesystem) :
  let configured :=
    Qle_bool 0 similarity_threshold && Qle_bool similarity_threshold 1
    && (negb use_semantic
        || match embedding_client_, embedding_model with
           | Some _, Some _ => true
           | _, _ => false
           end) in
  match Dedup.deduplicate_questions py_lower py_isalnum np_sqrt questions
          output_dropped_file use_semantic similarity_threshold
          embedding_client_ embedding_model fs with
  | (Return kept, fs') =>
      configured = true
      ∧ sublist kept questions
      ∧ head kept = head questions
      ∧ match output_dropped_file with
        | Some (c :: path) =>
            if decide (length kept < length questions)%nat
            then ∃ records,
                   fs' = write_file (c :: path)
                           (DroppedDuplicatesFile records) fs
                   ∧ (length kept + length records
                      = length questions)%nat
            else fs' = fs
        | _ => fs' = fs
        end
  | (Raise e, fs') =>
      configured = false ∧ fs' = fs ∧ ∃ msg, e = ValueError msg
  end.
Proof.
  intros configured. subst configured. unfold Dedup.deduplicate_questions.
  destruct (Qle_bool 0 similarity_threshold
            && Qle_bool similarity_threshold 1) eqn:Ht; simpl;
    [|split; [done|split; [done|eauto]]].
  pose proof (exact_stage_log py_lower py_isalnum questions)
    as (_ & _ & Hsub & Hlen & _).
  pose proof (exact_stage_head py_lower py_isalnum questions) as Hhead.
  set (st := Dedup.exact_stage py_lower py_isalnum questions) in *.
  assert (∀ kept dups,
            sublist kept questions → head kept = head questions →
            (length kept + length dups = length questions)%nat →
            true = true ∧ sublist kept questions
            ∧ head kept = head questions
            ∧ match output_dropped_file with
              | Some (c :: path) =>
                  if decide (length kept < length questions)%nat
                  then ∃ records,
                      match output_dropped_file with
                      | Some path =>
                          if (if path is [] then false else true)
                             && (if dups is [] then false else true)
                          then Dedup.save_dropped_duplicates py_lower
                                 py_isalnum dups path fs
                          else fs
                      | None => fs
                      end
                      = write_file (c :: path)
                          (DroppedDuplicatesFile records) fs
                      ∧ (length kept + length records
                         = length questions)%nat
                  else match output_dropped_file with
                       | Some path =>
                           if (if path is [] then false else true)
                              && (if dups is [] then false else true)
                           then Dedup.save_dropped_duplicates py_lower
                                  py_isalnum dups path fs
                           else fs
                       | None => fs
                       end = fs
              | _ => match output_dropped_file with
                     | Some path =>
                         if (if path is [] then false else true)
                            && (if dups is [] then false else true)
                         then Dedup.save_dropped_duplicates py_lower
                                py_isalnum dups path fs
                         else fs
                     | None => fs
                     end = fs
              end) as Hfin.
  { intros kept dups H1 H2 H3. split; [done|]. split; [done|].
    split; [done|].
    pose proof (dedup_write_outcome py_lower py_isalnum questions kept dups
                  output_dropped_file fs H3) as Hw.
    cbn zeta in Hw. destruct output_dropped_file as [[|c path]|]; done. }
  destruct use_semantic; simpl.
  - destruct embedding_client_ as [client|];
      [|split; [done|split; [done|eauto]]].
    destruct embedding_model as [model|];
      [|split; [done|split; [done|eauto]]].
    destruct questions as [|q0 questions'] eqn:Eq.
    { split; [done|]. split; [done|]. split; [done|].
      destruct output_dropped_file as [[|c path]|]; done. }
    rewrite <- Eq in *. clear Eq.
    destruct (decide (1 < length (Dedup.deduplicated st))%nat);
      [|by apply Hfin].
    pose proof (semantic_stage_outcome np_sqrt similarity_threshold client
                  model (Dedup.deduplicated st)) as Hsem.
    destruct (Dedup.semantic_stage _ _ _ _ _) as [[kept sd]|e].
    + destruct Hsem as (Hs & Hh & Hl). apply Hfin.
      * by etrans.
      * congruence.
      * rewrite length_app. lia.
    + destruct Hsem as [m ->]. by apply Hfin.
  - destruct questions as [|q0 questions'] eqn:Eq.
    { split; [by destruct embedding_client_, embedding_model|].
      split; [done|]. split; [done|].
      destruct output_dropped_file as [[|c path]|]; done. }
    rewrite <- Eq in *. clear Eq.
    destruct embedding_client_, embedding_model; by apply Hfin.
Qed.

(** The list that is returned does not depend on the log path. *)
Lemma dedup_result_without_log (py_lower : str -> str)
    (py_isalnum : char -> bool) (np_sqrt : Q -> Q)
    (questions : list GoldenQuestion) (output_dropped_file : option str)
    (use_semantic : bool) (similarity_threshold : Q)
    (embedding_client_ : option Dedup.embedding_client)
    (embedding_model : option str) (fs : filesystem) :
  (Dedup.deduplicate_questions py_lower py_isalnum np_sqrt questions
     output_dropped_file use_semantic similarity_threshold
     embedding_client_ embedding_model fs).1
  = (Dedup.deduplicate_questions py_lower py_isalnum np_sqrt questions
       None use_semantic similarity_threshold embedding_client_
       embedding_model fs).1.
Proof.
  unfold Dedup.deduplicate_questions.
  destruct (negb _); [done|].
  destruct use_semantic, embedding_client_ as [client|],
    embedding_model as [model|]; try done;
    destruct questions as [|q0 questions']; try done;
    repeat match goal with
           | |- context [match ?x with _ => _ end] =>
               lazymatch x with
               | context [match _ with _ => _ end] => fail
               | _ => destruct x
               end
           end; done.
Qed.

(** X4.  [deduplicate_questions] checks how it is configured before
    anything else: with a threshold outside [0, 1], or with semantic
    matching and no client or no model, it raises the ValueError of that
    check and touches no file, whatever the log path.  Otherwise a call
    without a log path (none, or an empty one) returns, with the files
    untouched, a sub-list of the input, in input order, that starts with
    the first input question; and whenever a call with a log path returns,
    it returns that same list, and it has written the log only if
    something was dropped, with one record per dropped question. *)
Theorem dedup_outcome (py_lower : str -> str) (py_isalnum : char -> bool)
    (np_sqrt : Q -> Q) (questions : list GoldenQuestion)
    (use_semantic : bool) (similarity_threshold : Q)
    (embedding_client_ : option Dedup.embedding_client)
    (embedding_model : option str) (fs : filesystem) :
  let valid :=
    Qle_bool 0 similarity_threshold && Qle_bool similarity_threshold 1 in
  let equipped :=
    negb use_semantic
    || match embedding_client_, embedding_model with
       | Some _, Some _ => true
       | _, _ => false
       end in
  let run output_dropped_file :=
    Dedup.deduplicate_questions py_lower py_isalnum np_sqrt questions
      output_dropped_file use_semantic similarity_threshold
      embedding_client_ embedding_model fs in
  if valid && equipped then
    ∃ kept,
      sublist kept questions
      ∧ head kept = head questions
      ∧ run None = (Return kept, fs)
      ∧ run (Some []) = (Return kept, fs)
      ∧ ∀ c path kept' fs',
          run (Some (c :: path)) = (Return kept', fs') →
          kept' = kept
          ∧ if decide (length kept < length questions)%nat
            then ∃ records,
                   fs' = write_file (c :: path)
                           (DroppedDuplicatesFile records) fs
                   ∧ (length kept + length records
                      = length questions)%nat
            else fs' = fs
  else
    ∀ output_dropped_file,
      run output_dropped_file
      = (Raise (ValueError
                  (if valid
                   then u "embedding_client and embedding_model are required when use_semantic=True"
                   else u "similarity_threshold must be between 0.0 and 1.0")),
         fs).
Proof.
  intros valid equipped run.
  destruct (valid && equipped) eqn:Hconf.
  - pose proof (deduplicate_questions_cases py_lower py_isalnum np_sqrt
                  questions None use_semantic similarity_threshold
                  embedding_client_ embedding_model fs) as Hnone.
    cbn zeta in Hnone. fold valid equipped (run None) in Hnone.
    destruct (run None) as [[kept|e] fs0] eqn:Erun.
    2:{ destruct Hnone as [Hc _]. congruence. }
    destruct Hnone as (_ & Hsub & Hhead & ->).
    exists kept. split; [done|]. split; [done|]. split; [done|].
    assert (∀ out, (run out).1 = Return kept) as Hsame.
    { intros out. unfold run.
      rewrite dedup_result_without_log. fold (run None). by rewrite Erun. }
    split.
    + pose proof (deduplicate_questions_cases py_lower py_isalnum np_sqrt
                    questions (Some []) use_semantic similarity_threshold
                    embedding_client_ embedding_model fs) as Hempty.
      cbn zeta in Hempty. fold (run (Some [])) in Hempty.
      specialize (Hsame (Some [])).
      destruct (run (Some [])) as [[kept0|e] fs0]; cbn [fst] in Hsame;
        [|done].
      destruct Hempty as (_ & _ & _ & ->). congruence.
    + intros c path kept' fs' Hrun.
      pose proof (deduplicate_questions_cases py_lower py_isalnum np_sqrt
                    questions (Some (c :: path)) use_semantic
                    similarity_threshold embedding_client_ embedding_model
                    fs) as Hpath.
      cbn zeta in Hpath. fold (run (Some (c :: path))) in Hpath.
      specialize (Hsame (Some (c :: path))).
      rewrite Hrun in Hpath, Hsame. cbn [fst] in Hsame.
      injection Hsame as ->. split; [done|].
      by destruct Hpath as (_ & _ & _ & Hfs).
  - intros out. unfold run, Dedup.deduplicate_questions.
    subst valid equipped.
    destruct (Qle_bool 0 similarity_threshold
              && Qle_bool similarity_threshold 1); [|done].
    cbn [negb]. cbn [andb] in Hconf.
    by destruct use_semantic, embedding_client_, embedding_model.
Qed.

(** ** Embeddings: one call per text *)

Lemma embed_all_returns client model texts : ∀ n embs,
  Dedup.embed_all client model n texts = Return embs →
  ∀ k text, texts !! k = Some text →
    ∃ v, embs !! k = Some v ∧ client (n + k)%nat text model = Return v.
Proof.
  induction texts as [|x texts IH]; intros n embs; simpl; [done|].
  destruct (client n x model) as [v|] eqn:Ec; [|done].
  destruct (Dedup.embed_all client model (S n) texts) as [vs|] eqn:E;
    [|done].
  intros [= <-] k text Hk. destruct k as [|k].
  - injection Hk as <-. exists v. by rewrite Nat.add_0_r.
  - destruct (IH (S n) vs E k text Hk) as (w & Hw & Hc).
    exists w. split; [done|]. by rewrite <- Nat.add_succ_comm.
Qed.

Lemma embed_all_first_failure client model texts : ∀ n e,
  Dedup.embed_all client model n texts = Raise e →
  ∃ k text, texts !! k = Some text
            ∧ client (n + k)%nat text model = Raise e
            ∧ ∀ k' text', (k' < k)%nat → texts !! k' = Some text' →
                ∃ v, client (n + k')%nat text' model = Return v.
Proof.
  induction texts as [|x texts IH]; intros n e; simpl; [done|].
  destruct (client n x model) as [v|e0] eqn:Ec.
  - destruct (Dedup.embed_all client model (S n) texts) as [vs|e1] eqn:E;
      [done|].
    intros [= <-].
    destruct (IH (S n) e1 E) as (k & text & Hk & Hc & Hbefore).
    exists (S k), text. split; [done|].
    split; [by rewrite <- Nat.add_succ_comm|].
    intros [|k'] text' Hlt Hk'.
    + injection Hk' as <-. exists v. by rewrite Nat.add_0_r.
    + destruct (Hbefore k' text') as [w Hw]; [lia|done|].
      exists w. by rewrite <- Nat.add_succ_comm.
  - intros [= <-]. exists 0%nat, x. split; [done|].
    split; [by rewrite Nat.add_0_r|]. intros k' text' Hlt. lia.
Qed.

Lemma forallb_false_elem {A} (f : A → bool) (l : list A) :
  forallb f l = false → ∃ x, x ∈ l ∧ f x = false.
Proof.
  induction l as [|x l IH]; simpl; [done|].
  destruct (f x) eqn:E; simpl.
  - intros (y & ? & ?)%IH. exists y. split; [by right|done].
  - intros _. exists x. split; [by left|done].
Qed.

Lemma np_array_outcome rows :
  match Dedup.np_array rows with
  | Return m => m = rows ∧ ∀ r r', r ∈ rows → r' ∈ rows → length r = length r'
  | Raise e => e = ValueError (u "inhomogeneous shape")
               ∧ ∃ r r', r ∈ rows ∧ r' ∈ rows ∧ length r ≠ length r'
  end.
Proof.
  unfold Dedup.np_array. destruct rows as [|r0 rows]; [split; [done|]|].
  { intros r r' H. by inversion H. }
  destruct (forallb _ _) eqn:E.
  - split; [done|]. rewrite forallb_forall in E.
    intros r r' Hr Hr'.
    apply list_elem_of_In, E, Nat.eqb_eq in Hr.
    apply list_elem_of_In, E, Nat.eqb_eq in Hr'. congruence.
  - split; [done|].
    apply forallb_false_elem in E as (r & Hr & Hne).
    apply Nat.eqb_neq in Hne. exists r, r0. split; [done|].
    split; [by left|done].
Qed.

(** X5.  [_generate_embeddings] makes one call per text, in order: when
    it returns, row k is the answer of call k to text k and all rows have
    one length.  It fails only on a non-empty input, always with a
    RuntimeError whose message wraps the cause: either the first call
    that failed (the calls before it answered), or numpy refusing rows of
    different lengths after every call answered. *)
Theorem generate_embeddings_outcome (texts : list str)
    (client : Dedup.embedding_client) (model : str) :
  match Dedup._generate_embeddings texts client model with
  | Return embeddings =>
      length embeddings = length texts
      ∧ (∀ k text, texts !! k = Some text →
           ∃ v, embeddings !! k = Some v ∧ client k text model = Return v)
      ∧ (∀ r r', r ∈ embeddings → r' ∈ embeddings → length r = length r')
  | Raise e =>
      texts ≠ []
      ∧ ∃ cause,
          e = RuntimeError
                (u "Embedding generation failed: " ++ exn_str cause)
          ∧ ((∃ k text, texts !! k = Some text
                        ∧ client k text model = Raise cause
                        ∧ ∀ k' text', (k' < k)%nat →
                            texts !! k' = Some text' →
                            ∃ v, client k' text' model = Return v)
             ∨ (cause = ValueError (u "inhomogeneous shape")
                ∧ ∃ (rows : list Dedup.vec) (r r' : Dedup.vec),
                    (∀ k text, texts !! k = Some text →
                       ∃ v, rows !! k = Some v
                            ∧ client k text model = Return v)
                    ∧ r ∈ rows ∧ r' ∈ rows ∧ length r ≠ length r'))
  end.
Proof.
  unfold Dedup._generate_embeddings.
  destruct texts as [|x texts].
  { split; [done|]. split; [done|]. intros r r' H. by inversion H. }
  destruct (Dedup.embed_all client model 0 (x :: texts)) as [rows|e] eqn:E.
  - pose proof (embed_all_length _ _ _ _ _ E) as Hlen.
    pose proof (embed_all_returns _ _ _ _ _ E) as Hrows.
    pose proof (np_array_outcome rows) as Hnp.
    destruct (Dedup.np_array rows) as [m|e].
    + destruct Hnp as [-> Hhom]. split; [done|]. split; [|done].
      intros k text Hk. by apply Hrows.
    + destruct Hnp as [-> (r & r' & Hr & Hr' & Hne)]. split; [done|].
      eexists. split; [reflexivity|]. right. split; [done|].
      exists rows, r, r'. split; [|done].
      intros k text Hk. by apply Hrows.
  - split; [done|]. exists e. split; [done|]. left.
    destruct (embed_all_first_failure _ _ _ _ _ E)
      as (k & text & Hk & Hc & Hbefore).
    exists k, text. split; [done|]. split; [done|].
    intros k' text' Hlt Hk'. by apply Hbefore.
Qed.

(** ** Cosine similarity *)

Section Cosine.

Context (np_sqrt : Q -> Q).

Local Abbreviation dot := Dedup.dot.
Local Abbreviation cosine := (Dedup._compute_cosine_similarity np_sqrt).

Lemma Qmult_comm_eq (a b : Q) : (a * b)%Q = (b * a)%Q.
Proof.
  destruct a as [an ad], b as [bn bd]. unfold Qmult. simpl.
  by rewrite Z.mul_comm, Pos.mul_comm.
Qed.

Lemma dot_comm (v w : Dedup.vec) : dot v w = dot w v.
Proof.
  unfold Dedup.dot. revert w.
  induction v as [|x v IH]; intros [|y w]; simpl; try done.
  by rewrite IH, Qmult_comm_eq.
Qed.

End Cosine.

(** X6.  Cosine similarity does not depend on the order of its two
    arguments (so comparing only the pairs i < j loses nothing), and it is
    0 as soon as one of the two magnitudes is 0. *)
Theorem cosine_similarity_symmetric (np_sqrt : Q -> Q)
    (vec1 vec2 : Dedup.vec) :
  Dedup._compute_cosine_similarity np_sqrt vec1 vec2
  = Dedup._compute_cosine_similarity np_sqrt vec2 vec1
  ∧ (Qeq_bool (Dedup.norm np_sqrt vec1) 0 = true →
     Dedup._compute_cosine_similarity np_sqrt vec1 vec2 = 0%Q
     ∧ Dedup._compute_cosine_similarity np_sqrt vec2 vec1 = 0%Q).
Proof.
  assert (Dedup._compute_cosine_similarity np_sqrt vec1 vec2
          = Dedup._compute_cosine_similarity np_sqrt vec2 vec1) as Hsym.
  { unfold Dedup._compute_cosine_similarity.
    rewrite (dot_comm vec1 vec2), orb_comm.
    by rewrite (Qmult_comm_eq (Dedup.norm np_sqrt vec1)). }
  split; [done|]. intros Hz. rewrite <- Hsym.
  unfold Dedup._compute_cosine_similarity. by rewrite Hz.
Qed.

(** ** Reformulation: what every run does, whatever the back end answers *)

Lemma parse_reformulation_returns (json_loads : str -> option json)
    (py_repr : json -> str) (response : ChatResponse) (s : str) :
  Reformulator.parse_reformulation json_loads py_repr response = Return s →
  s ≠ [] ∧ strip s = s.
Proof.
  unfold Reformulator.parse_reformulation.
  destruct (first_choice response) as [choice|]; [|done].
  destruct (bool_decide _); [done|].
  destruct (content choice) as [c|]; [|done].
  destruct (strip c); [done|].
  destruct (json_loads _) as [v|]; [|by destruct (decide _)].
  destruct (json_contains _ v) as [[|]|]; try done.
  destruct (json_index _ v) as [[| | |r| |]|]; try done.
  destruct (strip r) as [|x0 r0] eqn:E; [done|].
  intros [= <-]. split; [done|]. rewrite <- E. apply strip_idempotent.
Qed.

Section ReformulatorOutcome.

Context (json_loads : str -> option json) (py_repr : json -> str)
        (client : chat_client) (model : str) (question : str)
        (previous_messages : list Message) (max_retries : Z).

Local Abbreviation att :=
  (Spec.reformulation_attempt json_loads py_repr client model question
     previous_messages).
Local Abbreviation loop :=
  (Reformulator.attempts json_loads py_repr client model question
     previous_messages max_retries).

Lemma reformulation_attempt_returns n s :
  att n = Return s → s ≠ [] ∧ strip s = s.
Proof.
  unfold Spec.reformulation_attempt.
  destruct (client n _); [|done]. apply parse_reformulation_returns.
Qed.

Lemma attempts_outcome remaining : ∀ attempt w,
  (remaining = 0%nat ∨ attempt + Z.of_nat remaining = max_retries + 1) →
  ∃ n : nat,
    (n ≤ remaining)%nat
    ∧ chat_calls (loop remaining attempt w).2 = (chat_calls w + n)%nat
    ∧ sleeps (loop remaining attempt w).2
      = sleeps w
        ++ ((fun j : nat => 2 ^ (attempt + Z.of_nat j + 1))
            <$> seq 0 (n - 1))
    ∧ files (loop remaining attempt w).2 = files w
    ∧ match (loop remaining attempt w).1 with
      | Return s =>
          (0 < n)%nat ∧ s ≠ [] ∧ strip s = s
          ∧ att (chat_calls w + n - 1)%nat = Return s
      | Raise e => n = remaining ∧ ∃ msg, e = ValueError msg
      end.
Proof.
  induction remaining as [|remaining IH]; intros attempt w Hsum.
  - exists 0%nat. simpl. rewrite app_nil_r, Nat.add_0_r.
    repeat split; eauto.
  - destruct Hsum as [?|Hsum]; [done|].
    cbn [Reformulator.attempts]. unfold try_except.
    rewrite reformulation_attempt_once.
    destruct (att (chat_calls w)) as [s|e] eqn:Ea.
    + exists 1%nat. cbn. rewrite app_nil_r.
      split; [lia|]. split; [lia|]. split; [done|]. split; [done|].
      split; [lia|]. destruct (reformulation_attempt_returns _ _ Ea).
      split; [done|]. split; [done|]. rewrite <- Ea. f_equal. lia.
    + destruct remaining as [|remaining].
      * assert (attempt = max_retries) as -> by lia.
        destruct (reformulation_give_up max_retries e
                    (loop 0%nat (max_retries + 1))
                    {| chat_calls := S (chat_calls w); sleeps := sleeps w;
                       files := files w |}) as [msg ->].
        exists 1%nat. cbn. rewrite app_nil_r.
        split; [lia|]. split; [lia|]. split; [done|]. split; [done|].
        split; [done|]. by exists msg.
      * rewrite reformulation_retry by lia.
        set (w1 := {| chat_calls := _; sleeps := _; files := _ |}).
        destruct (IH (attempt + 1) w1) as (n & Hn & Hc & Hs & Hf & Hr);
          [right; lia|].
        destruct (loop (S remaining) (attempt + 1) w1) as [res w2].
        cbn [fst snd] in *.
        assert (0 < n)%nat as Hpos.
        { destruct res; [by destruct Hr|]. destruct Hr as [Hr _]. lia. }
        exists (S n). split; [lia|]. rewrite Hc, Hs, Hf. subst w1. cbn.
        split; [lia|]. split; [|split; [done|]].
        -- rewrite <- app_assoc. f_equal. rewrite Nat.sub_0_r.
           destruct n as [|n]; [lia|]. simpl. rewrite Nat.sub_0_r.
           f_equal; [f_equal; lia|].
           rewrite <- fmap_S_seq, <- list_fmap_compose.
           apply list_fmap_ext. intros _ j _. simpl. f_equal. lia.
        -- destruct res as [s|e'].
           ++ destruct Hr as (_ & ? & ? & Hatt). split; [lia|].
              split; [done|]. split; [done|]. rewrite <- Hatt. cbn.
              f_equal. lia.
           ++ destruct Hr as [-> Hm]. done.
Qed.

End ReformulatorOutcome.

(** X8.  Whatever the chat back end answers, [reformulate_question_llm]
    makes at most max_retries + 1 chat calls, sleeps 2, 4, 8, ... seconds
    between consecutive calls and at no other time, and leaves the files
    alone.  A text it returns is the answer of the last call, non-empty
    and without surrounding white space; when it raises, it has used every
    attempt (none for a negative retry limit) and the error is a
    ValueError. *)
Theorem reformulation_outcome (json_loads : str -> option json)
    (py_repr : json -> str) (question : str)
    (previous_messages : list Message) (client : chat_client) (model : str)
    (max_retries : Z) (w : world) :
  let run :=
    Reformulator.reformulate_question_llm json_loads py_repr question
      previous_messages client model max_retries w in
  ∃ n : nat,
    (n ≤ Z.to_nat (max_retries + 1))%nat
    ∧ chat_calls run.2 = (chat_calls w + n)%nat
    ∧ sleeps run.2
      = sleeps w ++ ((fun j : nat => 2 ^ (Z.of_nat j + 1)) <$> seq 0 (n - 1))
    ∧ files run.2 = files w
    ∧ match run.1 with
      | Return s =>
          (0 < n)%nat ∧ s ≠ [] ∧ strip s = s
          ∧ Spec.reformulation_attempt json_loads py_repr client model
              question previous_messages (chat_calls w + n - 1)%nat
            = Return s
      | Raise e =>
          n = Z.to_nat (max_retries + 1) ∧ ∃ msg, e = ValueError msg
      end.
Proof.
  intros run. subst run. unfold Reformulator.reformulate_question_llm.
  destruct (attempts_outcome json_loads py_repr client model question
              previous_messages max_retries (Z.to_nat (max_retries + 1))
              0 w) as (n & Hn & Hc & Hs & Hf & Hr).
  { destruct (decide (0 ≤ max_retries + 1)); [right; lia|left; lia]. }
  exists n. split; [done|]. split; [done|]. split; [|done].
  rewrite Hs. f_equal.
Qed.

(** ** Usage-mode categorisation: what every run does *)

Section CategorizerOutcome.

Context (json_loads : str -> option json) (py_repr : json -> str)
        (json_error : str -> str)
        (client : chat_client) (model : str) (q : GoldenQuestion)
        (max_retries : Z).

Local Abbreviation request := (UsageModeRequest model (question q)).
Local Abbreviation att :=
  (Spec.usage_mode_attempt json_loads py_repr json_error client model q).
Local Abbreviation next_content :=
  (Spec.content_after_attempt client model q).
Local Abbreviation binds := (Spec.binds_content client model q).
Local Abbreviation loop :=
  (Categorizer.attempts json_loads py_repr json_error client model q
     max_retries).
Local Abbreviation called w :=
  {| chat_calls := S (chat_calls w); sleeps := sleeps w; files := files w |}.

(** The sleep, if any, that follows the failed attempt served by call
    [first + j], attempt number [attempt + j]. *)
Local Abbreviation backoff first attempt :=
  (fun j : nat =>
     match att (Nat.add first j) with
     | Raise (RateLimitError _) => Some (Z.pow 2 (attempt + Z.of_nat j + 1))
     | _ => None
     end).

(** What a run [r] of the loop that starts in the world [w] at attempt
    number [attempt], with [remaining] passes to go and [content] holding
    [c], has done after [n] chat calls. *)
Local Abbreviation outcome w attempt remaining c n r :=
  ((n ≤ remaining)%nat
   ∧ ((0 < remaining)%nat → (0 < n)%nat)
   ∧ chat_calls (snd r) = (chat_calls w + n)%nat
   ∧ files (snd r) = files w
   ∧ sleeps (snd r)
     = sleeps w ++ omap (backoff (chat_calls w) attempt) (seq 0 (n - 1))
   ∧ match fst r with
     | Return mode =>
         (0 < n)%nat ∧ att (chat_calls w + n - 1)%nat = Return mode
     | Raise e =>
         (n = remaining
          ∧ ((∃ msg, e = ValueError msg) ∨ ∃ msg, e = RateLimitError msg))
         ∨ (attempt + Z.of_nat n = max_retries
            ∧ att (chat_calls w + n - 1)%nat = Raise e)
         ∨ ((0 < n)%nat ∧ c = None
            ∧ e = Categorizer.UnboundLocalError (u "content")
            ∧ (∃ m, client (chat_calls w + n - 1)%nat request
                    = Raise (JSONDecodeError m))
            ∧ ∀ j, (j < n)%nat → binds (chat_calls w + j)%nat = false)
     end).

Lemma omap_seq_shift {A} (f : nat → option A) (m : nat) :
  omap f (seq 1 m) = omap (fun j => f (S j)) (seq 0 m).
Proof.
  rewrite <- fmap_S_seq. generalize (seq 0 m). intros l.
  induction l as [|x l IH]; [done|]. cbn [fmap list_fmap omap list_omap].
  simpl. destruct (f (S x)); by rewrite <- IH.
Qed.

Lemma backoff_shift first attempt (n : nat) :
  omap (backoff first attempt) (seq 1 n)
  = omap (backoff (S first) (attempt + 1)) (seq 0 n).
Proof.
  rewrite omap_seq_shift. apply list_omap_ext, Forall2_same_length_lookup.
  split; [done|]. intros i j j' Hj Hj'. rewrite Hj in Hj'.
  injection Hj' as <-.
  replace (first + S j)%nat with (S first + j)%nat by lia.
  replace (attempt + Z.of_nat (S j) + 1) with (attempt + 1 + Z.of_nat j + 1)
    by lia.
  done.
Qed.

(** A [JSONDecodeError] of an attempt that does not reach the assignment
    to [content] comes from the chat call itself. *)
Lemma decode_error_of_call n m :
  att n = Raise (JSONDecodeError m) → binds n = false →
  client n request = Raise (JSONDecodeError m).
Proof.
  unfold Spec.usage_mode_attempt, Spec.binds_content,
    Categorizer.parse_usage_mode.
  destruct (client n request) as [response|e]; [|congruence].
  unfold first_choice. by destruct (choices response).
Qed.

(** The run of the rest of the loop, seen from the attempt before it. *)
Lemma retry_outcome remaining attempt c w w1 slept n r :
  outcome w1 (attempt + 1) remaining (next_content (chat_calls w) c) n r →
  chat_calls w1 = S (chat_calls w) → files w1 = files w →
  sleeps w1 = sleeps w ++ slept →
  slept = omap (backoff (chat_calls w) attempt) [0%nat] →
  (0 < remaining)%nat →
  outcome w attempt (S remaining) c (S n) r.
Proof.
  intros (Hn & Hnpos & Hc & Hf & Hs & Hr) Hc1 Hf1 Hs1 Hslept Hpos.
  specialize (Hnpos Hpos).
  split; [lia|]. split; [lia|].
  rewrite Hc, Hf, Hs, Hc1, Hf1, Hs1. split; [lia|]. split; [done|].
  split.
  - rewrite <- app_assoc. f_equal. rewrite Hslept.
    replace (S n - 1)%nat with (S (n - 1)) by lia.
    cbn [seq]. rewrite <- backoff_shift.
    change (0%nat :: seq 1 (n - 1)) with ([0%nat] ++ seq 1 (n - 1)).
    by rewrite omap_app.
  - replace (chat_calls w + S n - 1)%nat
      with (S (chat_calls w) + n - 1)%nat by lia.
    rewrite Hc1 in Hr.
    destruct (fst r) as [mode|e]; [split; [lia|by destruct Hr]|].
    destruct Hr as [[-> Hk]|[[Hk Ha]|(_ & Hu & -> & Hm & Hb)]].
    + by left.
    + right. left. split; [lia|done].
    + right. right.
      apply (content_unbound client model q) in Hu as [-> Hb0].
      split; [lia|]. split; [done|]. split; [done|]. split; [done|].
      intros j Hj. destruct j as [|j]; [by rewrite Nat.add_0_r|].
      replace (chat_calls w + S j)%nat with (S (chat_calls w) + j)%nat
        by lia.
      apply Hb. lia.
Qed.

Lemma categorizer_attempts_outcome remaining : ∀ attempt c w,
  (remaining = 0%nat ∨ attempt + Z.of_nat remaining = max_retries + 1) →
  ∃ n : nat, outcome w attempt remaining c n (loop remaining attempt c w).
Proof.
  induction remaining as [|remaining IH]; intros attempt c w Hsum.
  - exists 0%nat. simpl. rewrite app_nil_r, Nat.add_0_r.
    split; [done|]. split; [lia|]. split; [done|]. split; [done|].
    split; [done|]. left. eauto.
  - destruct Hsum as [?|Hsum]; [done|].
    rewrite usage_mode_loop_step.
    destruct (att (chat_calls w)) as [mode|e] eqn:Ea.
    { exists 1%nat. cbn. rewrite app_nil_r.
      split; [lia|]. split; [lia|]. split; [lia|]. split; [done|].
      split; [done|]. split; [lia|]. rewrite <- Ea. f_equal. lia. }
    set (c1 := next_content (chat_calls w) c).
    set (w0 := called w).
    (* the pass was the last one and the loop is left at its end *)
    assert (remaining = 0%nat →
            ∃ n : nat, outcome w attempt (S remaining) c n
                         (loop remaining (attempt + 1) c1 w0)) as Hlast.
    { intros ->. exists 1%nat. simpl. rewrite app_nil_r.
      split; [lia|]. split; [lia|]. split; [lia|]. split; [done|].
      split; [done|]. left. eauto. }
    (* the error is raised by the handler of this pass *)
    assert (∀ e0 : exn,
              (remaining = 0%nat
               ∧ ((∃ msg, e0 = ValueError msg)
                  ∨ ∃ msg, e0 = RateLimitError msg))
              ∨ (attempt + 1 = max_retries ∧ e0 = e)
              ∨ (c1 = None
                 ∧ e0 = Categorizer.UnboundLocalError (u "content")
                 ∧ ∃ m, e = JSONDecodeError m) →
              ∃ n : nat, outcome w attempt (S remaining) c n
                           (@raise UsageMode e0 w0)) as Hraise.
    { intros e0 Hcase. exists 1%nat. unfold raise. subst w0.
      cbn [fst snd chat_calls sleeps files].
      change (seq 0 (1 - 1)) with (@nil nat). cbn [omap list_omap].
      rewrite app_nil_r.
      split; [lia|]. split; [lia|]. split; [lia|]. split; [done|].
      split; [done|].
      replace (chat_calls w + 1 - 1)%nat with (chat_calls w) by lia.
      destruct Hcase as [[-> H]|[[Hm ->]|(Hu & -> & m & ->)]].
      - by left.
      - right. left. split; [lia|done].
      - right. right.
        apply (content_unbound client model q) in Hu as [-> Hb0].
        split; [lia|]. split; [done|]. split; [done|].
        split; [exists m; by apply decode_error_of_call|].
        intros j Hj. replace j with 0%nat by lia.
        by rewrite Nat.add_0_r. }
    (* the loop goes on *)
    assert (∀ (w1 : world) (slept : list Z),
              chat_calls w1 = S (chat_calls w) → files w1 = files w →
              sleeps w1 = sleeps w ++ slept →
              slept = omap (backoff (chat_calls w) attempt) [0%nat] →
              (0 < remaining)%nat →
              ∃ n : nat, outcome w attempt (S remaining) c n
                           (loop remaining (attempt + 1) c1 w1)) as Hretry.
    { intros w1 slept Hc1 Hf1 Hs1 Hslept Hpos.
      destruct (IH (attempt + 1) c1 w1) as [n Hn]; [right; lia|].
      exists (S n).
      by apply (retry_outcome remaining attempt c w w1 slept n). }
    assert (∀ e', att (chat_calls w) = Raise e' →
              (∀ m, e' ≠ RateLimitError m) →
              omap (backoff (chat_calls w) attempt) [0%nat] = []) as Hquiet.
    { intros e' He' H2. cbn. rewrite Nat.add_0_r, He'.
      destruct e' as [m|m|m|m|m|m|m]; try done. by destruct (H2 m). }
    assert ((∀ m, e ≠ JSONDecodeError m) → (∀ m, e ≠ RateLimitError m) →
            ∃ n : nat, outcome w attempt (S remaining) c n
                         ((if attempt =? max_retries - 1 then raise e
                           else loop remaining (attempt + 1) c1) w0))
      as Hother.
    { intros H1 H2. destruct (Z.eqb_spec attempt (max_retries - 1)).
      - apply Hraise. right. left. split; [lia|done].
      - destruct (decide (remaining = 0%nat)) as [Hz|Hz];
          [by apply Hlast|].
        apply (Hretry w0 []); [done|done|by rewrite app_nil_r| |lia].
        symmetry. by eapply Hquiet. }
    unfold Categorizer.handle_failure. fold c1 w0.
    destruct e as [m|m|m|m|m|m|m];
      try (apply Hother; intros ?; discriminate).
    + (* JSONDecodeError *)
      destruct c1 as [c1'|] eqn:Ec1.
      * destruct (Z.eqb_spec attempt max_retries).
        -- apply Hraise. left. split; [lia|]. eauto.
        -- apply (Hretry w0 []); [done|done|by rewrite app_nil_r| |lia].
           symmetry. eapply Hquiet; [exact Ea|]. intros ?; discriminate.
      * apply Hraise. right. right. eauto.
    + (* RateLimitError *)
      destruct (Z.ltb_spec attempt max_retries).
      * unfold bind, sleep. cbn [fst snd].
        apply (Hretry _ [2 ^ (attempt + 1)]); [done|done|done| |lia].
        cbn. rewrite Nat.add_0_r, Ea. do 3 f_equal. lia.
      * apply Hraise. left. split; [lia|]. eauto.
Qed.

End CategorizerOutcome.

(** X9.  Whatever the chat back end answers, [categorize_question_llm]
    makes at most max_retries + 1 chat calls, leaves the files alone, and
    sleeps only after a rate-limit error that is retried (2^(attempt+1)
    seconds).  A usage mode it returns is the one parsed from the last
    call.  When it raises, then either every attempt was used and the
    error is a ValueError or a rate-limit error; or the call stopped one
    attempt early (after max_retries calls) on the error of that attempt,
    raised again as it is; or a chat call itself raised a JSONDecodeError
    before any attempt had got as far as assigning [content], and the
    error is the UnboundLocalError of the warning that reads it. *)
Theorem categorization_outcome (json_loads : str -> option json)
    (py_repr : json -> str) (json_error : str -> str) (q : GoldenQuestion)
    (client : chat_client) (model : str) (max_retries : Z) (w : world) :
  let run :=
    Categorizer.categorize_question_llm json_loads py_repr json_error q
      client model max_retries w in
  let att :=
    Spec.usage_mode_attempt json_loads py_repr json_error client model q in
  ∃ n : nat,
    (n ≤ Z.to_nat (max_retries + 1))%nat
    ∧ chat_calls run.2 = (chat_calls w + n)%nat
    ∧ files run.2 = files w
    ∧ sleeps run.2
      = sleeps w
        ++ omap (fun j : nat =>
                   match att (chat_calls w + j)%nat with
                   | Raise (RateLimitError _) => Some (2 ^ (Z.of_nat j + 1))
                   | _ => None
                   end) (seq 0 (n - 1))
    ∧ match run.1 with
      | Return mode =>
          (0 < n)%nat ∧ att (chat_calls w + n - 1)%nat = Return mode
      | Raise e =>
          (n = Z.to_nat (max_retries + 1)
           ∧ ((∃ msg, e = ValueError msg) ∨ ∃ msg, e = RateLimitError msg))
          ∨ (Z.of_nat n = max_retries
             ∧ att (chat_calls w + n - 1)%nat = Raise e)
          ∨ ((0 < n)%nat
             ∧ e = Categorizer.UnboundLocalError (u "content")
             ∧ (∃ m, client (chat_calls w + n - 1)%nat
                       (UsageModeRequest model (question q))
                     = Raise (JSONDecodeError m))
             ∧ ∀ j, (j < n)%nat →
                    Spec.binds_content client model q (chat_calls w + j)%nat
                    = false)
      end.
Proof.
  intros run att. subst run att.
  unfold Categorizer.categorize_question_llm.
  destruct (categorizer_attempts_outcome json_loads py_repr json_error client
              model q max_retries (Z.to_nat (max_retries + 1)) 0 None w)
    as (n & Hn & Hpos & Hc & Hf & Hs & Hr).
  { destruct (decide (0 ≤ max_retries + 1)); [right; lia|left; lia]. }
  exists n. split; [done|]. split; [done|]. split; [done|]. split; [done|].
  destruct (Categorizer.attempts _ _ _ _ _ _ _ _ _ _ w).1 as [mode|e];
    [done|].
  destruct Hr as [H|[H|(H1 & _ & H2 & H3 & H4)]]; [by left|by right; left|].
  right. right. done.
Qed.

(** A back end whose calls fail while decoding the reply: the first
    handler reads [content] before anything was assigned to it. *)
Example decode_error_before_content :
  (Categorizer.categorize_question_llm Examples.table_loads
     Examples.table_repr Examples.table_error Examples.qa
     Examples.undecodable_client Examples.model_name 2 (world_init ∅))
  = (Raise (OtherError
              (u "cannot access local variable 'content' where it is not associated with a value")),
     {| chat_calls := 1; sleeps := []; files := ∅ |}).
Proof. vm_compute. reflexivity. Qed.

(** ** Usage-mode categorisation of a batch *)

Section CategorizeBatch.

Context (json_loads : str -> option json) (py_repr : json -> str)
        (json_error : str -> str) (client : chat_client) (model : str).

Local Abbreviation att :=
  (Spec.usage_mode_attempt json_loads py_repr json_error client model).
Local Abbreviation step :=
  (Categorizer.categorize_step json_loads py_repr json_error client model).

(** The question as it leaves the batch when call [n] serves it. *)
Local Abbreviation categorized :=
  (fun nq : nat * GoldenQuestion =>
     match att nq.2 nq.1 with
     | Return mode => Some (Categorizer.set_usage_mode nq.2 mode)
     | Raise _ => None
     end).
Local Abbreviation rejected :=
  (fun nq : nat * GoldenQuestion =>
     match att nq.2 nq.1 with
     | Return _ => None
     | Raise _ => Some nq.2
     end).




End CategorizeBatch.


(** ** Question ids *)

Lemma of_uint_inj (d d' : Decimal.uint) : of_uint d = of_uint d' → d = d'.
Proof.
  revert d'. induction d as [|d IH|d IH|d IH|d IH|d IH|d IH|d IH|d IH|d IH|d IH];
    intros [|d'|d'|d'|d'|d'|d'|d'|d'|d'|d']; simpl; intros H; try done;
    injection H as H; f_equal; by apply IH.
Qed.

Lemma of_uint_digits (d : Decimal.uint) (c : char) :
  c ∈ of_uint d → (48 ≤ c ≤ 57)%N.
Proof.
  induction d; simpl; intros H; try (by inversion H);
    apply elem_of_cons in H as [->|H]; try lia; by apply IHd.
Qed.

Lemma of_nat_inj (n n' : nat) : of_nat n = of_nat n' → n = n'.
Proof.
  unfold of_nat. intros H%of_uint_inj. by apply Unsigned.to_uint_inj.
Qed.

(** A text is cut in one way only at its last occurrence of [x]. *)
Lemma app_last_occurrence {A} (x : A) (l1 l2 r1 r2 : list A) :
  x ∉ r1 → x ∉ r2 → l1 ++ x :: r1 = l2 ++ x :: r2 → l1 = l2 ∧ r1 = r2.
Proof.
  intros H1 H2 Heq.
  assert (reverse r1 ++ x :: reverse l1 = reverse r2 ++ x :: reverse l2)
    as Hrev.
  { apply (f_equal reverse) in Heq.
    by rewrite !reverse_app, !reverse_cons, <- !app_assoc in Heq. }
  assert (∀ a b : list A, ∀ a' b',
            x ∉ a → x ∉ b → a ++ x :: a' = b ++ x :: b' →
            a = b ∧ a' = b') as Hpre.
  { clear. intros a. induction a as [|y a IH]; intros [|z b] a' b' Ha Hb E.
    - by injection E as <-.
    - injection E as <- _. exfalso. apply Hb. by left.
    - injection E as -> _. exfalso. apply Ha. by left.
    - injection E as <- E. destruct (IH b a' b') as [-> ->]; try done.
      + intros H. apply Ha. by right.
      + intros H. apply Hb. by right. }
  destruct (Hpre (reverse r1) (reverse r2) (reverse l1) (reverse l2))
    as [Hr Hl]; [by rewrite elem_of_reverse|by rewrite elem_of_reverse|done|].
  split.
  - apply (f_equal reverse) in Hl. by rewrite !reverse_involutive in Hl.
  - apply (f_equal reverse) in Hr. by rewrite !reverse_involutive in Hr.
Qed.

(** X11.  [generate_message_id] gives different ids to different
    (conversation id, index) pairs, also when the conversation id itself
    contains underscores: the index is read back after the last
    underscore. *)
Theorem generate_message_id_injective (conversation_id conversation_id' : str)
    (user_message_index user_message_index' : nat) :
  Extraction.generate_message_id conversation_id user_message_index
  = Extraction.generate_message_id conversation_id' user_message_index'
  ↔ conversation_id = conversation_id'
    ∧ user_message_index = user_message_index'.
Proof.
  split; [|by intros [-> ->]].
  unfold Extraction.generate_message_id.
  change (u "_") with [95%N]. cbn [app]. intros H.
  apply app_last_occurrence in H as [-> H].
  - split; [done|]. by apply of_nat_inj.
  - intros Hin%of_uint_digits. lia.
  - intros Hin%of_uint_digits. lia.
Qed.

(** ** Extraction: the retrieval flag *)

Lemma filter_head_first {A} (P : A → Prop) `{∀ x, Decision (P x)}
    (l : list A) :
  match filter P l with
  | x :: _ =>
      ∃ j, l !! j = Some x ∧ P x
           ∧ ∀ k y, (k < j)%nat → l !! k = Some y → ¬ P y
  | [] => ∀ k y, l !! k = Some y → ¬ P y
  end.
Proof.
  induction l as [|a l IH]; [done|].
  rewrite filter_cons. destruct (decide (P a)) as [Ha|Ha].
  - exists 0%nat. split; [done|]. split; [done|]. intros k y Hk. lia.
  - destruct (filter P l) as [|x rest].
    + intros [|k] y Hk; [by injection Hk as <-|]. by eapply IH.
    + destruct IH as (j & Hj & Hx & Hbefore). exists (S j).
      split; [done|]. split; [done|].
      intros [|k] y Hk Hy; [by injection Hy as <-|].
      apply (Hbefore k y); [lia|done].
Qed.

(** X12.  [_check_has_retrieval] is decided by the first assistant
    message after the user message alone: it is true exactly when that
    message exists and has at least one chunk; later assistant messages
    are never looked at, and without a later assistant message it is
    false. *)
Theorem check_has_retrieval_first_assistant (messages : list Message)
    (user_msg_index : nat) :
  Extraction._check_has_retrieval messages user_msg_index = true
  ↔ ∃ j m, (user_msg_index < j)%nat
           ∧ messages !! j = Some m
           ∧ role m = Some (u "assistant")
           ∧ chunks m ≠ []
           ∧ ∀ k m', (user_msg_index < k < j)%nat →
                     messages !! k = Some m' →
                     role m' ≠ Some (u "assistant").
Proof.
  unfold Extraction._check_has_retrieval.
  pose proof (filter_head_first (fun m => role m = Some (u "assistant"))
                (drop (S user_msg_index) messages)) as Hfirst.
  destruct (filter _ _) as [|m rest].
  - split; [done|]. intros (j & m & Hj & Hm & Hrole & _).
    exfalso. apply (Hfirst (j - S user_msg_index)%nat m); [|done].
    rewrite lookup_drop. rewrite <- Hm. f_equal. lia.
  - destruct Hfirst as (j & Hj & Hrole & Hbefore).
    rewrite lookup_drop in Hj. rewrite bool_decide_eq_true. split.
    + intros Hlen. exists (S user_msg_index + j)%nat, m.
      split; [lia|]. split; [done|]. split; [done|].
      split; [intros E; rewrite E in Hlen; simpl in Hlen; lia|].
      intros k m' Hk Hm'. apply (Hbefore (k - S user_msg_index)%nat m');
        [lia|]. rewrite lookup_drop. rewrite <- Hm'. f_equal. lia.
    + intros (j' & m2 & Hj' & Hm2 & Hrole2 & Hchunks & Hnone).
      destruct (decide (j' = S user_msg_index + j)%nat) as [->|Hne].
      * rewrite Hj in Hm2. injection Hm2 as <-.
        destruct (chunks m); [done|simpl; lia].
      * exfalso.
        destruct (decide (j' < S user_msg_index + j)%nat).
        -- apply (Hbefore (j' - S user_msg_index)%nat m2); [lia| |done].
           rewrite lookup_drop. rewrite <- Hm2. f_equal. lia.
        -- apply (Hnone (S user_msg_index + j)%nat m); [lia|done|done].
Qed.

(** ** Extraction: what every extracted question looks like *)

Lemma last_n_length {A} (n : nat) (l : list A) :
  (length (Extraction.last_n n l) ≤ n)%nat.
Proof. unfold Extraction.last_n. rewrite length_drop. lia. Qed.

Lemma last_n_elem {A} (n : nat) (l : list A) x :
  x ∈ Extraction.last_n n l → x ∈ l.
Proof.
  unfold Extraction.last_n. intros [i Hi]%list_elem_of_lookup.
  rewrite lookup_drop in Hi. by eapply list_elem_of_lookup_2.
Qed.

Section ExtractionShape.

Import Extraction.

Context (json_loads : str -> option json) (py_repr : json -> str)
        (conv : Conversation) (llm_client : option chat_client)
        (model : str) (cf : Filters).

Local Abbreviation step :=
  (extract_step json_loads py_repr conv llm_client model cf).

(** What holds of every question the loop appends. *)
Local Abbreviation well_formed :=
  (fun q : GoldenQuestion =>
     conversation_id q = conv_id conv
     ∧ question q ≠ [] ∧ strip (question q) = question q
     ∧ original_question q ≠ []
     ∧ strip (original_question q) = original_question q
     ∧ question_changed q = bool_decide (question q ≠ original_question q)
     ∧ (length (context_messages q) ≤ 3)%nat
     ∧ (∀ r t, (r, t) ∈ context_messages q →
          r ≠ Some (u "system") ∧ strip t ≠ []
          ∧ ∃ m, m ∈ messages conv ∧ role m = r ∧ text m = t)
     ∧ (llm_client = None →
          question q = original_question q ∧ context_messages q = [])
     ∧ usage_mode q = placeholder_usage_mode
     ∧ subject_topics q = []
     ∧ filters q = (if cf is [] then None else Some cf)).

Local Abbreviation well_formed_failure :=
  (fun f : FailedReformulation =>
     fr_conversation_id f = conv_id conv
     ∧ fr_original_question f ≠ []
     ∧ strip (fr_original_question f) = fr_original_question f).

(** The chat calls the pairs [ims] cost. *)
Local Abbreviation calls ims :=
  (if llm_client is Some _
   then length (filter (fun im : nat * Message =>
                          Spec.is_user_turn im.2 ∧ (0 < im.1)%nat) ims)
   else 0%nat).

Lemma reformulate_without_retry question previous client w :
  let run := Reformulator.reformulate_question_llm json_loads py_repr
               question previous client model 0 w in
  chat_calls run.2 = S (chat_calls w) ∧ sleeps run.2 = sleeps w
  ∧ files run.2 = files w
  ∧ match run.1 with
    | Return s => s ≠ [] ∧ strip s = s
    | Raise _ => True
    end.
Proof.
  intros run. subst run. unfold Reformulator.reformulate_question_llm.
  destruct (attempts_outcome json_loads py_repr client model question
              previous 0 (Z.to_nat (0 + 1)) 0 w)
    as (n & Hn & Hc & Hs & Hf & Hr); [right; lia|].
  destruct (Reformulator.attempts _ _ _ _ _ _ _ _ _ _) as [r w'].
  cbn [fst snd] in *.
  assert (n = 1%nat) as ->.
  { destruct r; [destruct Hr as [? _]|destruct Hr as [-> _]]; simpl in *;
      lia. }
  simpl in Hs. rewrite app_nil_r in Hs.
  split; [lia|]. split; [done|]. split; [done|].
  destruct r; [|done]. by destruct Hr as (_ & ? & ? & _).
Qed.

Lemma direct_question_well_formed msg i n :
  Spec.is_user_turn msg →
  well_formed (make_question conv msg i n (strip (text msg)) [] cf).
Proof.
  intros [_ Hs]. unfold make_question.
  cbn [question original_question conversation_id context_messages
       usage_mode subject_topics question_changed filters].
  split; [done|]. split; [done|]. split; [apply strip_idempotent|].
  split; [done|]. split; [apply strip_idempotent|].
  split; [by rewrite bool_decide_eq_false_2 by (intros H; by apply H)|].
  split; [simpl; lia|]. split; [intros r t H; by inversion H|]. done.
Qed.

Lemma calls_nil : calls [] = 0%nat.
Proof. by assert (llm_client = None ∨ ∃ c, llm_client = Some c) as [->|[c ->]]
         by (destruct llm_client; eauto). Qed.

Lemma calls_cons im ims :
  calls (im :: ims)
  = ((if llm_client is Some _
      then if decide (Spec.is_user_turn im.2 ∧ (0 < im.1)%nat) then 1 else 0
      else 0) + calls ims)%nat.
Proof.
  assert (llm_client = None ∨ ∃ c, llm_client = Some c) as [->|[c ->]]
    by (destruct llm_client; eauto); [done|].
  rewrite filter_cons. by destruct (decide _).
Qed.

Lemma extract_step_shape st i msg w :
  ∃ st' w',
    step st (i, msg) w = (Return st', w')
    ∧ files w' = files w ∧ sleeps w' = sleeps w
    ∧ chat_calls w' = (chat_calls w + calls [(i, msg)])%nat
    ∧ ∃ new_questions new_failures,
        questions st' = questions st ++ new_questions
        ∧ failed_reformulations st'
          = failed_reformulations st ++ new_failures
        ∧ Forall well_formed new_questions
        ∧ Forall well_formed_failure new_failures
        ∧ (llm_client = None → new_failures = []).
Proof.
  rewrite calls_cons, calls_nil, Nat.add_0_r. cbn [fst snd].
  assert (llm_client = None ∨ ∃ c, llm_client = Some c) as [Ec|[client Ec]]
    by (destruct llm_client; eauto).
  all: destruct (decide (Spec.is_user_turn msg)) as [Hturn|Hnot].
  - rewrite (extract_step_direct _ _ _ _ _ _ st i msg w Hturn) by by left.
    eexists _, _. split; [reflexivity|]. split; [done|]. split; [done|].
    split; [rewrite Ec; simpl; lia|].
    eexists [_], []. cbn. rewrite app_nil_r. split; [done|]. split; [done|].
    split; [|done]. apply Forall_singleton.
    by apply direct_question_well_formed.
  - exists st, w. split; [by apply extract_step_skip|].
    split; [done|]. split; [done|]. split; [rewrite Ec; simpl; lia|].
    exists [], []. by rewrite !app_nil_r.
  - destruct (decide (0 < i)%nat) as [Hi|Hi].
    + rewrite (extract_step_llm _ _ _ _ _ _ client st i msg w Ec Hturn Hi).
      cbn zeta.
      destruct (reformulate_without_retry (text msg) (take i (messages conv))
                  client w) as (Hc & Hs & Hf & Hr).
      destruct (Reformulator.reformulate_question_llm _ _ _ _ _ _ _ _)
        as [[s|e] w']; cbn [fst snd] in *;
        (eexists _, _; split; [reflexivity|]; split; [done|]; split; [done|];
         split; [rewrite Ec, decide_True by done; lia|]).
      * eexists [_], []. cbn [questions failed_reformulations].
        rewrite app_nil_r. split; [done|]. split; [done|].
        split; [|split; [done|by rewrite Ec]].
        apply Forall_singleton. destruct Hr as [Hne Hstrip]. destruct Hturn.
        unfold make_question.
        cbn [question original_question conversation_id context_messages
             usage_mode subject_topics question_changed filters].
        split; [done|]. split; [done|]. split; [done|]. split; [done|].
        split; [apply strip_idempotent|]. split; [done|].
        split.
        { rewrite length_fmap. etrans; [apply length_filter|].
          apply last_n_length. }
        split; [|by rewrite Ec].
        intros r t [m [[= -> ->] Hm]]%list_elem_of_fmap.
        apply list_elem_of_filter in Hm as [[Ht Hrole] Hm].
        split; [done|]. split; [done|]. exists m. split; [|done].
        apply last_n_elem in Hm.
        exact (sublist_elem _ _ _ (sublist_take _ _) Hm).
      * eexists [], [_]. cbn [questions failed_reformulations].
        rewrite app_nil_r. split; [done|]. split; [done|].
        split; [done|]. split; [|by rewrite Ec].
        apply Forall_singleton. destruct Hturn. unfold make_failure.
        cbn [fr_conversation_id fr_original_question].
        split; [done|]. split; [done|]. apply strip_idempotent.
    + rewrite (extract_step_direct _ _ _ _ _ _ st i msg w Hturn)
        by (right; lia).
      eexists _, _. split; [reflexivity|]. split; [done|]. split; [done|].
      split; [rewrite Ec, decide_False by (intros [_ ?]; lia); lia|].
      eexists [_], []. cbn. rewrite app_nil_r. split; [done|]. split; [done|].
      split; [|done]. apply Forall_singleton.
      by apply direct_question_well_formed.
  - exists st, w. split; [by apply extract_step_skip|].
    split; [done|]. split; [done|].
    split; [rewrite Ec, decide_False by (by intros [? _]); lia|].
    exists [], []. by rewrite !app_nil_r.
Qed.

Lemma extract_fold_shape ims : ∀ st w,
  ∃ st' w',
    foldM step st ims w = (Return st', w')
    ∧ files w' = files w ∧ sleeps w' = sleeps w
    ∧ chat_calls w' = (chat_calls w + calls ims)%nat
    ∧ ∃ new_questions new_failures,
        questions st' = questions st ++ new_questions
        ∧ failed_reformulations st'
          = failed_reformulations st ++ new_failures
        ∧ Forall well_formed new_questions
        ∧ Forall well_formed_failure new_failures
        ∧ (llm_client = None → new_failures = []).
Proof.
  induction ims as [|[i msg] ims IH]; intros st w.
  - exists st, w. split; [done|]. split; [done|]. split; [done|].
    split; [rewrite calls_nil; lia|].
    exists [], []. by rewrite !app_nil_r.
  - cbn [foldM]. unfold bind.
    destruct (extract_step_shape st i msg w)
      as (st1 & w1 & -> & Hf1 & Hs1 & Hc1 & q1 & f1 & Hq1 & Hfl1 & Hw1 & Hwf1
          & Hn1).
    destruct (IH st1 w1)
      as (st2 & w2 & Hrun & Hf2 & Hs2 & Hc2 & q2 & f2 & Hq2 & Hfl2 & Hw2
          & Hwf2 & Hn2).
    exists st2, w2. split; [done|]. split; [congruence|].
    split; [congruence|]. split.
    { rewrite Hc2, Hc1, (calls_cons (i, msg) ims),
        (calls_cons (i, msg) []), calls_nil. lia. }
    exists (q1 ++ q2), (f1 ++ f2). rewrite Hq2, Hq1, Hfl2, Hfl1, !app_assoc.
    split; [done|]. split; [done|]. split; [by apply Forall_app|].
    split; [by apply Forall_app|]. intros E. by rewrite Hn1, Hn2.
Qed.

Lemma calls_later_turns (l : list Message) (f : nat → nat) :
  (∀ j, 0 < f j)%nat →
  length (filter (fun im : nat * Message =>
                    Spec.is_user_turn im.2 ∧ (0 < im.1)%nat)
            (imap (fun j => pair (f j)) l))
  = length (filter Spec.is_user_turn l).
Proof.
  revert f. induction l as [|m l IH]; intros f Hf; [done|].
  cbn [imap]. rewrite !filter_cons. cbn [fst snd].
  specialize (IH (f ∘ S) (fun j => Hf (S j))).
  destruct (decide (Spec.is_user_turn m)) as [Hm|Hm].
  - rewrite decide_True by (split; [done|apply Hf]). simpl. by f_equal.
  - rewrite decide_False by (by intros [? _]). done.
Qed.

End ExtractionShape.

(** X13.  [extract_golden_questions] fails only when the filters cannot
    be extracted, before any chat call.  Otherwise it never sleeps and
    never writes; it makes one chat call for every user turn after the
    first message when a client is given, and none (and no failure
    record) without a client.  Every question it returns belongs to the
    conversation, has a non-empty question and original question without
    surrounding white space, a [question_changed] flag that says whether
    the two differ, at most three context messages, each taken from the
    conversation, non-blank and not from the system, the placeholder
    usage mode, no subject topics, and the filters of the conversation
    ([None] when there are none). *)
Theorem extracted_questions_shape (json_loads : str -> option json)
    (py_repr : json -> str) (conv : Conversation)
    (llm_client : option chat_client) (model : str) (w : world) :
  match Extraction.extract_golden_questions json_loads py_repr conv
          llm_client model w with
  | (Return (qs, failed), w') =>
      ∃ cf warnings,
        Extractor.extract_filters (messages conv) = Return (cf, warnings)
        ∧ files w' = files w ∧ sleeps w' = sleeps w
        ∧ chat_calls w'
          = (chat_calls w
             + (if llm_client is Some _
                then length (filter Spec.is_user_turn
                               (drop 1 (messages conv)))
                else 0))%nat
        ∧ (llm_client = None → failed = [])
        ∧ (∀ q, q ∈ qs →
             conversation_id q = conv_id conv
             ∧ question q ≠ [] ∧ strip (question q) = question q
             ∧ original_question q ≠ []
             ∧ strip (original_question q) = original_question q
             ∧ question_changed q
               = bool_decide (question q ≠ original_question q)
             ∧ (length (context_messages q) ≤ 3)%nat
             ∧ (∀ r t, (r, t) ∈ context_messages q →
                  r ≠ Some (u "system") ∧ strip t ≠ []
                  ∧ ∃ m, m ∈ messages conv ∧ role m = r ∧ text m = t)
             ∧ (llm_client = None →
                  question q = original_question q
                  ∧ context_messages q = [])
             ∧ usage_mode q = Extraction.placeholder_usage_mode
             ∧ subject_topics q = []
             ∧ filters q = (if cf is [] then None else Some cf))
        ∧ (∀ f, f ∈ failed →
             fr_conversation_id f = conv_id conv
             ∧ fr_original_question f ≠ []
             ∧ strip (fr_original_question f) = fr_original_question f)
  | (Raise e, w') =>
      w' = w ∧ Extractor.extract_filters (messages conv) = Raise e
  end.
Proof.
  unfold Extraction.extract_golden_questions, bind, lift, ret.
  destruct (Extractor.extract_filters (messages conv)) as [[cf warnings]|e];
    [|done].
  cbn [fst].
  destruct (extract_fold_shape json_loads py_repr conv llm_client model cf
              (imap pair (messages conv))
              {| Extraction.questions := [];
                 Extraction.failed_reformulations := [];
                 Extraction.user_message_index := 0 |} w)
    as (st & w' & -> & Hf & Hs & Hc & qs & fl & Hq & Hfl & Hwq & Hwf & Hnone).
  cbn [Extraction.questions Extraction.failed_reformulations] in Hq, Hfl.
  rewrite app_nil_l in Hq, Hfl. rewrite Hq, Hfl.
  exists cf, warnings. split; [done|]. split; [done|]. split; [done|].
  split; [|split; [done|split]].
  - rewrite Hc. f_equal. destruct llm_client; [|done].
    destruct (messages conv) as [|m l]; [done|].
    cbn [imap drop]. rewrite filter_cons.
    rewrite decide_False by (intros [_ ?]; simpl in *; lia).
    apply (calls_later_turns l S). lia.
  - rewrite Forall_forall in Hwq. exact Hwq.
  - rewrite Forall_forall in Hwf. exact Hwf.
Qed.

(** ** Filtering conversations *)

Lemma has_text_turn (m : Message) :
  Filter.has_text m = true ↔ strip (text m) ≠ [].
Proof.
  unfold Filter.has_text. destruct (text m) as [|c t] eqn:E.
  - simpl. split; [done|]. intros H. by destruct H.
  - simpl. destruct (strip (c :: t)); [by split|]. by split.
Qed.

Lemma has_user_message_iff (msgs : list Message) :
  Filter.has_user_message msgs = true ↔ ∃ m, m ∈ msgs ∧ Spec.is_user_turn m.
Proof.
  induction msgs as [|m msgs IH]; simpl.
  - split; [done|]. intros (m & Hm & _). by inversion Hm.
  - assert ((∃ m', m' ∈ m :: msgs ∧ Spec.is_user_turn m')
            ↔ Spec.is_user_turn m ∨ ∃ m', m' ∈ msgs ∧ Spec.is_user_turn m')
      as ->.
    { split.
      - intros (m' & [->|Hm']%elem_of_cons & Ht); [by left|right; eauto].
      - intros [Ht|(m' & Hm' & Ht)]; [exists m; split; [left|done]|].
        exists m'. split; [by right|done]. }
    rewrite <- IH. unfold Spec.is_user_turn. rewrite <- has_text_turn.
    repeat case_bool_decide; simpl; try naive_solver.
    destruct (Filter.has_text m); naive_solver.
Qed.

Lemma user_messages_nil_iff (msgs : list Message) :
  filter (fun m => role m = Some (u "user") ∧ Filter.has_text m = true) msgs
  = [] ↔ Filter.has_user_message msgs = false.
Proof.
  rewrite <- not_true_iff_false, has_user_message_iff. split.
  - intros Hnil (m & Hm & Hr & Ht).
    apply (filter_nil_not_elem_of _ _ m Hnil); [|done].
    split; [done|]. by apply has_text_turn.
  - intros Hnone.
    destruct (filter _ msgs) as [|m rest] eqn:E; [done|]. exfalso.
    assert (m ∈ filter (fun m => role m = Some (u "user")
                                 ∧ Filter.has_text m = true) msgs) as Hm
      by (rewrite E; left).
    apply list_elem_of_filter in Hm as [[Hr Ht] Hm].
    apply Hnone. exists m. split; [done|]. split; [done|].
    by apply has_text_turn.
Qed.

Lemma dropped_reason (conv : Conversation) :
  Filter.should_process_conversation conv = false →
  Filter.get_drop_reason conv
  = if bool_decide (topic conv = Filter.Ny_trad)
    then Filter.Ny_trad ++ u " with no user messages"
    else u "No user messages".
Proof.
  unfold Filter.should_process_conversation, Filter.get_drop_reason.
  intros H%user_messages_nil_iff. by rewrite H.
Qed.

(** X14.  A conversation is processed exactly when it has at least one
    user message whose text is not blank.  For a conversation that is
    not processed the drop reason is one of two texts, chosen by the
    topic; the other three reasons of [get_drop_reason] are never given to
    a dropped conversation. *)
Theorem dropped_iff_no_user_turn (conv : Conversation) :
  (Filter.should_process_conversation conv = true
   ↔ ∃ m, m ∈ messages conv ∧ role m = Some (u "user")
          ∧ strip (text m) ≠ [])
  ∧ (Filter.should_process_conversation conv = false →
     Filter.get_drop_reason conv
     = if bool_decide (topic conv = Filter.Ny_trad)
       then Filter.Ny_trad ++ u " with no user messages"
       else u "No user messages").
Proof.
  split; [apply has_user_message_iff|apply dropped_reason].
Qed.




(** ** Filtering and extraction agree *)

(** X16.  The filter and the extractor use the same notion of a user
    turn: when the extraction of a conversation returns, its questions and
    failure records together number the user messages with non-blank
    text, so a conversation yields at least one of them exactly when
    [should_process_conversation] keeps it. *)
Theorem filter_agrees_with_extraction (json_loads : str -> option json)
    (py_repr : json -> str) (conv : Conversation)
    (llm_client : option chat_client) (model : str) (w : world) :
  match Extraction.extract_golden_questions json_loads py_repr conv
          llm_client model w with
  | (Return (qs, failed), _) =>
      (length qs + length failed
       = length (filter Spec.is_user_turn (messages conv)))%nat
      ∧ (Filter.should_process_conversation conv = true
         ↔ (0 < length qs + length failed)%nat)
  | (Raise e, _) => Extractor.extract_filters (messages conv) = Raise e
  end.
Proof.
  unfold Extraction.extract_golden_questions, bind, lift, ret.
  destruct (Extractor.extract_filters (messages conv)) as [[cf warnings]|e];
    [|done].
  cbn [fst].
  destruct (extract_fold_inv json_loads py_repr conv llm_client model cf
              (messages conv) [] _ w (turn_inv_init conv))
    as (st & w' & Hrun & Hinv & _).
  rewrite app_nil_l in Hinv. destruct Hinv as (Hidx & Hperm & _).
  cbn [length Nat.add] in Hrun.
  change (imap (fun j => pair j) (messages conv))
    with (imap pair (messages conv)) in Hrun.
  rewrite Hrun.
  assert (length (Extraction.questions st)
          + length (Extraction.failed_reformulations st)
          = length (filter Spec.is_user_turn (messages conv)))%nat as Hlen.
  { apply Permutation_length in Hperm.
    rewrite length_app, !length_fmap, length_seq in Hperm. lia. }
  split; [done|]. rewrite Hlen.
  unfold Filter.should_process_conversation. rewrite has_user_message_iff.
  split.
  - intros (m & Hm & Ht).
    assert (m ∈ filter Spec.is_user_turn (messages conv)) as Hin
      by (by apply list_elem_of_filter).
    destruct (filter _ _); [by inversion Hin|simpl; lia].
  - intros Hpos. destruct (filter _ _) as [|m rest] eqn:E; [simpl in *; lia|].
    assert (m ∈ filter Spec.is_user_turn (messages conv)) as Hin
      by (rewrite E; left).
    apply list_elem_of_filter in Hin as [Ht Hm]. eauto.
Qed.

(** ** The records of the duplicates log *)

Lemma nearest_ten_thousandth (x y g n : Q) :
  (g <= y)%Q → (y < g + 1)%Q → (x == y / 10000)%Q →
  (n == g ∧ y - g <= 1 # 2)%Q ∨ (n == g + 1 ∧ 1 # 2 <= y - g)%Q →
  (- (1 # 20000) <= n / 10000 - x)%Q ∧ (n / 10000 - x <= 1 # 20000)%Q.
Proof.
  intros Hlo Hhi Hx Hn.
  assert (x == y * (1 # 10000))%Q as Hx' by (rewrite Hx; field).
  assert (n / 10000 == n * (1 # 10000))%Q as -> by field.
  destruct Hn as [[Hn Hr]|[Hn Hr]]; split; lra.
Qed.

Lemma round4_close (x : Q) :
  (∃ n : Z, Dedup.round4 x = (inject_Z n / 10000)%Q)
  ∧ (- (1 # 20000) <= Dedup.round4 x - x)%Q
  ∧ (Dedup.round4 x - x <= 1 # 20000)%Q.
Proof.
  split; [unfold Dedup.round4; eauto|].
  unfold Dedup.round4.
  set (y := (x * 10000)%Q). set (f := Qfloor y).
  pose proof (Qfloor_le y) as Hlo. pose proof (Qlt_floor y) as Hhi.
  fold f in Hlo, Hhi. rewrite inject_Z_plus in Hhi.
  change (inject_Z 1) with 1%Q in Hhi.
  assert (x == y / 10000)%Q as Hx by (unfold y; field).
  apply (nearest_ten_thousandth x y (inject_Z f)); [done|done|done|].
  destruct (Qcompare_spec (y - inject_Z f) (1 # 2)) as [Heq|Hlt|Hgt].
  - destruct (Z.even f).
    + left. split; [reflexivity|]. rewrite Heq. apply Qle_refl.
    + right. split; [by rewrite inject_Z_plus|]. rewrite Heq. apply Qle_refl.
  - left. split; [reflexivity|]. by apply Qlt_le_weak.
  - right. split; [by rewrite inject_Z_plus|]. by apply Qlt_le_weak.
Qed.

(** X17.  A record of the duplicates log copies the two questions and the
    normal form of the dropped one.  Its score is the similarity rounded
    to a multiple of 1/10000 (at most 1/20000 away), and its match type is
    "exact_match" exactly when the unrounded similarity equals 1 and
    "semantic_similarity" otherwise, whichever stage found the pair.
    Every entry of the exact-match stage is therefore logged as an
    exact match with score 1, and there the kept question has the logged
    normal form as well. *)
Theorem duplicate_record_fields (py_lower : str -> str)
    (py_isalnum : char -> bool) (questions : list GoldenQuestion)
    (duplicate original : GoldenQuestion) (similarity_score : Q) :
  let r :=
    Dedup.duplicate_record py_lower py_isalnum
      (duplicate, original, similarity_score) in
  let normalize := Dedup._normalize_text py_lower py_isalnum in
  qs_text (dr_dropped_question r) = question duplicate
  ∧ qs_text (dr_kept_original r) = question original
  ∧ dr_normalized_form r = normalize (question duplicate)
  ∧ (∃ n : Z, dr_similarity_score r = (inject_Z n / 10000)%Q)
  ∧ (- (1 # 20000) <= dr_similarity_score r - similarity_score)%Q
  ∧ (dr_similarity_score r - similarity_score <= 1 # 20000)%Q
  ∧ (dr_match_type r = u "exact_match" ↔ (similarity_score == 1)%Q)
  ∧ (dr_match_type r = u "semantic_similarity"
     ↔ ¬ (similarity_score == 1)%Q)
  ∧ ((duplicate, original, similarity_score)
       ∈ Dedup.duplicates
           (Dedup.exact_stage py_lower py_isalnum questions) →
     dr_match_type r = u "exact_match"
     ∧ (dr_similarity_score r == 1)%Q
     ∧ dr_normalized_form r = normalize (qs_text (dr_kept_original r))).
Proof.
  intros r normalize. subst r normalize. unfold Dedup.duplicate_record.
  cbn [dr_dropped_question dr_kept_original dr_normalized_form
       dr_similarity_score dr_match_type Dedup.summary qs_text].
  destruct (round4_close similarity_score) as (Hn & Hlo & Hhi).
  split; [done|]. split; [done|]. split; [done|]. split; [done|].
  split; [done|]. split; [done|].
  split; [|split].
  - destruct (Qeq_bool similarity_score 1) eqn:E.
    + apply Qeq_bool_eq in E. done.
    + apply Qeq_bool_neq in E. split; [discriminate|done].
  - destruct (Qeq_bool similarity_score 1) eqn:E.
    + apply Qeq_bool_eq in E. split; [discriminate|done].
    + apply Qeq_bool_neq in E. done.
  - intros Hin.
    destruct (exact_stage_log py_lower py_isalnum questions)
      as (_ & _ & _ & _ & _ & _ & Hlog).
    destruct (Hlog _ _ _ Hin) as (-> & Hkey & _).
    split; [done|]. split; [by vm_compute|done].
Qed.

(** ** The extraction stage of the pipeline *)

Lemma extract_conversation_cases (json_loads : str -> option json)
    (py_repr : json -> str) (conv : Conversation) (client : chat_client)
    (model : str) (w : world) :
  match Extraction.extract_golden_questions json_loads py_repr conv
          (Some client) model w with
  | (Return (qs, failed), w') =>
      files w' = files w ∧ sleeps w' = sleeps w
      ∧ chat_calls w'
        = (chat_calls w
           + length (filter Spec.is_user_turn (drop 1 (messages conv))))%nat
      ∧ (length qs + length failed
         = length (filter Spec.is_user_turn (messages conv)))%nat
      ∧ ∃ cf, Extractor.extract_filters (messages conv) = Return cf
  | (Raise e, w') =>
      w' = w ∧ Extractor.extract_filters (messages conv) = Raise e
  end.
Proof.
  unfold Extraction.extract_golden_questions, bind, lift, ret.
  destruct (Extractor.extract_filters (messages conv)) as [[cf warnings]|e];
    [|done].
  cbn [fst].
  destruct (extract_fold_inv json_loads py_repr conv (Some client) model cf
              (messages conv) [] _ w (turn_inv_init conv))
    as (st & w' & Hrun & Hinv & _).
  rewrite app_nil_l in Hinv. destruct Hinv as (Hidx & Hperm & _).
  cbn [length Nat.add] in Hrun.
  change (imap (fun j => pair j) (messages conv))
    with (imap pair (messages conv)) in Hrun.
  destruct (extract_fold_shape json_loads py_repr conv (Some client) model cf
              (imap pair (messages conv))
              {| Extraction.questions := [];
                 Extraction.failed_reformulations := [];
                 Extraction.user_message_index := 0 |} w)
    as (st2 & w2 & Hrun2 & Hf & Hs & Hc & _).
  rewrite Hrun in Hrun2. injection Hrun2 as <- <-. rewrite Hrun.
  split; [done|]. split; [done|]. split; [|split; [|eauto]].
  - rewrite Hc. f_equal.
    destruct (messages conv) as [|m l]; [done|].
    cbn [imap drop]. rewrite filter_cons.
    rewrite decide_False by (intros [_ ?]; simpl in *; lia).
    apply (calls_later_turns l S). lia.
  - apply Permutation_length in Hperm.
    rewrite length_app, !length_fmap, length_seq in Hperm. lia.
Qed.

Section ExtractionStage.

Context (json_loads : str -> option json) (py_repr : json -> str)
        (chat_client_ : chat_client) (chat_model : str).

Local Abbreviation extract_conv :=
  (Main.extract_conv json_loads py_repr chat_client_ chat_model).
Local Abbreviation turns :=
  (fun conv : Conversation =>
     length (filter Spec.is_user_turn (messages conv))).
Local Abbreviation later_turns :=
  (fun conv : Conversation =>
     length (filter Spec.is_user_turn (drop 1 (messages conv)))).

(** Step 3: the conversations are extracted in order until the filters of
    one of them cannot be extracted. *)
Lemma extract_all_cases convs : ∀ acc w,
  match foldM extract_conv acc convs w with
  | (Return (qs, failed), w') =>
      files w' = files w ∧ sleeps w' = sleeps w
      ∧ chat_calls w'
        = (chat_calls w + sum_list_with later_turns convs)%nat
      ∧ (length qs + length failed
         = length acc.1 + length acc.2 + sum_list_with turns convs)%nat
      ∧ Forall (fun conv =>
                  ∃ cf, Extractor.extract_filters (messages conv) = Return cf)
          convs
  | (Raise e, w') =>
      files w' = files w ∧ sleeps w' = sleeps w
      ∧ ∃ before conv after,
          convs = before ++ conv :: after
          ∧ Extractor.extract_filters (messages conv) = Raise e
          ∧ Forall (fun conv =>
                      ∃ cf, Extractor.extract_filters (messages conv)
                            = Return cf) before
          ∧ chat_calls w'
            = (chat_calls w + sum_list_with later_turns before)%nat
  end.
Proof.
  induction convs as [|conv convs IH]; intros [qs0 fl0] w.
  - simpl. repeat split; [lia|lia|constructor].
  - cbn [foldM]. unfold bind at 1. unfold Main.extract_conv at 1.
    unfold bind at 1, ret.
    pose proof (extract_conversation_cases json_loads py_repr conv
                  chat_client_ chat_model w) as Hconv.
    destruct (Extraction.extract_golden_questions _ _ _ _ _ _)
      as [[[qs fl]|e] w1].
    + destruct Hconv as (Hf & Hs & Hc & Hlen & Hcf). cbn [fst snd].
      specialize (IH (qs0 ++ qs, fl0 ++ fl) w1).
      destruct (foldM _ _ convs w1) as [[[qs2 fl2]|e] w2].
      * destruct IH as (Hf2 & Hs2 & Hc2 & Hlen2 & Hall).
        split; [congruence|]. split; [congruence|].
        cbn [fst snd sum_list_with] in *. rewrite !length_app in Hlen2.
        split; [lia|]. split; [lia|]. by constructor.
      * destruct IH as (Hf2 & Hs2 & before & bad & after & -> & Hbad & Hall
                        & Hc2).
        split; [congruence|]. split; [congruence|].
        exists (conv :: before), bad, after. split; [done|].
        split; [done|]. split; [by constructor|].
        cbn [sum_list_with]. lia.
    + destruct Hconv as [-> Hbad]. split; [done|]. split; [done|].
      exists [], conv, convs. split; [done|]. split; [done|].
      split; [constructor|]. simpl. lia.
Qed.

End ExtractionStage.

(** X18.  Step 3 of [process_conversations] extracts the kept
    conversations in order and stops at the first one whose filters
    cannot be extracted, with the error of [extract_filters] for that
    conversation; by then one chat call has been made for every user turn
    of the conversations before it that is not the first message of its
    conversation.  When the filters of every conversation can be
    extracted the stage returns, having made one such call per later user
    turn, and every user turn has become either a question or a failure
    record.  Either way the stage does not sleep and touches no file. *)
Theorem extraction_stage_outcome (json_loads : str -> option json)
    (py_repr : json -> str) (filtered_conversations : list Conversation)
    (chat_client_ : chat_client) (chat_model : str) (w : world) :
  let ok conv :=
    ∃ cf, Extractor.extract_filters (messages conv) = Return cf in
  let turns conv := length (filter Spec.is_user_turn (messages conv)) in
  let later_turns conv :=
    length (filter Spec.is_user_turn (drop 1 (messages conv))) in
  match foldM (Main.extract_conv json_loads py_repr chat_client_ chat_model)
          ([], []) filtered_conversations w with
  | (Return (all_questions, all_failed_reformulations), w') =>
      Forall ok filtered_conversations
      ∧ (length all_questions + length all_failed_reformulations
         = sum_list_with turns filtered_conversations)%nat
      ∧ chat_calls w'
        = (chat_calls w
           + sum_list_with later_turns filtered_conversations)%nat
      ∧ sleeps w' = sleeps w ∧ files w' = files w
  | (Raise e, w') =>
      (∃ before conv rest,
         filtered_conversations = before ++ conv :: rest
         ∧ Forall ok before
         ∧ Extractor.extract_filters (messages conv) = Raise e
         ∧ chat_calls w'
           = (chat_calls w + sum_list_with later_turns before)%nat)
      ∧ sleeps w' = sleeps w ∧ files w' = files w
  end.
Proof.
  intros ok turns later_turns.
  pose proof (extract_all_cases json_loads py_repr chat_client_ chat_model
                filtered_conversations ([], []) w) as H.
  destruct (foldM _ _ filtered_conversations w) as [[[qs fl]|e] w'].
  - destruct H as (Hf & Hs & Hc & Hlen & Hall). done.
  - destruct H as (Hf & Hs & before & conv & rest & Hk & Hbad & Hall & Hc).
    split; [|done]. by exists before, conv, rest.
Qed.

(** ** Subject topics: what every run does *)

Section SubjectFacts.

Import SubjectCategorizer.

Context (json_loads : str -> option json) (json_error : str -> str)
        (client : topic_client) (model : str) (q : GoldenQuestion)
        (max_retries : Z).

(** What the completion of chat call [n] amounts to: topics, or a text
    that is not JSON, or an error. *)
Local Abbreviation answer :=
  (fun n : nat =>
     match client n model (question q) with
     | Raise e => Raise e
     | Return response =>
         match stripped_content response with
         | Raise e => Raise e
         | Return content =>
             match json_loads content with
             | None => Return (inl content)
             | Some parsed =>
                 match topics_of parsed with
                 | Raise e => Raise e
                 | Return topics => Return (inr topics)
                 end
             end
         end
     end).

Local Abbreviation loop :=
  (attempts json_loads json_error client model q max_retries).
Local Abbreviation called w :=
  {| chat_calls := S (chat_calls w); sleeps := sleeps w; files := files w |}.
Local Abbreviation slept w seconds :=
  {| chat_calls := S (chat_calls w); sleeps := sleeps w ++ [seconds];
     files := files w |}.

Lemma attempt_body_run attempt w :
  attempt_body json_loads json_error client model q max_retries attempt w
  = match answer (chat_calls w) with
    | Return (inr topics) => (Return (Some topics), called w)
    | Return (inl content) =>
        if attempt =? max_retries
        then (Raise (ValueError
                       (invalid_json_after json_error max_retries content)),
              called w)
        else (Return None, slept w (2 ^ attempt))
    | Raise e => (Raise e, called w)
    end.
Proof.
  unfold attempt_body, bind, chat_topics, lift.
  destruct (client (chat_calls w) model (question q)) as [response|e];
    [|done].
  destruct (stripped_content response) as [content|e]; [|done].
  destruct (json_loads content) as [parsed|].
  - by destruct (topics_of parsed).
  - by destruct (attempt =? max_retries).
Qed.

Lemma subject_attempts_outcome remaining : ∀ attempt w,
  (remaining = 0%nat ∨ attempt + Z.of_nat remaining = max_retries + 1) →
  ∃ n : nat,
    (n ≤ remaining)%nat
    ∧ chat_calls (loop remaining attempt w).2 = (chat_calls w + n)%nat
    ∧ files (loop remaining attempt w).2 = files w
    ∧ sleeps (loop remaining attempt w).2
      = sleeps w
        ++ ((fun j : nat => 2 ^ (attempt + Z.of_nat j)) <$> seq 0 (n - 1))
    ∧ match (loop remaining attempt w).1 with
      | Return topics =>
          ((0 < n)%nat
           ∧ answer (chat_calls w + n - 1)%nat = Return (inr topics))
          ∨ (remaining = 0%nat ∧ topics = [])
      | Raise e =>
          n = remaining ∧ (0 < n)%nat
          ∧ ∃ cause, e = ValueError (failed_after max_retries cause)
      end.
Proof.
  induction remaining as [|remaining IH]; intros attempt w Hsum.
  - exists 0%nat. simpl. rewrite app_nil_r, Nat.add_0_r.
    split; [done|]. split; [done|]. split; [done|]. split; [done|].
    by right.
  - destruct Hsum as [?|Hsum]; [done|].
    (* what a retry does, after the sleep *)
    assert (∀ run : result (list json) * world,
              run = loop remaining (attempt + 1) (slept w (2 ^ attempt)) →
              (0 < remaining)%nat →
              ∃ n : nat,
                (n ≤ S remaining)%nat
                ∧ chat_calls run.2 = (chat_calls w + n)%nat
                ∧ files run.2 = files w
                ∧ sleeps run.2
                  = sleeps w
                    ++ ((fun j : nat => 2 ^ (attempt + Z.of_nat j))
                        <$> seq 0 (n - 1))
                ∧ match run.1 with
                  | Return topics =>
                      ((0 < n)%nat
                       ∧ answer (chat_calls w + n - 1)%nat
                         = Return (inr topics))
                      ∨ (S remaining = 0%nat ∧ topics = [])
                  | Raise e =>
                      n = S remaining ∧ (0 < n)%nat
                      ∧ ∃ cause,
                          e = ValueError (failed_after max_retries cause)
                  end) as Hretry.
    { intros run -> Hpos.
      destruct (IH (attempt + 1) (slept w (2 ^ attempt)))
        as (n & Hn & Hc & Hf & Hs & Hr); [right; lia|].
      destruct (loop remaining (attempt + 1) (slept w (2 ^ attempt)))
        as [r w2]. cbn [fst snd chat_calls sleeps files] in *.
      assert (0 < n)%nat as Hnpos.
      { destruct r; [destruct Hr as [[? _]|[? _]]; lia|].
        destruct Hr as (_ & ? & _). done. }
      exists (S n). split; [lia|]. split; [lia|]. split; [done|].
      split.
      - rewrite Hs, <- app_assoc. f_equal.
        replace (S n - 1)%nat with (S (n - 1)) by lia.
        cbn [seq fmap list_fmap]. rewrite Z.add_0_r. simpl. f_equal.
        rewrite <- fmap_S_seq, <- list_fmap_compose.
        apply list_fmap_ext. intros _ j _. simpl. f_equal. lia.
      - destruct r as [topics|e].
        + left. destruct Hr as [[_ Ha]|[? _]]; [|exfalso; lia]. split; [lia|].
          replace (chat_calls w + S n - 1)%nat
            with (S (chat_calls w) + n - 1)%nat by lia.
          exact Ha.
        + destruct Hr as (-> & _ & Hcause). split; [done|]. split; [lia|].
          done. }
    remember (loop (S remaining) attempt w) as run eqn:Hrun.
    cbn [attempts] in Hrun. unfold bind at 1, catch in Hrun.
    rewrite attempt_body_run in Hrun.
    destruct (answer (chat_calls w)) as [[content|topics]|e] eqn:Ea.
    + (* not JSON *)
      destruct (Z.eqb_spec attempt max_retries) as [->|Hne].
      * subst run. exists 1%nat.
        cbn -[failed_after invalid_json_after].
        rewrite app_nil_r. split; [lia|]. split; [lia|]. split; [done|].
        split; [done|]. split; [lia|]. split; [lia|]. eauto.
      * apply Hretry; [|lia].
        rewrite Hrun. by unfold bind, sleep.
    + (* topics *)
      subst run. exists 1%nat.
      cbn -[failed_after invalid_json_after].
      rewrite app_nil_r.
      split; [lia|]. split; [lia|]. split; [done|]. split; [done|].
      left. split; [lia|].
      replace (chat_calls w + 1 - 1)%nat with (chat_calls w) by lia.
      exact Ea.
    + (* any other failure *)
      destruct (Z.eqb_spec attempt max_retries) as [->|Hne].
      * subst run. exists 1%nat.
        cbn -[failed_after invalid_json_after].
        rewrite app_nil_r.
        split; [lia|]. split; [lia|]. split; [done|]. split; [done|].
        split; [lia|]. split; [lia|]. eauto.
      * apply Hretry; [|lia].
        rewrite Hrun. by unfold bind, sleep.
Qed.

End SubjectFacts.

(** X19.  Whatever the chat back end answers,
    [categorize_subject_topics_llm] makes at most max_retries + 1 chat
    calls, sleeps 1, 2, 4, ... seconds between consecutive calls and at no
    other time, and leaves the files alone.  Topics it returns are those
    of the last call, or the empty list when a negative retry limit lets
    no call be made.  When it raises, every attempt was used and the error
    is a ValueError that starts with "Failed to categorize subject topics
    after N attempts: ", also when the cause is a completion that is not
    JSON. *)
Theorem subject_topics_outcome (json_loads : str -> option json)
    (json_error : str -> str) (q : GoldenQuestion)
    (client : SubjectCategorizer.topic_client) (model : str)
    (max_retries : Z) (w : world) :
  let run :=
    SubjectCategorizer.categorize_subject_topics_llm json_loads json_error
      q client model max_retries w in
  let answer (n : nat) : result (str + list json) :=
    match client n model (question q) with
    | Raise e => Raise e
    | Return response =>
        match SubjectCategorizer.stripped_content response with
        | Raise e => Raise e
        | Return content =>
            match json_loads content with
            | None => Return (inl content)
            | Some parsed =>
                match SubjectCategorizer.topics_of parsed with
                | Raise e => Raise e
                | Return topics => Return (inr topics)
                end
            end
        end
    end in
  ∃ n : nat,
    (n ≤ Z.to_nat (max_retries + 1))%nat
    ∧ chat_calls run.2 = (chat_calls w + n)%nat
    ∧ files run.2 = files w
    ∧ sleeps run.2
      = sleeps w ++ ((fun j : nat => 2 ^ Z.of_nat j) <$> seq 0 (n - 1))
    ∧ match run.1 with
      | Return topics =>
          ((0 < n)%nat
           ∧ answer (chat_calls w + n - 1)%nat = Return (inr topics))
          ∨ (max_retries < 0 ∧ n = 0%nat ∧ topics = [])
      | Raise e =>
          n = Z.to_nat (max_retries + 1) ∧ (0 < n)%nat
          ∧ ∃ cause,
              e = ValueError
                    (u "Failed to categorize subject topics after "
                     ++ of_Z (max_retries + 1) ++ u " attempts: "
                     ++ exn_str cause)
      end.
Proof.
  intros run answer. subst run answer.
  unfold SubjectCategorizer.categorize_subject_topics_llm.
  destruct (subject_attempts_outcome json_loads json_error client model q
              max_retries (Z.to_nat (max_retries + 1)) 0 w)
    as (n & Hn & Hc & Hf & Hs & Hr).
  { destruct (decide (0 ≤ max_retries + 1)); [right; lia|left; lia]. }
  exists n. split; [done|]. split; [done|]. split; [done|]. split; [done|].
  destruct (SubjectCategorizer.attempts _ _ _ _ _ _ _ _ _).1 as [topics|e].
  - destruct Hr as [Hr|[Hz ->]]; [by left|right].
    split; [lia|]. split; [lia|done].
  - done.
Qed.

(** X20.  The task that [categorize_subject_topics] gives to its worker
    pool never raises, makes exactly one chat call, does not sleep and
    writes nothing.  It reports success exactly when that call yields a
    JSON object whose "subject_topics" is a list or is absent; the
    question then carries that list as it is (the empty list when the key
    is absent), topics outside the known categories included, and is
    otherwise unchanged.  On failure the question is returned as it
    was. *)
Theorem categorize_single_question_outcome (json_loads : str -> option json)
    (json_error : str -> str) (client : SubjectCategorizer.topic_client)
    (model : str) (q : GoldenQuestion) (w : world) :
  let run :=
    SubjectCategorizer.categorize_single_question json_loads json_error
      client model q w in
  run.2 = {| chat_calls := S (chat_calls w); sleeps := sleeps w;
             files := files w |}
  ∧ ((∃ topics,
        run.1 = Return (SubjectCategorizer.set_subject_topics q topics, true)
        ∧ ∃ response content d,
            client (chat_calls w) model (question q) = Return response
            ∧ SubjectCategorizer.stripped_content response = Return content
            ∧ json_loads content = Some (JObj d)
            ∧ default (JArr []) (dict_get (u "subject_topics") d)
              = JArr topics)
     ∨ (run.1 = Return (q, false)
        ∧ ∀ response content d topics,
            client (chat_calls w) model (question q) = Return response →
            SubjectCategorizer.stripped_content response = Return content →
            json_loads content = Some (JObj d) →
            default (JArr []) (dict_get (u "subject_topics") d)
            ≠ JArr topics)).
Proof.
  intros run. subst run.
  unfold SubjectCategorizer.categorize_single_question,
    SubjectCategorizer.categorize_subject_topics_llm.
  change (Z.to_nat (0 + 1)) with 1%nat. cbn [SubjectCategorizer.attempts].
  unfold bind, catch. rewrite attempt_body_run. rewrite Z.eqb_refl.
  destruct (client (chat_calls w) model (question q)) as [response|e] eqn:Ec.
  2:{ split; [done|]. right. split; [done|]. intros ???? H. discriminate H. }
  destruct (SubjectCategorizer.stripped_content response) as [content|e]
    eqn:Es.
  2:{ split; [done|]. right. split; [done|]. intros ???? [= <-] H.
      congruence. }
  destruct (json_loads content) as [parsed|] eqn:Ej.
  2:{ split; [done|]. right. split; [done|]. intros ???? [= <-] H1 H2.
      congruence. }
  unfold SubjectCategorizer.topics_of.
  destruct parsed as [| | | | |d];
    try (split; [done|right; split;
                        [done|intros ???? [= <-] H1 H2; congruence]]).
  destruct (default (JArr []) (dict_get (u "subject_topics") d))
    as [| | | |topics|] eqn:Et;
    try (split; [done|right; split;
                        [done|intros ???? [= <-] H1 H2;
                              assert (content0 = content) as -> by congruence;
                              assert (d0 = d) as -> by congruence;
                              rewrite Et; discriminate]]).
  split; [done|]. left. exists topics. split; [done|].
  exists response, content, d. done.
Qed.

(** ** Provider configuration *)

Lemma missing_false (s : option str) :
  Provider.missing s = false ↔ ∃ c t, s = Some (c :: t).
Proof.
  destruct s as [[|c t]|]; simpl; split; try done; eauto;
    intros (? & ? & ?); done.
Qed.

(** X21.  [LLMConfig.from_env_and_args] fails only with a ValueError:
    when the provider name (command line, else LLM_PROVIDER, else
    "ollama"), lower-cased, is neither "ollama" nor "azure", or when Azure
    is chosen and one of endpoint, API key, chat deployment and embedding
    deployment is given neither on the command line nor in the
    environment.  A configuration it returns for Azure always has a chat
    and an embedding model name.  One it returns for Ollama takes the chat
    model from --model, else OLLAMA_MODEL, else the default, so that
    [get_chat_model_name] fails on it exactly when --model is not given
    and OLLAMA_MODEL is set to the empty string; the embedding model comes
    from the environment alone.  The cache is enabled unless no_cache is
    set, and the client is then wrapped with the cache directory of
    LLM_CACHE_DIR. *)
Theorem provider_config_outcome (py_lower : str -> str)
    (args : Provider.Args) (env : Provider.environ) :
  let provider_str :=
    Provider.or_getenv (Provider.args_provider args) env (u "LLM_PROVIDER")
      (u "ollama") in
  let azure_values :=
    [ Provider.or_else (Provider.args_azure_endpoint args)
        (env !! u "AZURE_OPENAI_ENDPOINT");
      Provider.or_else (Provider.args_azure_api_key args)
        (env !! u "AZURE_OPENAI_API_KEY");
      Provider.or_else (Provider.args_azure_chat_deployment args)
        (env !! u "AZURE_OPENAI_CHAT_DEPLOYMENT");
      Provider.or_else (Provider.args_azure_embedding_deployment args)
        (env !! u "AZURE_OPENAI_EMBEDDING_DEPLOYMENT") ] in
  match Provider.from_env_and_args py_lower args env with
  | Return config =>
      Provider.enable_cache config
      = negb (default false (Provider.args_no_cache args))
      ∧ Provider.cache_dir config
        = default (u ".cache/llm_responses") (env !! u "LLM_CACHE_DIR")
      ∧ (∃ base,
           Provider.create_llm_client config
           = if Provider.enable_cache config
             then Provider.CachedLLMClient base (Provider.cache_dir config)
             else Provider.Uncached base)
      ∧ match Provider.provider config with
        | Provider.AZURE =>
            py_lower provider_str = u "azure"
            ∧ Forall (fun v => Provider.missing v = false) azure_values
            ∧ (∃ chat,
                 Provider.get_chat_model_name config = Return chat
                 ∧ azure_values !! 2%nat = Some (Some chat))
            ∧ (∃ embedding,
                 Provider.get_embedding_model_name config = Return embedding
                 ∧ azure_values !! 3%nat = Some (Some embedding))
        | Provider.OLLAMA =>
            py_lower provider_str = u "ollama"
            ∧ Provider.ollama_chat_model config
              = Some (Provider.or_getenv (Provider.args_model args) env
                        (u "OLLAMA_MODEL") (u "gpt-oss:120b-cloud"))
            ∧ Provider.ollama_embedding_model config
              = Some (default (u "nomic-embed-text")
                        (env !! u "OLLAMA_EMBEDDING_MODEL"))
            ∧ ((∃ e, Provider.get_chat_model_name config = Raise e)
               ↔ Provider.missing (Provider.args_model args) = true
                 ∧ env !! u "OLLAMA_MODEL" = Some [])
            ∧ ((∃ e, Provider.get_embedding_model_name config = Raise e)
               ↔ env !! u "OLLAMA_EMBEDDING_MODEL" = Some [])
        end
  | Raise e =>
      (∃ msg, e = ValueError msg)
      ∧ ((py_lower provider_str ≠ u "ollama"
          ∧ py_lower provider_str ≠ u "azure")
         ∨ (py_lower provider_str = u "azure"
            ∧ Exists (fun v => Provider.missing v = true) azure_values))
  end.
Proof.
  intros provider_str azure_values. unfold Provider.from_env_and_args.
  fold provider_str. unfold Provider.provider_of_value.
  destruct (decide (py_lower provider_str = u "ollama")) as [Ho|Ho].
  - (* Ollama *)
    unfold Provider.with_cache, Provider._from_env_and_args_ollama.
    cbn [Provider.enable_cache Provider.cache_dir Provider.provider
         Provider.ollama_chat_model Provider.ollama_embedding_model].
    split; [done|]. split; [done|]. split.
    { unfold Provider.create_llm_client. cbn [Provider.enable_cache]. eauto. }
    split; [done|]. split; [done|]. split; [done|].
    unfold Provider.get_chat_model_name, Provider.get_embedding_model_name.
    cbn [Provider.provider Provider.ollama_chat_model
         Provider.ollama_embedding_model].
    split.
    + unfold Provider.or_getenv.
      destruct (Provider.args_model args) as [[|c t]|]; simpl;
        destruct (env !! u "OLLAMA_MODEL") as [[|c' t']|]; simpl;
        split; try (intros [e H]; done); try (intros [H1 H2]; done);
        eauto.
    + destruct (env !! u "OLLAMA_EMBEDDING_MODEL") as [[|c' t']|]; simpl;
        split; try (intros [e H]; done); try done; eauto.
  - destruct (decide (py_lower provider_str = u "azure")) as [Ha|Ha].
    2:{ split; [eauto|]. by left. }
    (* Azure *)
    unfold Provider._from_env_and_args_azure.
    subst azure_values.
    set (endpoint := Provider.or_else (Provider.args_azure_endpoint args) _).
    set (api_key := Provider.or_else (Provider.args_azure_api_key args) _).
    set (chat := Provider.or_else (Provider.args_azure_chat_deployment args) _).
    set (emb := Provider.or_else
                  (Provider.args_azure_embedding_deployment args) _).
    destruct (Provider.missing endpoint) eqn:E1.
    { split; [eauto|]. right. split; [done|]. by apply Exists_cons_hd. }
    destruct (Provider.missing api_key) eqn:E2.
    { split; [eauto|]. right. split; [done|].
      by apply Exists_cons_tl, Exists_cons_hd. }
    destruct (Provider.missing chat) eqn:E3.
    { split; [eauto|]. right. split; [done|].
      by apply Exists_cons_tl, Exists_cons_tl, Exists_cons_hd. }
    destruct (Provider.missing emb) eqn:E4.
    { split; [eauto|]. right. split; [done|].
      by apply Exists_cons_tl, Exists_cons_tl, Exists_cons_tl,
         Exists_cons_hd. }
    unfold Provider.with_cache.
    cbn [Provider.enable_cache Provider.cache_dir Provider.provider
         Provider.azure_chat_deployment Provider.azure_embedding_deployment].
    split; [done|]. split; [done|]. split.
    { unfold Provider.create_llm_client. cbn [Provider.enable_cache]. eauto. }
    split; [done|]. split; [by repeat constructor|].
    unfold Provider.get_chat_model_name, Provider.get_embedding_model_name.
    cbn [Provider.provider Provider.azure_chat_deployment
         Provider.azure_embedding_deployment].
    apply missing_false in E3 as (c & t & ->).
    apply missing_false in E4 as (c' & t' & ->).
    split; eexists; (split; [reflexivity|]); reflexivity.
Qed.

(** ** Loading conversations *)

Section LoaderFacts.

Import Loader.

(** The keys a record must have. *)
Local Abbreviation has_fields fields d :=
  (Forall (fun f : str => is_Some (dict_get f d)) fields).

Lemma require_fields_object what fields d :
  match require_fields what fields (JObj d) with
  | Return _ => has_fields fields d
  | Raise e =>
      ¬ has_fields fields d
      ∧ ∃ field, field ∈ fields
                 ∧ e = OtherError (u "Missing required " ++ what
                                   ++ u " field: " ++ field)
  end.
Proof.
  induction fields as [|f fields IH]; [by constructor|].
  cbn [require_fields json_contains]. case_bool_decide as Hf.
  - destruct (require_fields what fields (JObj d)).
    + by constructor.
    + destruct IH as (Hnot & field & Hin & ->). split.
      * intros Hall. apply Forall_cons in Hall as [_ Hall]. done.
      * exists field. split; [by right|done].
  - split.
    + intros Hall. apply Forall_cons in Hall as [? _]. done.
    + exists f. split; [by left|done].
Qed.

(** [require_fields] raises a [KeyError] or a [TypeError] only. *)
Lemma require_fields_errors what fields v e :
  require_fields what fields v = Raise e →
  (∃ msg, e = OtherError (u "Missing required " ++ msg))
  ∨ ∃ msg, e = TypeError msg.
Proof.
  induction fields as [|f fields IH]; [done|]. cbn [require_fields].
  destruct (json_contains f v) as [[|]|e'] eqn:Ec.
  - done.
  - intros [= <-]. left. eexists. reflexivity.
  - intros [= <-]. right. destruct v; try done; simpl in Ec;
      injection Ec as <-; eauto.
Qed.

Lemma json_index_not_object key v :
  (∀ d, v ≠ JObj d) → ∃ msg, json_index key v = Raise (TypeError msg).
Proof. intros Hv. destruct v; try (by eexists). by destruct (Hv kvs). Qed.

Lemma json_index_object key d v :
  dict_get key d = Some v → json_index key (JObj d) = Return v.
Proof. intros H. simpl. by rewrite H. Qed.

(** The errors of the parser: [ValueError] for a missing top-level
    field, [KeyError] for a missing field of the conversation or of a
    message, [TypeError] for a value of the wrong kind. *)
Local Abbreviation parse_error e :=
  ((e = ValueError (u "Missing 'conversation' field")
    ∨ e = ValueError (u "Missing 'messages' field"))
   ∨ (∃ msg, e = OtherError (u "Missing required " ++ msg))
   ∨ ∃ msg, e = TypeError msg).

(** A message of the input and the message built from it. *)
Local Abbreviation message_built m rm :=
  (∃ md, m = JObj md
         ∧ has_fields required_msg_fields md
         ∧ dict_get (u "id") md = Some (raw_id rm)
         ∧ dict_get (u "text") md = Some (raw_text rm)
         ∧ dict_get (u "created") md = Some (raw_created rm)
         ∧ raw_role rm = default JNull (dict_get (u "role") md)
         ∧ raw_chunks rm = default (JArr []) (dict_get (u "chunks") md)
         ∧ raw_filterValue rm
           = default JNull (dict_get (u "filterValue") md)).

Local Abbreviation message_accepted m :=
  (∃ md, m = JObj md ∧ has_fields required_msg_fields md).

Lemma parse_message_outcome m :
  match parse_message m with
  | Return rm => message_built m rm
  | Raise e =>
      ¬ message_accepted m
      ∧ ((∃ msg, e = OtherError (u "Missing required " ++ msg))
         ∨ ∃ msg, e = TypeError msg)
  end.
Proof.
  unfold parse_message.
  destruct (require_fields (u "message") required_msg_fields m) as [[]|e]
    eqn:Er.
  - assert ((∃ md, m = JObj md) ∨ ∀ d, m ≠ JObj d) as [[md ->]|Hm]
      by (destruct m; eauto).
    + pose proof (require_fields_object (u "message") required_msg_fields md)
        as Hall.
      rewrite Er in Hall. pose proof Hall as Hall'.
      unfold required_msg_fields in Hall'.
      apply Forall_cons in Hall' as [[v1 H1] Hall'].
      apply Forall_cons in Hall' as [[v2 H2] Hall'].
      apply Forall_cons in Hall' as [[v3 H3] _].
      rewrite (json_index_object _ _ _ H1), (json_index_object _ _ _ H2),
        (json_index_object _ _ _ H3).
      cbn [json_get]. exists md. done.
    + destruct (json_index_not_object (u "id") m Hm) as [msg ->].
      split; [|eauto]. intros (md & -> & _). by destruct (Hm md).
  - split; [|by eapply require_fields_errors].
    intros (md & -> & Hall).
    pose proof (require_fields_object (u "message") required_msg_fields md)
      as Hobj.
    rewrite Er in Hobj. by destruct Hobj.
Qed.

Lemma parse_messages_outcome ms :
  match parse_messages ms with
  | Return rms => Forall2 (fun m rm => message_built m rm) ms rms
  | Raise e =>
      Exists (fun m => ¬ message_accepted m) ms
      ∧ ((∃ msg, e = OtherError (u "Missing required " ++ msg))
         ∨ ∃ msg, e = TypeError msg)
  end.
Proof.
  induction ms as [|m ms IH]; [by constructor|]. cbn [parse_messages].
  pose proof (parse_message_outcome m) as Hm.
  destruct (parse_message m) as [rm|e].
  - destruct (parse_messages ms) as [rms|e].
    + by constructor.
    + destruct IH as [Hex He]. split; [by apply Exists_cons_tl|done].
  - destruct Hm as [Hnot He]. split; [by apply Exists_cons_hd|done].
Qed.

Local Abbreviation conversation_accepted data :=
  (∃ d c messages_data ms,
     data = JObj d
     ∧ dict_get (u "conversation") d = Some (JObj c)
     ∧ dict_get (u "messages") d = Some messages_data
     ∧ json_iter messages_data = Return ms
     ∧ has_fields required_conv_fields c
     ∧ Forall (fun m => message_accepted m) ms).

Local Abbreviation conversation_built data rc :=
  (∃ d c messages_data ms,
     data = JObj d
     ∧ dict_get (u "conversation") d = Some (JObj c)
     ∧ dict_get (u "messages") d = Some messages_data
     ∧ json_iter messages_data = Return ms
     ∧ has_fields required_conv_fields c
     ∧ rc_userId rc = []
     ∧ dict_get (u "id") c = Some (rc_id rc)
     ∧ dict_get (u "topic") c = Some (rc_topic rc)
     ∧ dict_get (u "entityId") c = Some (rc_entityId rc)
     ∧ dict_get (u "created") c = Some (rc_created rc)
     ∧ Forall2 (fun m rm => message_built m rm) ms (rc_messages rc)).

Lemma json_contains_errors key v e :
  json_contains key v = Raise e → ∃ msg, e = TypeError msg.
Proof. destruct v; try done; intros [= <-]; eauto. Qed.

Lemma parse_conversation_outcome data :
  match _parse_conversation data with
  | Return rc => conversation_built data rc
  | Raise e => ¬ conversation_accepted data ∧ parse_error e
  end.
Proof.
  unfold _parse_conversation.
  assert ((∃ d, data = JObj d) ∨ ∀ d, data ≠ JObj d) as [[d ->]|Hdata]
    by (destruct data; eauto).
  2:{ (* not an object: every path ends in an error *)
      assert (¬ conversation_accepted data) as Hnot.
      { intros (d & ? & ? & ? & -> & _). by destruct (Hdata d). }
      destruct (json_contains (u "conversation") data) as [[|]|e] eqn:E1;
        [|split; [done|]; left; by left
         |split; [done|]; right; right; by eapply json_contains_errors].
      destruct (json_contains (u "messages") data) as [[|]|e] eqn:E2;
        [|split; [done|]; left; by right
         |split; [done|]; right; right; by eapply json_contains_errors].
      destruct (json_index_not_object (u "conversation") data Hdata)
        as [msg ->].
      split; [done|]. right. right. eauto. }
  cbn [json_contains json_index].
  destruct (dict_get (u "conversation") d) as [conv_data|] eqn:Ec.
  2:{ rewrite bool_decide_eq_false_2 by (by intros [? ?]).
      split; [|left; by left].
      intros (d' & c & m & ms & [= <-] & H & _). congruence. }
  rewrite bool_decide_eq_true_2 by eauto.
  destruct (dict_get (u "messages") d) as [messages_data|] eqn:Em.
  2:{ rewrite bool_decide_eq_false_2 by (by intros [? ?]).
      split; [|left; by right].
      intros (d' & c & m & ms & [= <-] & _ & H & _). congruence. }
  rewrite bool_decide_eq_true_2 by eauto.
  destruct (require_fields (u "conversation") required_conv_fields conv_data)
    as [[]|e] eqn:Er.
  2:{ split; [|right; by eapply require_fields_errors].
      intros (d' & c & m & ms & [= <-] & H & _ & _ & Hall & _).
      assert (conv_data = JObj c) as -> by congruence.
      pose proof (require_fields_object (u "conversation")
                    required_conv_fields c) as Hobj.
      rewrite Er in Hobj. by destruct Hobj. }
  destruct (json_iter messages_data) as [ms|e] eqn:Ei.
  2:{ split.
      - intros (d' & c & m & ms & [= <-] & _ & H & Hit & _).
        assert (messages_data = m) as -> by congruence. congruence.
      - right. right. destruct messages_data; try done;
          injection Ei as <-; eauto. }
  pose proof (parse_messages_outcome ms) as Hms.
  destruct (parse_messages ms) as [rms|e].
  2:{ destruct Hms as [Hex He]. split; [|by right].
      intros (d' & c & m & ms' & [= <-] & _ & H & Hit & _ & Hall).
      assert (messages_data = m) as -> by congruence.
      assert (ms' = ms) as -> by congruence.
      apply Exists_exists in Hex as (x & Hx & Hnot).
      rewrite Forall_forall in Hall. by apply Hnot, Hall. }
  assert ((∃ c, conv_data = JObj c) ∨ ∀ c, conv_data ≠ JObj c)
    as [[c ->]|Hconv] by (destruct conv_data; eauto).
  2:{ destruct (json_index_not_object (u "id") conv_data Hconv) as [msg ->].
      split; [|right; right; eauto].
      intros (d' & c & m & ms' & [= <-] & H & _).
      assert (conv_data = JObj c) as -> by congruence. by destruct (Hconv c). }
  pose proof (require_fields_object (u "conversation") required_conv_fields c)
    as Hall.
  rewrite Er in Hall. pose proof Hall as Hall'.
  unfold required_conv_fields in Hall'.
  apply Forall_cons in Hall' as [[v1 H1] Hall'].
  apply Forall_cons in Hall' as [[v2 H2] Hall'].
  apply Forall_cons in Hall' as [[v3 H3] Hall'].
  apply Forall_cons in Hall' as [[v4 H4] Hall'].
  apply Forall_cons in Hall' as [[v5 H5] _].
  rewrite (json_index_object _ _ _ H1), (json_index_object _ _ _ H2),
    (json_index_object _ _ _ H3), (json_index_object _ _ _ H5).
  exists d, c, messages_data, ms. done.
Qed.

(** X22.  [_parse_conversation] returns exactly for a JSON object whose
    "conversation" is an object with the five required keys and whose
    "messages" is a sequence of objects that each have "id", "text" and
    "created".  The conversation it builds copies id, topic, entityId and
    created, always has the empty string as userId whatever the input
    holds there, and has one message per input message, in order, with
    role and filterValue defaulting to None and chunks to the empty list.
    Every other input raises: a ValueError for a missing top-level field,
    a KeyError naming a missing required field, or a TypeError for a value
    that is not the kind of container the code indexes or iterates. *)
Theorem parse_conversation_cases (data : json) :
  match _parse_conversation data with
  | Return rc => conversation_built data rc
  | Raise e => ¬ conversation_accepted data ∧ parse_error e
  end.
Proof. apply parse_conversation_outcome. Qed.

End LoaderFacts.

Section LoadFacts.

Import Loader.

Context (json_loads : str -> option json).

(** The conversation a line contributes, if any. *)
Local Abbreviation good :=
  (fun line : str =>
     match strip line with
     | [] => None
     | c :: l =>
         match json_loads (c :: l) with
         | None => None
         | Some data =>
             match _parse_conversation data with
             | Return conv => Some conv
             | Raise _ => None
             end
         end
     end).

(** A line whose value makes the parser raise a [TypeError], which the
    loop does not catch. *)
Local Abbreviation fatal line e :=
  (∃ data msg,
     strip line ≠ [] ∧ json_loads (strip line) = Some data
     ∧ _parse_conversation data = Raise (TypeError msg)
     ∧ e = TypeError msg).

(** The limit test lets the loop go on when [n] conversations are
    loaded. *)
Local Abbreviation open limit n :=
  (match limit with
   | None => True
   | Some l => l = 0 ∨ Z.of_nat n < l
   end).






End LoadFacts.

(** ** The context string of a reformulation *)

(** X24.  [_build_context_string] is empty for an empty conversation.
    With a positive [max_messages] it is built from the last
    [max_messages] messages alone: the messages before them do not
    change it.  With [max_messages = 0] the slice [messages[-0:]] is the
    whole list, so every message is included rather than none.  In each
    case the result is the lines of the included messages, in order,
    separated by newlines. *)
Theorem context_string_window (py_capitalize : str -> str)
    (py_str : json -> str) (older : list Message) (m : Message)
    (recent : list Message) (messages : list Message) :
  let line := Context.context_line py_capitalize py_str in
  let n := Z.of_nat (S (length recent)) in
  Context._build_context_string py_capitalize py_str [] n = []
  ∧ Context._build_context_string py_capitalize py_str
      (older ++ m :: recent) n
    = join [10%N] (line <$> m :: recent)
  ∧ Context._build_context_string py_capitalize py_str
      (older ++ m :: recent) n
    = Context._build_context_string py_capitalize py_str (m :: recent) n
  ∧ Context._build_context_string py_capitalize py_str messages 0
    = join [10%N] (line <$> messages).
Proof.
  intros line n.
  assert (∀ l, Context._build_context_string py_capitalize py_str
                 (l ++ m :: recent) n
               = join [10%N] (line <$> m :: recent)) as Hwin.
  { intros l. unfold Context._build_context_string.
    destruct (l ++ m :: recent) as [|x rest] eqn:E.
    { by destruct l. }
    rewrite <- E. unfold Context.slice_from_end.
    rewrite (proj2 (Z.ltb_lt 0 n)) by lia.
    replace (length (l ++ m :: recent) - Z.to_nat n)%nat with (length l)
      by (rewrite length_app; simpl; lia).
    by rewrite drop_app_length. }
  split; [done|]. split; [apply Hwin|]. split.
  - rewrite Hwin. symmetry. apply (Hwin []).
  - unfold Context._build_context_string. by destruct messages.
Qed.

(** ** Closing a truncated usage-mode completion *)

Lemma endswith_brace_snoc (s : str) (d : char) :
  endswith (s ++ [d]) (u "}") = (125 =? d)%N.
Proof.
  unfold endswith. rewrite reverse_snoc. change (reverse (u "}")) with [125%N].
  simpl. apply andb_true_r.
Qed.

Lemma from_first_brace_suffix (s part : str) :
  Categorizer.from_first_brace s = Some part →
  ∃ pre c rest, part = c :: rest ∧ s = pre ++ part.
Proof.
  induction s as [|c s IH]; [done|]. simpl.
  destruct (c =? 123)%N.
  - intros [= <-]. by exists [], c, s.
  - intros (pre & c' & rest & -> & ->)%IH. by exists (c :: pre), c', rest.
Qed.

Lemma suffix_last {A} (pre part t : list A) (c d : A) (rest : list A) :
  part = c :: rest → pre ++ part = t ++ [d] → ∃ p, part = p ++ [d].
Proof.
  intros -> Heq.
  destruct (decide (rest = [])) as [->|Hne].
  - change (pre ++ [c]) with (pre ++ [c]) in Heq.
    apply app_inj_tail in Heq as [_ ->]. by exists [].
  - destruct (exists_last Hne) as (r & x & ->).
    rewrite app_comm_cons, app_assoc in Heq.
    apply app_inj_tail in Heq as [_ ->].
    exists (c :: r). done.
Qed.

(** X25.  On a stripped completion the repair step of
    [categorize_question_llm] does one thing only: when the text does not
    end with a closing brace, contains an opening brace and, from that
    brace on, the quoted key "output_complexity", it removes trailing
    commas and appends a closing brace; in every other case the text is
    left as it is.  The inner test of the code is then always true.  A
    repaired text ends with a closing brace, and repairing twice is
    repairing once. *)
Theorem repair_on_stripped (content : str) :
  let s := strip content in
  let key := 34%N :: u "output_complexity" ++ [34%N] in
  Categorizer.repair s
  = (if endswith s (u "}") then s
     else match Categorizer.from_first_brace s with
          | Some part =>
              if str_contains key part
              then Categorizer.rstrip_comma s ++ u "}"
              else s
          | None => s
          end)
  ∧ (Categorizer.repair s = s
     ∨ endswith (Categorizer.repair s) (u "}") = true)
  ∧ Categorizer.repair (Categorizer.repair s) = Categorizer.repair s.
Proof.
  intros s key.
  assert (Categorizer.repair s
          = (if endswith s (u "}") then s
             else match Categorizer.from_first_brace s with
                  | Some part =>
                      if str_contains key part
                      then Categorizer.rstrip_comma s ++ u "}"
                      else s
                  | None => s
                  end)) as Hrepair.
  { pose proof (strip_shape content) as Hshape. fold s in Hshape.
    clearbody s. unfold Categorizer.repair. fold key.
    destruct (endswith s (u "}")) eqn:Eend; [done|]. cbn [negb].
    destruct (Categorizer.from_first_brace s) as [part|] eqn:Epart; [|done].
    destruct (str_contains key part); [|done].
    destruct Hshape as [Hs|(c & t & _ & _ & t' & d & Hs & Hd)].
    { rewrite Hs in Epart. done. }
    apply from_first_brace_suffix in Epart as (pre & c' & rest & Hp & Hpre).
    assert (∃ p, part = p ++ [d]) as [p Hlast].
    { eapply suffix_last; [exact Hp|]. by rewrite <- Hpre. }
    assert ((125 =? d)%N = false) as Hd125
      by (by rewrite Hs, endswith_brace_snoc in Eend).
    rewrite Hlast, (rstrip_snoc_nonspace p d Hd), endswith_brace_snoc, Hd125.
    cbn [negb]. by rewrite Hs, (rstrip_snoc_nonspace t' d Hd). }
  split; [exact Hrepair|].
  assert (∀ x, endswith (x ++ u "}") (u "}") = true) as Hclosed.
  { intros x. change (u "}") with [125%N]. by rewrite endswith_brace_snoc. }
  assert (Categorizer.repair s = s
          ∨ endswith (Categorizer.repair s) (u "}") = true) as Hcases.
  { rewrite Hrepair. destruct (endswith s (u "}")); [by left|].
    destruct (Categorizer.from_first_brace s); [|by left].
    destruct (str_contains key _); [right; apply Hclosed|by left]. }
  split; [exact Hcases|].
  destruct Hcases as [H|Hend]; [by rewrite !H|].
  unfold Categorizer.repair at 1. by rewrite Hend.
Qed.

(** ** What deduplication guarantees about its result *)

Lemma deduplicate_questions_kept (py_lower : str -> str)
    (py_isalnum : char -> bool) (np_sqrt : Q -> Q)
    (questions : list GoldenQuestion) (output_dropped_file : option str)
    (use_semantic : bool) (similarity_threshold : Q)
    (embedding_client_ : option Dedup.embedding_client)
    (embedding_model : option str) (fs : filesystem) :
  match (Dedup.deduplicate_questions py_lower py_isalnum np_sqrt questions
           output_dropped_file use_semantic similarity_threshold
           embedding_client_ embedding_model fs).1 with
  | Return kept =>
      sublist kept
        (Dedup.deduplicated (Dedup.exact_stage py_lower py_isalnum questions))
  | Raise _ => True
  end.
Proof.
  unfold Dedup.deduplicate_questions.
  destruct (Qle_bool 0 similarity_threshold
            && Qle_bool similarity_threshold 1); simpl; [|done].
  set (st := Dedup.exact_stage py_lower py_isalnum questions).
  assert (∀ fs' : filesystem,
            match (Return (Dedup.deduplicated st), fs').1 with
            | Return kept => sublist kept (Dedup.deduplicated st)
            | Raise _ => True
            end) as Hsame by (intros fs'; simpl; reflexivity).
  destruct use_semantic; simpl.
  - destruct embedding_client_ as [client|]; [|done].
    destruct embedding_model as [model|]; [|done].
    destruct questions as [|q0 questions'] eqn:Eq.
    { apply sublist_nil_l. }
    clear Eq.
    destruct (decide (1 < length (Dedup.deduplicated st))%nat).
    2:{ by apply Hsame. }
    pose proof (semantic_stage_outcome np_sqrt similarity_threshold client
                  model (Dedup.deduplicated st)) as Hsem.
    destruct (Dedup.semantic_stage _ _ _ _ _) as [[kept sd]|e].
    + by destruct Hsem as (Hs & _).
    + destruct Hsem as [m ->]. by apply Hsame.
  - destruct questions as [|q0 questions'] eqn:Eq.
    { destruct embedding_client_, embedding_model; apply sublist_nil_l. }
    clear Eq.
    destruct embedding_client_, embedding_model; by apply Hsame.
Qed.

(** X26.  The questions that [deduplicate_questions] returns have
    pairwise different normal forms, with or without semantic matching.
    And the semantic sweep leaves no similar pair behind: any two
    positions that both survive it have a cosine similarity below the
    threshold. *)
Theorem dedup_result_pairwise_distinct (py_lower : str -> str)
    (py_isalnum : char -> bool) (np_sqrt : Q -> Q)
    (questions : list GoldenQuestion) (output_dropped_file : option str)
    (use_semantic : bool) (similarity_threshold : Q)
    (embedding_client_ : option Dedup.embedding_client)
    (embedding_model : option str) (fs : filesystem)
    (embeddings : list Dedup.vec) (deduplicated : list GoldenQuestion) :
  match (Dedup.deduplicate_questions py_lower py_isalnum np_sqrt questions
           output_dropped_file use_semantic similarity_threshold
           embedding_client_ embedding_model fs).1 with
  | Return kept =>
      NoDup ((fun q => Dedup._normalize_text py_lower py_isalnum (question q))
             <$> kept)
  | Raise _ => True
  end
  ∧ ∀ i j,
      (i < j)%nat → (j < length deduplicated)%nat →
      let removed :=
        Dedup.indices_to_remove
          (Dedup.sweep np_sqrt similarity_threshold embeddings deduplicated)
      in
      i ∉ removed → j ∉ removed →
      Qle_bool similarity_threshold
        (Dedup._compute_cosine_similarity np_sqrt
           (embeddings !!! i) (embeddings !!! j)) = false.
Proof.
  split.
  - pose proof (deduplicate_questions_kept py_lower py_isalnum np_sqrt
                  questions output_dropped_file use_semantic
                  similarity_threshold embedding_client_ embedding_model fs)
      as Hkept.
    destruct (Dedup.deduplicate_questions _ _ _ _ _ _ _ _ _ _).1
      as [kept|e]; [|done].
    destruct (exact_stage_log py_lower py_isalnum questions)
      as ([Hnd _] & _).
    refine (sublist_NoDup _ _ Hnd _). by apply fmap_sublist.
  - intros i j Hij Hj removed Hi Hjr.
    destruct (Qle_bool _ _) eqn:E; [|done]. exfalso. apply Hjr.
    apply sweep_removed_iff. split; [done|]. exists i. done.
Qed.
